(** * Stale-branches-cleanup: a shallow embedding of [src/index.js]

    The action reads its inputs, compiles the [skip-branches] exclusion list,
    lists the branches of the repository and walks over them once, deciding
    for each branch whether it is skipped, deleted or (in a dry run) only
    reported.  Everything the action can observe of the outside world goes
    through the GitHub client; everything it does to the outside world is a
    call of that client, a log line, a pause or an output.  The embedding
    keeps those as a chronological trace of events, and the client as an
    oracle that answers a call from the trace so far.

    Strings are sequences of code units below 256.  Numbers that the script
    only ever uses as integers are [Z]; [NaN] and an invalid [Date] are
    [None]. *)

From Stdlib Require Import ZArith String Ascii List Bool Lia.
From stdpp Require Import base list strings.

Local Open Scope Z_scope.

(** ** Built-ins of the language used by the script *)

Module Js.

(** [WhiteSpace] and [LineTerminator] code units below 256: what
    [String.prototype.trim] strips and [parseInt] skips. *)
Definition isWhiteSpace (c : ascii) : bool :=
  match c with
  | "009" | "010" | "011" | "012" | "013" | " " | "160" => true
  | _ => false
  end%char.

(** The code units that [.] does not match (no [s] flag). *)
Definition isLineTerminator (c : ascii) : bool :=
  match c with
  | "010" | "013" => true
  | _ => false
  end%char.

Fixpoint trimStart (s : string) : string :=
  match s with
  | String c s' => if isWhiteSpace c then trimStart s' else s
  | EmptyString => EmptyString
  end.

Definition trimEnd (s : string) : string :=
  String.rev (trimStart (String.rev s)).

(** [s.trim()] *)
Definition trim (s : string) : string := trimEnd (trimStart s).

(** [s.split(',')]: the pieces between commas; never the empty list. *)
Fixpoint split_go (cur : string) (s : string) : list string :=
  match s with
  | EmptyString => [String.rev cur]
  | String c s' =>
      if Ascii.eqb c ","%char
      then String.rev cur :: split_go EmptyString s'
      else split_go (String c cur) s'
  end.

Definition split_comma (s : string) : list string := split_go EmptyString s.

(** [s.includes('*')] *)
Fixpoint includes_star (s : string) : bool :=
  match s with
  | EmptyString => false
  | String c s' => Ascii.eqb c "*"%char || includes_star s'
  end.

(** [s.replace(/\*/g, '.*')] *)
Fixpoint replace_star (s : string) : string :=
  match s with
  | EmptyString => EmptyString
  | String c s' =>
      if Ascii.eqb c "*"%char
      then String "."%char (String "*"%char (replace_star s'))
      else String c (replace_star s')
  end.

(** [arr.includes(x)] on an array of strings. *)
Definition includes (l : list string) (x : string) : bool :=
  existsb (String.eqb x) l.

(** [parseInt(s, 10)]: leading white space, an optional sign, then the
    longest run of decimal digits; [None] is [NaN]. *)
Definition digit (c : ascii) : option Z :=
  match Ascii.is_nat c with
  | Some n => Some (Z.of_nat n)
  | None => None
  end.

Fixpoint digits (acc : Z) (s : string) : Z :=
  match s with
  | EmptyString => acc
  | String c s' =>
      match digit c with
      | Some d => digits (10 * acc + d) s'
      | None => acc
      end
  end.

Definition startsWithDigit (s : string) : bool :=
  match s with
  | String c _ => match digit c with Some _ => true | None => false end
  | EmptyString => false
  end.

Definition parseInt (s : string) : option Z :=
  let t := trimStart s in
  let '(sign, body) :=
    match t with
    | String "-"%char r => (-1, r)
    | String "+"%char r => (1, r)
    | _ => (1, t)
    end in
  if startsWithDigit body then Some (sign * digits 0 body) else None.

(** [setTimeout(callback, delay)] for an integral [delay]: the number of
    milliseconds the timer waits.  A delay below 1 or above 2^31 - 1 is
    set to 1. *)
Definition timerDelay (delay : Z) : Z :=
  if (delay <? 1) || (2147483647 <? delay) then 1 else delay.

End Js.

(** ** Regular expressions

    [new RegExp(source)] and [re.test(s)] for the part of the pattern
    language an exclusion entry can reach with plain text, [.], the
    quantifiers [*], [+], [?] (greedy or lazy), groups, alternation, the
    anchors and escaped syntax characters.  Patterns that use anything else
    (classes, braces, letter escapes, [(?...)] groups) get no verdict. *)

Module RegExp.

Inductive regex : Type :=
| Empty
| Char (c : ascii)
| Dot
| Bol
| Eol
| Cat (r1 r2 : regex)
| Alt (r1 r2 : regex)
| Star (r : regex)
| Plus (r : regex)
| Opt (r : regex).

(** What the constructor does with a source text. *)
Inductive verdict (A : Type) : Type :=
| Compiled (a : A)
| SyntaxError
| Unmodelled.
Arguments Compiled {A} a.
Arguments SyntaxError {A}.
Arguments Unmodelled {A}.

Inductive termKind : Type := Assertion | Atom | Quantified | QuantifiedLazy.

(** One open group while parsing: the alternatives already closed and the
    terms of the alternative being read, both latest first. *)
Record frame : Type := Frame {
  alts : list regex;
  terms : list (regex * termKind)
}.

Definition emptyFrame : frame := Frame [] [].

Definition alternative (ts : list (regex * termKind)) : regex :=
  fold_left (fun acc t => Cat (fst t) acc) ts Empty.

Definition disjunction (f : frame) : regex :=
  fold_left (fun acc a => Alt a acc) (alts f) (alternative (terms f)).

Definition pushTerm (f : frame) (r : regex) (k : termKind) : frame :=
  Frame (alts f) ((r, k) :: terms f).

Definition nextAlternative (f : frame) : frame :=
  Frame (alternative (terms f) :: alts f) [].

(** A quantifier applies to the atom just read and to nothing else. *)
Definition quantify (q : regex -> regex) (f : frame) : option frame :=
  match terms f with
  | (r, Atom) :: ts => Some (Frame (alts f) ((q r, Quantified) :: ts))
  | _ => None
  end.

(** [?] is a quantifier after an atom and the lazy mark after a
    quantifier. *)
Definition question (f : frame) : option frame :=
  match terms f with
  | (r, Atom) :: ts => Some (Frame (alts f) ((Opt r, Quantified) :: ts))
  | (r, Quantified) :: ts => Some (Frame (alts f) ((r, QuantifiedLazy) :: ts))
  | _ => None
  end.

Definition isSyntaxCharacter (c : ascii) : bool :=
  match c with
  | "^" | "$" | "\" | "." | "*" | "+" | "?" | "(" | ")" | "[" | "]"
  | "{" | "}" | "|" => true
  | _ => false
  end%char.

Definition isIdentityEscape (c : ascii) : bool :=
  isSyntaxCharacter c || Ascii.eqb c "/"%char.

Fixpoint parse (stack : list frame) (cur : frame) (s : string) : verdict regex :=
  match s with
  | EmptyString =>
      match stack with
      | [] => Compiled (disjunction cur)
      | _ :: _ => SyntaxError
      end
  | String c s' =>
      match c with
      | "("%char =>
          match s' with
          | String "?"%char _ => Unmodelled
          | _ => parse (cur :: stack) emptyFrame s'
          end
      | ")"%char =>
          match stack with
          | [] => SyntaxError
          | f :: stack' => parse stack' (pushTerm f (disjunction cur) Atom) s'
          end
      | "|"%char => parse stack (nextAlternative cur) s'
      | "*"%char =>
          match quantify Star cur with
          | Some cur' => parse stack cur' s'
          | None => SyntaxError
          end
      | "+"%char =>
          match quantify Plus cur with
          | Some cur' => parse stack cur' s'
          | None => SyntaxError
          end
      | "?"%char =>
          match question cur with
          | Some cur' => parse stack cur' s'
          | None => SyntaxError
          end
      | "^"%char => parse stack (pushTerm cur Bol Assertion) s'
      | "$"%char => parse stack (pushTerm cur Eol Assertion) s'
      | "."%char => parse stack (pushTerm cur Dot Atom) s'
      | "\"%char =>
          match s' with
          | EmptyString => SyntaxError
          | String e s'' =>
              if isIdentityEscape e
              then parse stack (pushTerm cur (Char e) Atom) s''
              else Unmodelled
          end
      | "["%char | "]"%char | "{"%char | "}"%char => Unmodelled
      | _ => parse stack (pushTerm cur (Char c) Atom) s'
      end
  end.

(** [new RegExp(source)] *)
Definition new (source : string) : verdict regex := parse [] emptyFrame source.

(** The matcher, in continuation style: [k] receives whether the position
    reached is still the start of the input, and the rest of the input. *)
Definition cont : Type := bool -> string -> bool.

Fixpoint repeat (m : bool -> string -> cont -> bool) (fuel : nat)
    (at0 : bool) (s : string) (k : cont) : bool :=
  k at0 s
  || match fuel with
     | O => false
     | S fuel' =>
         m at0 s (fun a t =>
           (String.length t <? String.length s)%nat && repeat m fuel' a t k)
     end.

Fixpoint run (r : regex) (at0 : bool) (s : string) (k : cont) : bool :=
  match r with
  | Empty => k at0 s
  | Char c =>
      match s with
      | String d s' => Ascii.eqb c d && k false s'
      | EmptyString => false
      end
  | Dot =>
      match s with
      | String d s' => negb (Js.isLineTerminator d) && k false s'
      | EmptyString => false
      end
  | Bol => at0 && k at0 s
  | Eol =>
      match s with
      | EmptyString => k at0 s
      | String _ _ => false
      end
  | Cat r1 r2 => run r1 at0 s (fun a t => run r2 a t k)
  | Alt r1 r2 => run r1 at0 s k || run r2 at0 s k
  | Star r1 => repeat (run r1) (String.length s) at0 s k
  | Plus r1 =>
      run r1 at0 s (fun a t => repeat (run r1) (String.length t) a t k)
  | Opt r1 => run r1 at0 s k || k at0 s
  end.

(** A match may start at any index of the input. *)
Fixpoint search (r : regex) (at0 : bool) (s : string) : bool :=
  run r at0 s (fun _ _ => true)
  || match s with
     | String _ s' => search r false s'
     | EmptyString => false
     end.

(** [re.test(s)] for a regex without the [g] or [y] flag. *)
Definition test (r : regex) (s : string) : bool := search r true s.

End RegExp.

(** ** Exclusion rules (lines 72 to 96 and 170 to 183) *)

(** The three arrays of lines 74 to 76.  [skipBranchPatterns] is only
    logged; it holds the text each pattern was built from, which
    [regexPattern.source] renders with [/] escaped. *)
Record RuleSet : Type := mkRuleSet {
  skipBranchNames : list string;
  skipBranchPatterns : list string;
  skipBranchPatternsRegex : list RegExp.regex
}.

(** [skipBranches.split(',').map(item => item.trim()).filter(item => item.length > 0)] *)
Definition exclusions (skipBranches : string) : list string :=
  List.filter (fun item => negb (String.eqb item EmptyString))
         (map Js.trim (Js.split_comma skipBranches)).

(** ['^' + item.replace(/\*/g, '.*') + '$'], line 88. *)
Definition patternSource (item : string) : string :=
  "^" +:+ Js.replace_star item +:+ "$".

(** The outcome of the loop: the rule set, the [SyntaxError] of the first
    entry the constructor refuses, or no verdict. *)
Inductive compiled : Type :=
| Rules (rules : RuleSet)
| InvalidPattern (source : string)
| NoVerdict.

(** The loop over the entries; the three arrays grow at their ends. *)
Fixpoint compileItems (items : list string) (acc : RuleSet) : compiled :=
  match items with
  | [] => Rules acc
  | item :: rest =>
      if Js.includes_star item then
        match RegExp.new (patternSource item) with
        | RegExp.Compiled re =>
            compileItems rest
              (mkRuleSet (skipBranchNames acc)
                         (skipBranchPatterns acc ++ [patternSource item])
                         (skipBranchPatternsRegex acc ++ [re]))
        | RegExp.SyntaxError => InvalidPattern (patternSource item)
        | RegExp.Unmodelled => NoVerdict
        end
      else
        compileItems rest
          (mkRuleSet (skipBranchNames acc ++ [item])
                     (skipBranchPatterns acc)
                     (skipBranchPatternsRegex acc))
  end.

Definition compileExclusions (skipBranches : string) : compiled :=
  compileItems (exclusions skipBranches) (mkRuleSet [] [] []).

(** Lines 171 to 183: a literal name first, then the patterns in order,
    stopping at the first that matches. *)
Definition isExcluded (rules : RuleSet) (name : string) : bool :=
  if Js.includes (skipBranchNames rules) name then true
  else existsb (fun pattern => RegExp.test pattern name)
               (skipBranchPatternsRegex rules).

(** ** Dates (lines 69, 70, 197 to 201)

    A [Date] is its time value in milliseconds; [None] is the invalid date,
    whose time value is [NaN].  The constructor clips to the range of valid
    time values.  The products and differences of lines 70 and 198 are
    taken in [Z]: as doubles they are exact up to 2^53, and a threshold
    further away than that is out of the range of dates in either
    arithmetic. *)

Definition Date : Type := option Z.

Definition maxTimeValue : Z := 8640000000000000.

(** [new Date(tv)] for an integral number [tv] *)
Definition newDate (tv : Z) : Date :=
  if Z.abs tv <=? maxTimeValue then Some tv else None.

(** [new Date(now.getTime() - staleDays * 24 * 60 * 60 * 1000)] *)
Definition staleThreshold (now staleDays : Z) : Date :=
  newDate (now - staleDays * 24 * 60 * 60 * 1000).

(** [a < b] on two dates: a comparison of numbers, false with [NaN]. *)
Definition dateLt (a b : Date) : bool :=
  match a, b with
  | Some x, Some y => x <? y
  | _, _ => false
  end.

(** [Math.floor((now - commitDate) / (1000 * 60 * 60 * 24))] *)
Definition daysSinceCommit (now : Z) (commitDate : Date) : option Z :=
  match commitDate with
  | Some c => Some ((now - c) / (1000 * 60 * 60 * 24))
  | None => None
  end.

(** Line 201, with the threshold of line 70. *)
Definition isStale (commitDate : Date) (now staleDays : Z) : bool :=
  dateLt commitDate (staleThreshold now staleDays).

(** ** The remote repository as the script sees it *)

Record Branch : Type := mkBranch {
  name : string;
  protected : bool;
  commit_sha : string
}.

Inductive PullState : Type := open | closed.

Record PullRequest : Type := mkPull {
  state : PullState;
  merged_at : option string
}.

(** [!pr.merged_at]: [null] and the empty string are falsy. *)
Definition notMerged (pr : PullRequest) : bool :=
  match merged_at pr with
  | None => true
  | Some s => String.eqb s EmptyString
  end.

Definition isOpen (pr : PullRequest) : bool :=
  match state pr with open => true | closed => false end.

Definition isClosed (pr : PullRequest) : bool :=
  match state pr with closed => true | open => false end.

Record Repository : Type := mkRepository {
  default_branch : string;
  private : bool;
  fork : bool
}.

(** The calls of the client, with the arguments the script passes. *)
Inductive Request : Type :=
| rateLimit_get
| repos_get (owner repo : string)
| repos_listBranches (owner repo : string)
| repos_getCommit (owner repo ref : string)
| pulls_list_open (owner repo head : string)
| pulls_list_all (owner repo head : string)
| repos_compareCommits (owner repo base head : string)
| git_deleteRef (owner repo ref : string).

(** What is thrown: [new Error(message)], a rejected call of the client, or
    the [SyntaxError] of the [RegExp] constructor for a pattern source.  Log
    lines and the failure message carry the error itself where the script
    prints [error.message]. *)
Inductive Exn : Type :=
| Error (message : string)
| RegExpSyntaxError (source : string).

(** The lines the script logs, by the place that writes them. *)
Inductive Message : Type :=
| RateLimitLow (remaining : Z)
| RateLimitCheckFailed (error : Exn)
| RateLimitStop (threshold : Z)
| CapReached (limit : Z)
| OriginalSkipBranches (value : string)
| ExcludedNamesHeader
| ExcludedNames (names : list string)
| ExcludedPatternsHeader
| ExcludedPatterns (sources : list string)
| Blank
| Started
| RepositoryIs (owner repo : string)
| EventIs (event : string)
| RepositoryInfoHeader
| DefaultBranchIs (b : string)
| PrivateIs (p : bool)
| ForkIs (f : bool)
| Pulling
| Found (n : nat)
| BranchName (n : string)
| SkipDefault
| SkipProtected
| SkipExcluded
| StaleBranch (days : option Z)
| SkipOpenPRs (n : nat)
| SkipUnmergedOpenPRs (ahead : Z) (base : string)
| IncludeClosedUnmerged (ahead : Z) (base : string)
| SkipUnmerged (ahead : Z) (base : string)
| DryRunWouldDelete
| Deleted
| ActiveBranch (days : option Z)
| ErrorContinuing (error : Exn)
| ErrorStopping
| Waiting (ms : Z)
| CleanupComplete
| EventNotSupported (event : string)
| DeletedCount (n : Z).

(** What the run does, in order: a call of the client, a log line, a pause
    of [ms] milliseconds, an output, the failure of the action. *)
Inductive Event : Type :=
| Api (r : Request)
| Info (m : Message)
| Warning (m : Message)
| Sleep (ms : Z)
| SetOutput (key : string) (value : list string)
| SetFailed (error : Exn).

Definition History : Type := list Event.

(** A call of the client resolves with a value or rejects with an error. *)
Inductive Response (A : Type) : Type :=
| Resolved (a : A)
| Rejected (message : string).
Arguments Resolved {A} a.
Arguments Rejected {A} message.

(** The client: each call is answered from the history of the run so far.
    [repos_getCommit] answers with the time value of
    [new Date(commit.commit.committer.date)], [rateLimit_get] with
    [data.resources.core.remaining], [repos_compareCommits] with [ahead_by];
    the two paginated calls answer with all pages. *)
Record Octokit : Type := mkOctokit {
  on_rateLimit_get : History -> Response Z;
  on_repos_get : History -> string -> string -> Response Repository;
  on_repos_listBranches : History -> string -> string -> Response (list Branch);
  on_repos_getCommit : History -> string -> string -> string -> Response Date;
  on_pulls_list_open : History -> string -> string -> string -> Response (list PullRequest);
  on_pulls_list_all : History -> string -> string -> string -> Response (list PullRequest);
  on_repos_compareCommits : History -> string -> string -> string -> string -> Response Z;
  on_git_deleteRef : History -> string -> string -> string -> Response unit
}.

(** ** State and control *)

(** The two module-level variables of lines 32 and 33, the counter of line
    140, and the trace. *)
Record State : Type := mkState {
  trace : History;
  outputDeletedBranches : list string;
  deletedCount : Z;
  processedCount : Z
}.

Definition initialState : State := mkState [] [] 0 0.

(** How a statement completes. *)
Inductive Completion (A : Type) : Type :=
| Normal (a : A)
| Continue
| Break
| Throw (e : Exn).
Arguments Normal {A} a.
Arguments Continue {A}.
Arguments Break {A}.
Arguments Throw {A} e.

Definition M (A : Type) : Type := State -> Completion A * State.

Definition ret {A} (a : A) : M A := fun st => (Normal a, st).

Definition bind {A B} (c : M A) (k : A -> M B) : M B :=
  fun st =>
    match c st with
    | (Normal a, st') => k a st'
    | (Continue, st') => (Continue, st')
    | (Break, st') => (Break, st')
    | (Throw e, st') => (Throw e, st')
    end.

Notation "x <- c ;; k" := (bind c (fun x => k))
  (at level 100, c at next level, right associativity).
Notation "c ;; k" := (bind c (fun _ => k))
  (at level 100, right associativity).

Definition continue {A} : M A := fun st => (Continue, st).
Definition break {A} : M A := fun st => (Break, st).
Definition throw {A} (e : Exn) : M A := fun st => (Throw e, st).

(** [try { body } catch (error) { handler }] *)
Definition tryCatch {A} (body : M A) (handler : Exn -> M A) : M A :=
  fun st =>
    match body st with
    | (Throw e, st') => handler e st'
    | r => r
    end.

Definition emit (e : Event) : M unit :=
  fun st =>
    (Normal tt,
     mkState (trace st ++ [e]) (outputDeletedBranches st) (deletedCount st)
             (processedCount st)).

Definition info (m : Message) : M unit := emit (Info m).
Definition warning (m : Message) : M unit := emit (Warning m).

(** [await] of a call of the client: the call is issued, then its answer
    either comes back or is thrown. *)
Definition await {A} (r : Request) (answer : History -> Response A) : M A :=
  fun st =>
    let st' := mkState (trace st ++ [Api r]) (outputDeletedBranches st)
                       (deletedCount st) (processedCount st) in
    match answer (trace st) with
    | Resolved a => (Normal a, st')
    | Rejected m => (Throw (Error m), st')
    end.

Definition getProcessedCount : M Z := fun st => (Normal (processedCount st), st).

(** [outputDeletedBranches.push(n); deletedCount++] *)
Definition recordDeletion (n : string) : M unit :=
  fun st =>
    (Normal tt,
     mkState (trace st) (outputDeletedBranches st ++ [n]) (deletedCount st + 1)
             (processedCount st)).

(** [processedCount++] *)
Definition countProcessed : M unit :=
  fun st =>
    (Normal tt,
     mkState (trace st) (outputDeletedBranches st) (deletedCount st)
             (processedCount st + 1)).

(** [let processedCount = 0] *)
Definition resetProcessed : M unit :=
  fun st =>
    (Normal tt,
     mkState (trace st) (outputDeletedBranches st) (deletedCount st) 0).

(** ** The pass over the branches (lines 142 to 292) *)

(** What the loop has in scope. *)
Record Config : Type := mkConfig {
  staleDays : Z;
  skipUmerged : bool;
  skipOpenPRs : bool;
  includeClosedPRs : bool;
  maxBranchesToDelete : Z;
  processThrottleMs : Z;
  rateLimitThreshold : Z;
  continueOnErrors : bool;
  dryRun : bool;
  now : Z;
  rules : RuleSet;
  owner : string;
  repo : string;
  defaultBranch : string
}.

Section Pipeline.

Variable octokit : Octokit.
Variable cfg : Config.

(** Lines 4 to 22. *)
Definition isSafeToProceedWithApiCalls (threshold : Z) : M bool :=
  tryCatch
    (remaining <- await rateLimit_get (on_rateLimit_get octokit) ;;
     if remaining <? threshold
     then warning (RateLimitLow remaining) ;; ret false
     else ret true)
    (fun error =>
       warning (RateLimitCheckFailed error) ;; ret true).

Definition headOf (b : Branch) : string := owner cfg +:+ ":" +:+ name b.
Definition refOf (b : Branch) : string := "heads/" +:+ name b.

(** Lines 206 to 217. *)
Definition checkOpenPRs (b : Branch) : M unit :=
  if skipOpenPRs cfg then
    pullRequests <- await (pulls_list_open (owner cfg) (repo cfg) (headOf b))
                      (fun h => on_pulls_list_open octokit h (owner cfg) (repo cfg) (headOf b)) ;;
    if (0 <? length pullRequests)%nat
    then info (SkipOpenPRs (length pullRequests)) ;; continue
    else ret tt
  else ret tt.

(** Lines 220 to 257. *)
Definition checkUnmerged (b : Branch) : M unit :=
  if skipUmerged cfg then
    ahead_by <- await (repos_compareCommits (owner cfg) (repo cfg) (defaultBranch cfg) (name b))
                  (fun h => on_repos_compareCommits octokit h (owner cfg) (repo cfg)
                              (defaultBranch cfg) (name b)) ;;
    if 0 <? ahead_by then
      if includeClosedPRs cfg then
        prs <- await (pulls_list_all (owner cfg) (repo cfg) (headOf b))
                 (fun h => on_pulls_list_all octokit h (owner cfg) (repo cfg) (headOf b)) ;;
        let hasOpenPRs := existsb isOpen prs in
        let hasClosedUnmergedPRs := existsb (fun pr => isClosed pr && notMerged pr) prs in
        if hasOpenPRs then
          info (SkipUnmergedOpenPRs ahead_by (defaultBranch cfg)) ;; continue
        else if hasClosedUnmergedPRs then
          info (IncludeClosedUnmerged ahead_by (defaultBranch cfg))
        else
          info (SkipUnmerged ahead_by (defaultBranch cfg)) ;; continue
      else
        info (SkipUnmerged ahead_by (defaultBranch cfg)) ;; continue
    else ret tt
  else ret tt.

(** Lines 261 to 273. *)
Definition deleteOrReport (b : Branch) : M unit :=
  (if dryRun cfg then info DryRunWouldDelete
   else
     await (git_deleteRef (owner cfg) (repo cfg) (refOf b))
       (fun h => on_git_deleteRef octokit h (owner cfg) (repo cfg) (refOf b)) ;;
     info Deleted ;;
     recordDeletion (name b)) ;;
  countProcessed.

(** Lines 190 to 285: the [try] block and its handler. *)
Definition examine (b : Branch) : M unit :=
  tryCatch
    (commitDate <- await (repos_getCommit (owner cfg) (repo cfg) (commit_sha b))
                     (fun h => on_repos_getCommit octokit h (owner cfg) (repo cfg) (commit_sha b)) ;;
     let days := daysSinceCommit (now cfg) commitDate in
     if isStale commitDate (now cfg) (staleDays cfg) then
       info (StaleBranch days) ;;
       checkOpenPRs b ;;
       checkUnmerged b ;;
       deleteOrReport b
     else
       info (ActiveBranch days))
    (fun error =>
       if continueOnErrors cfg
       then warning (ErrorContinuing error) ;; continue
       else warning ErrorStopping ;; throw error).

(** Lines 287 to 291: the pause is the one the timer of line 290 makes of
    [processThrottleMs]. *)
Definition throttle : M unit :=
  if 0 <? processThrottleMs cfg
  then info (Waiting (processThrottleMs cfg)) ;;
       emit (Sleep (Js.timerDelay (processThrottleMs cfg)))
  else ret tt.

(** The body of the [for] loop, lines 143 to 291. *)
Definition processBranch (b : Branch) : M unit :=
  canProceed <- isSafeToProceedWithApiCalls (rateLimitThreshold cfg) ;;
  if negb canProceed then
    warning (RateLimitStop (rateLimitThreshold cfg)) ;;
    throw (Error "API rate limit exceeded threshold")
  else
    count <- getProcessedCount ;;
    if maxBranchesToDelete cfg <=? count then
      warning (CapReached (maxBranchesToDelete cfg)) ;; break
    else
      info (BranchName (name b)) ;;
      if String.eqb (name b) (defaultBranch cfg) then info SkipDefault ;; continue
      else if protected b then info SkipProtected ;; continue
      else if isExcluded (rules cfg) (name b) then info SkipExcluded ;; continue
      else
        examine b ;;
        throttle.

(** The iterations in order; [continue] goes on with the next branch and
    [break] or a throw leaves. *)
Fixpoint iterate (branches : list Branch) : M unit :=
  match branches with
  | [] => ret tt
  | b :: rest =>
      fun st =>
        match processBranch b st with
        | (Normal _, st') => iterate rest st'
        | (Continue, st') => iterate rest st'
        | (Break, st') => (Break, st')
        | (Throw e, st') => (Throw e, st')
        end
  end.

(** [for (const branch of branches) { ... }] *)
Definition processBranches (branches : list Branch) : M unit :=
  fun st =>
    match iterate branches st with
    | (Break, st') => (Normal tt, st')
    | r => r
    end.

End Pipeline.

(** ** The script (lines 35 to 306) *)

Record Context : Type := mkContext {
  repo_owner : string;
  repo_repo : string;
  eventName : string
}.

(** [if (isNaN(v) || !(ok v)) throw new Error(message)] *)
Definition validated {A} (v : option Z) (ok : Z -> bool) (message : string)
    (k : Z -> M A) : M A :=
  match v with
  | Some n => if ok n then k n else throw (Error message)
  | None => throw (Error message)
  end.

(** Lines 298 and 299. *)
Definition setOutputs : M unit :=
  fun st =>
    (emit (SetOutput "deleted-branches" (outputDeletedBranches st)) ;;
     info (DeletedCount (deletedCount st))) st.

Section Script.

(** [core.getInput], [github.context], the clock read by [new Date()] and
    the client. *)
Variable getInput : string -> string.
Variable context : Context.
Variable clock : Z.
Variable octokit : Octokit.

(** The [try] block, lines 36 to 299, given what compiling the exclusion
    list gives. *)
Definition body (compiledRules : Exn + RuleSet) : M unit :=
  let staleDays := Js.parseInt (getInput "stale-days") in
  let skipBranches := getInput "skip-branches" in
  let skipUmerged := negb (String.eqb (getInput "skip-unmerged") "false") in
  let skipOpenPRs := negb (String.eqb (getInput "skip-open-prs") "false") in
  let includeClosedPRs :=
    negb (String.eqb (getInput "include-unmerged-and-closed-prs") "false") in
  let maxBranchesToDelete := Js.parseInt (getInput "max-branches-to-delete") in
  let processThrottleMs := Js.parseInt (getInput "process-throttle-ms") in
  let rateLimitThreshold := Js.parseInt (getInput "rate-limit-threshold") in
  let continueOnErrors := String.eqb (getInput "continue-on-errors") "true" in
  let dryRun := String.eqb (getInput "dry-run") "true" in
  validated staleDays (fun n => negb (n <? 0))
    "Invalid input: stale-days must be a non-negative integer" (fun staleDays =>
  validated maxBranchesToDelete (fun n => negb (n <=? 0))
    "Invalid input: max-branches-to-delete must be a positive integer" (fun maxBranchesToDelete =>
  validated processThrottleMs (fun n => negb (n <? 0))
    "Invalid input: process-throttle-ms must be a non-negative integer" (fun processThrottleMs =>
  validated rateLimitThreshold (fun n => negb (n <? 0))
    "Invalid input: rate-limit-threshold must be a non-negative integer" (fun rateLimitThreshold =>
  info (OriginalSkipBranches skipBranches) ;;
  match compiledRules with
  | inl syntaxError => throw syntaxError
  | inr rules =>
      info ExcludedNamesHeader ;;
      info (ExcludedNames (skipBranchNames rules)) ;;
      info ExcludedPatternsHeader ;;
      info (ExcludedPatterns (skipBranchPatterns rules)) ;;
      info Blank ;;
      info Started ;;
      info (RepositoryIs (repo_owner context) (repo_repo context)) ;;
      info (EventIs (eventName context)) ;;
      repo <- await (repos_get (repo_owner context) (repo_repo context))
                (fun h => on_repos_get octokit h (repo_owner context) (repo_repo context)) ;;
      let defaultBranch := default_branch repo in
      info RepositoryInfoHeader ;;
      info (DefaultBranchIs (default_branch repo)) ;;
      info (PrivateIs (private repo)) ;;
      info (ForkIs (fork repo)) ;;
      info Blank ;;
      (if String.eqb (eventName context) "workflow_dispatch"
          || String.eqb (eventName context) "schedule"
       then
         info Pulling ;;
         branches <- await (repos_listBranches (repo_owner context) (repo_repo context))
                       (fun h => on_repos_listBranches octokit h
                                   (repo_owner context) (repo_repo context)) ;;
         info (Found (length branches)) ;;
         info Blank ;;
         resetProcessed ;;
         processBranches octokit
           (mkConfig staleDays skipUmerged skipOpenPRs includeClosedPRs
              maxBranchesToDelete processThrottleMs rateLimitThreshold
              continueOnErrors dryRun clock rules
              (repo_owner context) (repo_repo context) defaultBranch)
           branches ;;
         info CleanupComplete
       else
         info (EventNotSupported (eventName context))) ;;
      setOutputs
  end)))).

(** The handler of lines 300 to 306; [deletedCount] is a number, never
    [NaN], so the outputs are always set. *)
Definition handler (error : Exn) : M unit :=
  setOutputs ;;
  emit (SetFailed error).

(** The whole script, from the state in which the module is loaded.  There
    is no result when an exclusion entry is outside the modelled pattern
    language. *)
Definition main : option State :=
  match compileExclusions (getInput "skip-branches") with
  | Rules rules =>
      Some (snd (tryCatch (body (inr rules)) handler initialState))
  | InvalidPattern source =>
      Some (snd (tryCatch (body (inl (RegExpSyntaxError source))) handler initialState))
  | NoVerdict => None
  end.

End Script.

(** ** Reading a trace *)

(** The refs whose deletion the client confirmed: the [git_deleteRef] calls
    of a stretch of trace that resolved, given the history before it. *)
Definition resolvedAt (octokit : Octokit) (past : History) (e : Event) : list string :=
  match e with
  | Api (git_deleteRef o r ref) =>
      match on_git_deleteRef octokit past o r ref with
      | Resolved _ => [ref]
      | Rejected _ => []
      end
  | _ => []
  end.

Fixpoint resolvedFrom (octokit : Octokit) (past : History) (evs : History) : list string :=
  match evs with
  | [] => []
  | e :: rest => resolvedAt octokit past e ++ resolvedFrom octokit (past ++ [e]) rest
  end.

Definition resolvedDeletes (octokit : Octokit) (tr : History) : list string :=
  resolvedFrom octokit [] tr.

Definition isDeleteCall (e : Event) : bool :=
  match e with Api (git_deleteRef _ _ _) => true | _ => false end.

Definition isWouldDelete (e : Event) : bool :=
  match e with Info DryRunWouldDelete => true | _ => false end.

Definition isRateLimitStop (e : Event) : bool :=
  match e with Warning (RateLimitStop _) => true | _ => false end.

Definition isSleep (e : Event) : bool :=
  match e with Sleep _ => true | _ => false end.

(** The branches whose iteration got past the guard and the cap: line 156
    logs their names. *)
Definition reachedName (e : Event) : list string :=
  match e with Info (BranchName n) => [n] | _ => [] end.

Definition reached (evs : History) : list string := flat_map reachedName evs.

Definition countWouldDelete (evs : History) : Z :=
  Z.of_nat (length (List.filter isWouldDelete evs)).

Definition headsRef (n : string) : string := "heads/" +:+ n.

Definition rateLimitError : Exn := Error "API rate limit exceeded threshold".

(** ** Notions used in the statements

    What follows names what the lemmas and theorems speak about: stretches
    of a run and what they do to the outputs, the answers of the client,
    and the decisions for one branch. *)

(** An event that touches none of what the claims count: no deletion, no
    would-delete line, no name of a reached branch, no rate-limit stop. *)
Definition neutral (e : Event) : bool :=
  negb (isDeleteCall e) && negb (isWouldDelete e) && negb (isRateLimitStop e)
  && match reachedName e with [] => true | _ => false end.

(** A stretch of the run that only adds neutral events. *)
Definition Quiet (st st' : State) : Prop :=
  exists ev,
    trace st' = trace st ++ ev
    /\ forallb neutral ev = true
    /\ outputDeletedBranches st' = outputDeletedBranches st
    /\ deletedCount st' = deletedCount st
    /\ processedCount st' = processedCount st.

Definition quiet {A} (c : M A) : Prop :=
  forall st r st', c st = (r, st') -> Quiet st st'.

(** What a stretch [ev] of the run did to the outputs: the names added are
    those of the deletions the client confirmed in that stretch, and the
    two counters moved accordingly. *)
Record Delta (octokit : Octokit) (st st' : State) (ev : History)
    (added : list string) : Prop := mkDelta {
  d_trace : trace st' = trace st ++ ev;
  d_out : outputDeletedBranches st' = outputDeletedBranches st ++ added;
  d_res : map headsRef added = resolvedFrom octokit (trace st) ev;
  d_deleted : deletedCount st' = deletedCount st + Z.of_nat (length added);
  d_processed :
    processedCount st' =
    processedCount st + Z.of_nat (length added) + countWouldDelete ev
}.

(** In a dry run no deletion is called; otherwise nothing is reported as
    would-delete. *)
Definition Mode (cfg : Config) (ev : History) : Prop :=
  (dryRun cfg = true -> forallb (fun e => negb (isDeleteCall e)) ev = true)
  /\ (dryRun cfg = false -> countWouldDelete ev = 0).

(** No stop of the rate-limit guard and no branch name in the stretch. *)
Definition benign (e : Event) : bool :=
  negb (isRateLimitStop e) && match reachedName e with [] => true | _ => false end.

Section PassNotions.

Variable octokit : Octokit.
Variable cfg : Config.

(** What examining one branch can do: at most the deletion of that branch
    or one would-delete report, and the counter stays within the cap when
    it was below it. *)
Definition Step (b : Branch) (st : State) (st' : State) : Prop :=
  exists ev added,
    Delta octokit st st' ev added
    /\ Mode cfg ev
    /\ forallb benign ev = true
    /\ added `sublist_of` [name b]
    /\ (processedCount st < maxBranchesToDelete cfg ->
        processedCount st' <= maxBranchesToDelete cfg).

Definition stepping {A} (b : Branch) (c : M A) : Prop :=
  forall st r st', c st = (r, st') -> Step b st st'.

(** What a stretch of the pass over the branches [names] does. *)
Definition Effect (names : list string) (st : State) (r : Completion unit)
    (st' : State) : Prop :=
  exists ev added,
    Delta octokit st st' ev added
    /\ Mode cfg ev
    /\ added `sublist_of` reached ev
    /\ reached ev `sublist_of` names
    /\ (existsb isRateLimitStop ev = true -> r = Throw rateLimitError)
    /\ (processedCount st <= maxBranchesToDelete cfg ->
        processedCount st' <= maxBranchesToDelete cfg).

End PassNotions.

(** What a stretch of the script does to the outputs; the counter of the
    loop is not part of it. *)
Definition MainEffect (octokit : Octokit) (st : State) (r : Completion unit)
    (st' : State) : Prop :=
  exists ev added,
    trace st' = trace st ++ ev
    /\ outputDeletedBranches st' = outputDeletedBranches st ++ added
    /\ map headsRef added = resolvedFrom octokit (trace st) ev
    /\ deletedCount st' = deletedCount st + Z.of_nat (length added)
    /\ added `sublist_of` reached ev
    /\ (existsb isRateLimitStop ev = true -> r = Throw rateLimitError).

Definition maineff (octokit : Octokit) (c : M unit) : Prop :=
  forall st r st', c st = (r, st') -> MainEffect octokit st r st'.

(** The last two events of a stretch that completes normally are the
    output and the count. *)
Definition Reported (st : State) : Prop :=
  exists tr,
    trace st =
    tr ++ [SetOutput "deleted-branches" (outputDeletedBranches st);
           Info (DeletedCount (deletedCount st))].

Definition reports {A} (c : M A) : Prop :=
  forall st a st', c st = (Normal a, st') -> Reported st'.

(** Neither [continue] nor [break] leaves the command. *)
Definition settled {A} (r : Completion A) : Prop :=
  match r with
  | Normal _ | Throw _ => True
  | Continue | Break => False
  end.

Definition proper {A} (c : M A) : Prop :=
  forall st r st', c st = (r, st') -> settled r.

(** How a run ends: with the outputs of a normal end, or with the outputs
    followed by the failure. *)
Definition EndsReported (st : State) : Prop :=
  (exists tr,
     trace st =
     tr ++ [SetOutput "deleted-branches" (outputDeletedBranches st);
            Info (DeletedCount (deletedCount st))]
     /\ existsb isRateLimitStop (trace st) = false)
  \/ (exists tr e,
        trace st =
        tr ++ [SetOutput "deleted-branches" (outputDeletedBranches st);
               Info (DeletedCount (deletedCount st));
               SetFailed e]
        /\ (existsb isRateLimitStop (trace st) = true -> e = rateLimitError)).

(** The count is the length of the list, and the list holds, in order, the
    names whose [heads/] ref the client confirmed as deleted. *)
Definition CountMatchesList (octokit : Octokit) (st : State) : Prop :=
  deletedCount st = Z.of_nat (length (outputDeletedBranches st))
  /\ map headsRef (outputDeletedBranches st) = resolvedDeletes octokit (trace st).

(** A stretch of the run without a pause. *)
Definition Unpaused (st st' : State) : Prop :=
  exists ev, trace st' = trace st ++ ev /\ existsb isSleep ev = false.

Definition unpaused {A} (c : M A) : Prop :=
  forall st r st', c st = (r, st') -> Unpaused st st'.

(** The same, for the runs of a command that do not complete normally. *)
Definition unpausedUnlessNormal {A} (c : M A) : Prop :=
  forall st r st', c st = (r, st') -> (forall a, r <> Normal a) -> Unpaused st st'.

(** Whether the iteration for a branch, started from a given state, pauses. *)
Definition pauses (octokit : Octokit) (cfg : Config) (st : State) (b : Branch) : bool :=
  existsb isSleep (trace (snd (processBranch octokit cfg b st))).

(** *** Dates and exclusion entries *)

Definition msPerDay : Z := 86400000.

Definition validTime (t : Z) : Prop := - maxTimeValue <= t <= maxTimeValue.

(** The matching the specification describes, in its words: an entry
    matches a name when the name is the entry with each [*] replaced by
    zero or more arbitrary characters; every other character of the entry
    stands for itself, and the whole name has to be covered. *)
Fixpoint specMatches (entry name : string) : bool :=
  match entry with
  | EmptyString =>
      match name with EmptyString => true | String _ _ => false end
  | String c entry' =>
      if Ascii.eqb c "*"%char then
        (fix skip (n : string) : bool :=
           specMatches entry' n
           || match n with
              | String _ n' => skip n'
              | EmptyString => false
              end) name
      else
        match name with
        | String d name' => Ascii.eqb c d && specMatches entry' name'
        | EmptyString => false
        end
  end.

(** Whether a name is excluded by a [skip-branches] text, when that text
    compiles. *)
Definition excludes (skipBranches name : string) : option bool :=
  match compileExclusions skipBranches with
  | Rules rules => Some (isExcluded rules name)
  | InvalidPattern _ => None
  | NoVerdict => None
  end.

(** An entry whose characters other than [*] are not pattern syntax. *)
Fixpoint plainEntry (entry : string) : bool :=
  match entry with
  | EmptyString => true
  | String c entry' =>
      (Ascii.eqb c "*"%char || negb (RegExp.isSyntaxCharacter c)) && plainEntry entry'
  end.

Fixpoint noLineTerminator (s : string) : bool :=
  match s with
  | EmptyString => true
  | String c s' => negb (Js.isLineTerminator c) && noLineTerminator s'
  end.

(** The terms an entry compiles to, in order. *)
Fixpoint termsOf (entry : string) : list RegExp.regex :=
  match entry with
  | EmptyString => []
  | String c entry' =>
      (if Ascii.eqb c "*"%char then RegExp.Star RegExp.Dot else RegExp.Char c)
      :: termsOf entry'
  end.

Definition kindOf (r : RegExp.regex) : RegExp.termKind :=
  match r with
  | RegExp.Star _ => RegExp.Quantified
  | _ => RegExp.Atom
  end.

Definition sequence (rs : list RegExp.regex) (last : RegExp.regex) : RegExp.regex :=
  fold_right RegExp.Cat last rs.

(** Some suffix of [s] satisfies [k]. *)
Fixpoint anySuffix (k : string -> bool) (s : string) : bool :=
  k s || match s with
         | String _ s' => anySuffix k s'
         | EmptyString => false
         end.

(** *** Decisions for one branch *)

(** The client always answers a call, with a value that satisfies [P]. *)
Definition answers {A} (answer : History -> Response A) (P : A -> Prop) : Prop :=
  forall h, exists a, answer h = Resolved a /\ P a.

Definition isSkipLine (e : Event) : bool :=
  match e with
  | Info (SkipOpenPRs _) | Info (SkipUnmergedOpenPRs _ _) | Info (SkipUnmerged _ _) => true
  | _ => false
  end.

Section DecisionNotions.

Variable octokit : Octokit.
Variable cfg : Config.
Variable b : Branch.

(** The branch is none of the three kinds that are skipped unseen. *)
Definition Eligible : Prop :=
  String.eqb (name b) (defaultBranch cfg) = false
  /\ protected b = false
  /\ isExcluded (rules cfg) (name b) = false.

(** The guard lets the iteration that starts in [st] through: the quota it
    reads is not below the threshold, or the reading fails. *)
Definition GuardPasses (st : State) : Prop :=
  match on_rateLimit_get octokit (trace st) with
  | Resolved n => (n <? rateLimitThreshold cfg) = false
  | Rejected _ => True
  end.

(** The last commit of the branch is older than the threshold. *)
Definition StaleCommit : Prop :=
  answers (fun h => on_repos_getCommit octokit h (owner cfg) (repo cfg) (commit_sha b))
          (fun d => isStale d (now cfg) (staleDays cfg) = true).

Definition OpenListing (P : list PullRequest -> Prop) : Prop :=
  answers (fun h => on_pulls_list_open octokit h (owner cfg) (repo cfg) (headOf cfg b)) P.

Definition AllListing (P : list PullRequest -> Prop) : Prop :=
  answers (fun h => on_pulls_list_all octokit h (owner cfg) (repo cfg) (headOf cfg b)) P.

(** The branch is the head of an open pull request: both listings show
    one. *)
Definition HasOpenPull : Prop :=
  OpenListing (fun prs => (0 <? length prs)%nat = true)
  /\ AllListing (fun prs => existsb isOpen prs = true).

Definition NoOpenPull : Prop :=
  OpenListing (fun prs => (0 <? length prs)%nat = false)
  /\ AllListing (fun prs => existsb isOpen prs = false).

Definition HasClosedUnmergedPull : Prop :=
  AllListing (fun prs => existsb (fun pr => isClosed pr && notMerged pr) prs = true).

Definition AheadBy (P : Z -> Prop) : Prop :=
  answers (fun h => on_repos_compareCommits octokit h (owner cfg) (repo cfg)
                      (defaultBranch cfg) (name b)) P.

Definition DeleteSucceeds : Prop :=
  answers (fun h => on_git_deleteRef octokit h (owner cfg) (repo cfg) (refOf b))
          (fun _ => True).

(** The iteration skips the branch: it ends with [continue], has called no
    deletion and has left the outputs and the counter as they were. *)
Definition Skipped (st : State) (line : Event -> bool) : Prop :=
  exists st' ev,
    processBranch octokit cfg b st = (Continue, st')
    /\ trace st' = trace st ++ ev
    /\ forallb (fun e => negb (isDeleteCall e)) ev = true
    /\ existsb line ev = true
    /\ outputDeletedBranches st' = outputDeletedBranches st
    /\ deletedCount st' = deletedCount st
    /\ processedCount st' = processedCount st.

(** The iteration deletes the branch: the delete-ref call is issued, the
    name is appended to the list and both counters go up by one. *)
Definition DeletedNow (st : State) : Prop :=
  exists st' ev,
    processBranch octokit cfg b st = (Normal tt, st')
    /\ trace st' = trace st ++ ev
    /\ In (Api (git_deleteRef (owner cfg) (repo cfg) (refOf b))) ev
    /\ outputDeletedBranches st' = outputDeletedBranches st ++ [name b]
    /\ deletedCount st' = deletedCount st + 1
    /\ processedCount st' = processedCount st + 1.

(** In a dry run the iteration reports the branch and counts it. *)
Definition WouldDelete (st : State) : Prop :=
  exists st' ev,
    processBranch octokit cfg b st = (Normal tt, st')
    /\ trace st' = trace st ++ ev
    /\ In (Info DryRunWouldDelete) ev
    /\ forallb (fun e => negb (isDeleteCall e)) ev = true
    /\ outputDeletedBranches st' = outputDeletedBranches st
    /\ deletedCount st' = deletedCount st
    /\ processedCount st' = processedCount st + 1.

End DecisionNotions.

(** *** Inputs and repositories for concrete runs *)

(** Inputs of a run: the defaults of the action with a given exclusion
    list, throttle and dry-run flag. *)
Definition inputsWith (skipBranches throttleMs dryRunFlag : string) (key : string) : string :=
  if String.eqb key "stale-days" then "90"
  else if String.eqb key "skip-branches" then skipBranches
  else if String.eqb key "skip-unmerged" then "true"
  else if String.eqb key "skip-open-prs" then "true"
  else if String.eqb key "include-unmerged-and-closed-prs" then "true"
  else if String.eqb key "max-branches-to-delete" then "500"
  else if String.eqb key "process-throttle-ms" then throttleMs
  else if String.eqb key "rate-limit-threshold" then "100"
  else if String.eqb key "continue-on-errors" then "false"
  else if String.eqb key "dry-run" then dryRunFlag
  else EmptyString.

Definition defaultSkipBranches : string :=
  "main,master,develop,development,staging,production,keep-alive-*".

(** A client that answers every branch alike. *)
Definition uniformClient (commitDate : Date) (openPulls allPulls : list PullRequest)
    (ahead : Z) : Octokit :=
  mkOctokit
    (fun _ => Resolved 5000)
    (fun _ _ _ => Resolved (mkRepository "main" false false))
    (fun _ _ _ => Resolved [])
    (fun _ _ _ _ => Resolved commitDate)
    (fun _ _ _ _ => Resolved openPulls)
    (fun _ _ _ _ => Resolved allPulls)
    (fun _ _ _ _ _ => Resolved ahead)
    (fun _ _ _ _ => Resolved tt).

(** ** A repository to run the script on

    The default branch, a protected branch, a branch kept by the exclusion
    list, a branch with a recent commit, a stale branch with an open pull
    request, a stale branch with unmerged commits and no pull request, and
    three stale branches that are merged. *)
Module Demo.

Definition clock : Z := 1700000000000.
Definition longAgo : Z := 1600000000000.

Definition main_ : Branch := mkBranch "main" false "c0".
Definition prod : Branch := mkBranch "prod" true "c1".
Definition kept : Branch := mkBranch "keep-alive-1" false "c2".
Definition fresh : Branch := mkBranch "fresh" false "c3".
Definition wip : Branch := mkBranch "wip" false "c4".
Definition spike : Branch := mkBranch "spike" false "c5".
Definition old : Branch := mkBranch "old" false "c6".
Definition older : Branch := mkBranch "older" false "c7".
Definition oldest : Branch := mkBranch "oldest" false "c8".

Definition branches : list Branch :=
  [main_; prod; kept; fresh; wip; spike; old; older; oldest].

Definition commitDateOf (sha : string) : Date :=
  if String.eqb sha "c3" then Some (clock - msPerDay) else Some longAgo.

Definition openPullsOf (head : string) : list PullRequest :=
  if String.eqb head "octo:wip" then [mkPull open None] else [].

Definition aheadOf (head : string) : Z :=
  if String.eqb head "wip" then 2
  else if String.eqb head "spike" then 3
  else 0.

(** The client, with the remaining quota as a parameter. *)
Definition client (remaining : History -> Z) : Octokit :=
  mkOctokit
    (fun h => Resolved (remaining h))
    (fun _ _ _ => Resolved (mkRepository "main" false false))
    (fun _ _ _ => Resolved branches)
    (fun _ _ _ sha => Resolved (commitDateOf sha))
    (fun _ _ _ head => Resolved (openPullsOf head))
    (fun _ _ _ head => Resolved (openPullsOf head))
    (fun _ _ _ _ head => Resolved (aheadOf head))
    (fun _ _ _ _ => Resolved tt).

Definition world : Octokit := client (fun _ => 5000).

(** The quota runs out once two deletions have been called. *)
Definition quotaAfterTwoDeletions (h : History) : Z :=
  if (2 <=? length (List.filter isDeleteCall h))%nat then 50 else 5000.

Definition tightWorld : Octokit := client quotaAfterTwoDeletions.

Definition context : Context := mkContext "octo" "demo" "schedule".

Definition defaultRules : RuleSet :=
  match compileExclusions defaultSkipBranches with
  | Rules rules => rules
  | _ => mkRuleSet [] [] []
  end.

(** The defaults of the action, with a throttle and a dry-run flag. *)
Definition config (throttleMs : Z) (dry : bool) : Config :=
  mkConfig 90 true true true 500 throttleMs 100 false dry clock defaultRules
           "octo" "demo" "main".

(** A dry run with a cap of two branches. *)
Definition cappedDryRun : Config :=
  mkConfig 90 true true true 2 0 100 false true clock defaultRules
           "octo" "demo" "main".

End Demo.

(** A branch abandoned after its pull request was closed without a merge. *)
Definition abandoned : Branch := mkBranch "abandoned" false "c9".

Definition abandonedWorld : Octokit :=
  uniformClient (Some Demo.longAgo) [] [mkPull closed None] 3.

(** ** Further notions

    What the remaining statements speak about: the text of the inputs, the
    calls a stretch of the run has been answered, the events it may hold,
    the ways a pass ends, and the run as a whole. *)

(** *** Text of the inputs *)

(** [s.includes(x)] for a character [x]. *)
Fixpoint includesChar (x : ascii) (s : string) : bool :=
  match s with
  | EmptyString => false
  | String c s' => Ascii.eqb c x || includesChar x s'
  end.

(** The text starts, or ends, with white space. *)
Definition startsBlank (s : string) : bool :=
  match s with
  | String c _ => Js.isWhiteSpace c
  | EmptyString => false
  end.

Fixpoint endsBlank (s : string) : bool :=
  match s with
  | EmptyString => false
  | String c EmptyString => Js.isWhiteSpace c
  | String _ s' => endsBlank s'
  end.

(** The pattern a wildcard entry stands for when its characters other than
    [*] are plain: the terms of the entry between the two anchors. *)
Definition wildcardRegex (entry : string) : RegExp.regex :=
  RegExp.Cat RegExp.Bol (sequence (termsOf entry) (RegExp.Cat RegExp.Eol RegExp.Empty)).

(** A list whose wildcard entries are plain. *)
Definition plainList (items : list string) : bool :=
  forallb (fun item => negb (Js.includes_star item) || plainEntry item) items.

(** What lines 55 to 66 refuse in a numeric input: [NaN], or a number below
    the bound; and what they accept. *)
Definition refused (bound : Z) (v : option Z) : Prop :=
  match v with Some n => n < bound | None => True end.

Definition accepted (bound : Z) (v : option Z) : Prop :=
  match v with Some n => bound <= n | None => False end.

(** *** Stretches of a run and the answers of the client *)

(** The state once a stretch of events is added to the trace. *)
Definition after (st : State) (ev : History) : State :=
  mkState (trace st ++ ev) (outputDeletedBranches st) (deletedCount st)
          (processedCount st).

(** During the stretch from [st] to [st'] the call [rq] was issued, and the
    client answered it with a value that satisfies [P]. *)
Definition Answered {A} (st st' : State) (rq : Request)
    (answer : History -> Response A) (P : A -> Prop) : Prop :=
  exists h rest a,
    trace st' = h ++ Api rq :: rest
    /\ (length (trace st) <= length h)%nat
    /\ answer h = Resolved a
    /\ P a.

Section JustifiedNotions.

Variable octokit : Octokit.
Variable cfg : Config.
Variable b : Branch.

Definition CommitAnswered (st st' : State) (P : Date -> Prop) : Prop :=
  Answered st st' (repos_getCommit (owner cfg) (repo cfg) (commit_sha b))
    (fun h => on_repos_getCommit octokit h (owner cfg) (repo cfg) (commit_sha b)) P.

Definition OpenPullsAnswered (st st' : State) (P : list PullRequest -> Prop) : Prop :=
  Answered st st' (pulls_list_open (owner cfg) (repo cfg) (headOf cfg b))
    (fun h => on_pulls_list_open octokit h (owner cfg) (repo cfg) (headOf cfg b)) P.

Definition AllPullsAnswered (st st' : State) (P : list PullRequest -> Prop) : Prop :=
  Answered st st' (pulls_list_all (owner cfg) (repo cfg) (headOf cfg b))
    (fun h => on_pulls_list_all octokit h (owner cfg) (repo cfg) (headOf cfg b)) P.

Definition CompareAnswered (st st' : State) (P : Z -> Prop) : Prop :=
  Answered st st' (repos_compareCommits (owner cfg) (repo cfg) (defaultBranch cfg) (name b))
    (fun h => on_repos_compareCommits octokit h (owner cfg) (repo cfg)
                (defaultBranch cfg) (name b)) P.

(** What the checks of lines 220 to 257 have seen when they let a branch
    through: nothing ahead of the default branch, or commits ahead and a
    listing of its pull requests with none open and one closed unmerged. *)
Definition MergedOrAbandoned (st st' : State) : Prop :=
  CompareAnswered st st' (fun ahead => ahead <= 0)
  \/ (includeClosedPRs cfg = true
      /\ CompareAnswered st st' (fun ahead => 0 < ahead)
      /\ AllPullsAnswered st st'
           (fun prs => existsb isOpen prs = false
                       /\ existsb (fun pr => isClosed pr && notMerged pr) prs = true)).

(** What the stretch from [st] to [st'] has established about the branch
    by the time it gets to the deletion step. *)
Definition Justified (st st' : State) : Prop :=
  Eligible cfg b
  /\ CommitAnswered st st' (fun d => isStale d (now cfg) (staleDays cfg) = true)
  /\ (skipOpenPRs cfg = true -> OpenPullsAnswered st st' (fun prs => prs = []))
  /\ (skipUmerged cfg = true -> MergedOrAbandoned st st').

End JustifiedNotions.

(** The stretch gets to the deletion step: it calls delete-ref or reports
    a would-delete. *)
Definition atDeletionStep (e : Event) : bool := isDeleteCall e || isWouldDelete e.

(** The only delete-ref call an iteration for [b] may issue: the ref of
    [b] in the repository of the run, and not in a dry run. *)
Definition deletesOnly (cfg : Config) (b : Branch) (e : Event) : bool :=
  match e with
  | Api (git_deleteRef o rp ref) =>
      String.eqb o (owner cfg) && String.eqb rp (repo cfg)
      && String.eqb ref (refOf b) && negb (dryRun cfg)
  | _ => true
  end.

(** A stretch of the run whose events all satisfy [P]. *)
Definition Emits (P : Event -> bool) (st st' : State) : Prop :=
  exists ev, trace st' = trace st ++ ev /\ forallb P ev = true.

Definition emits {A} (P : Event -> bool) (c : M A) : Prop :=
  forall st r st', c st = (r, st') -> Emits P st st'.

(** A pause is made only with a positive throttle, and it is as long as
    the throttle says up to 2^31 - 1 milliseconds, and 1 millisecond long
    with a throttle above that. *)
Definition pauseAsConfigured (cfg : Config) (e : Event) : bool :=
  match e with
  | Sleep ms =>
      (0 <? processThrottleMs cfg)
      && (if processThrottleMs cfg <=? 2147483647
          then ms =? processThrottleMs cfg
          else ms =? 1)
  | _ => true
  end.

(** The calls of the client that count against the quota: all but the
    reading of the quota itself. *)
Definition isCountedCall (e : Event) : bool :=
  match e with
  | Api rateLimit_get => false
  | Api _ => true
  | _ => false
  end.

Definition countedCalls (ev : History) : nat := length (List.filter isCountedCall ev).

(** A stretch of the run with at most [n] counted calls. *)
Definition Costs (n : nat) (st st' : State) : Prop :=
  exists ev, trace st' = trace st ++ ev /\ (countedCalls ev <= n)%nat.

Definition costs {A} (n : nat) (c : M A) : Prop :=
  forall st r st', c st = (r, st') -> Costs n st st'.

(** The branches an iteration examines: not the default branch, not
    protected, not excluded. *)
Definition examined (cfg : Config) (b : Branch) : bool :=
  negb (String.eqb (name b) (defaultBranch cfg))
  && negb (protected b)
  && negb (isExcluded (rules cfg) (name b)).

(** *** How a pass ends *)

(** The last event of the run so far. *)
Definition endsWith (st : State) (e : Event) : Prop :=
  exists tr, trace st = tr ++ [e].

(** A command that never completes with [break]. *)
Definition unbroken {A} (c : M A) : Prop :=
  forall st r st', c st = (r, st') -> r <> Break.

(** How the loop over the branches can be left: at the end of the listing,
    by [break] at the cap, or by a throw of the guard or of the handler of
    line 283. *)
Definition PassEnd (cfg : Config) (r : Completion unit) (st' : State) : Prop :=
  match r with
  | Normal _ => True
  | Continue => False
  | Break =>
      endsWith st' (Warning (CapReached (maxBranchesToDelete cfg)))
      /\ maxBranchesToDelete cfg <= processedCount st'
  | Throw e =>
      (e = rateLimitError
       /\ endsWith st' (Warning (RateLimitStop (rateLimitThreshold cfg))))
      \/ (continueOnErrors cfg = false /\ endsWith st' (Warning ErrorStopping))
  end.

(** *** A dry run against a real run *)

(** A client whose answers do not depend on what the run did before: the
    repository stays as it is while the run looks at it. *)
Definition Stateless (octokit : Octokit) : Prop :=
  (forall h h', on_rateLimit_get octokit h = on_rateLimit_get octokit h')
  /\ (forall h h' o r sha,
        on_repos_getCommit octokit h o r sha = on_repos_getCommit octokit h' o r sha)
  /\ (forall h h' o r head,
        on_pulls_list_open octokit h o r head = on_pulls_list_open octokit h' o r head)
  /\ (forall h h' o r head,
        on_pulls_list_all octokit h o r head = on_pulls_list_all octokit h' o r head)
  /\ (forall h h' o r base head,
        on_repos_compareCommits octokit h o r base head
        = on_repos_compareCommits octokit h' o r base head).

(** Every delete-ref call is confirmed. *)
Definition DeletionsSucceed (octokit : Octokit) : Prop :=
  forall h o r ref, on_git_deleteRef octokit h o r ref = Resolved tt.

(** The configuration with [dryRun] set as given. *)
Definition withDryRun (dry : bool) (cfg : Config) : Config :=
  mkConfig (staleDays cfg) (skipUmerged cfg) (skipOpenPRs cfg) (includeClosedPRs cfg)
           (maxBranchesToDelete cfg) (processThrottleMs cfg) (rateLimitThreshold cfg)
           (continueOnErrors cfg) dry (now cfg) (rules cfg) (owner cfg) (repo cfg)
           (defaultBranch cfg).

(** The branches a stretch of trace reports as would-delete: each report
    stands under the name of the branch logged last (line 156). *)
Fixpoint wouldDeleteFrom (current : option string) (ev : History) : list string :=
  match ev with
  | [] => []
  | Info (BranchName n) :: rest => wouldDeleteFrom (Some n) rest
  | Info DryRunWouldDelete :: rest =>
      match current with
      | Some n => n :: wouldDeleteFrom current rest
      | None => wouldDeleteFrom current rest
      end
  | _ :: rest => wouldDeleteFrom current rest
  end.

Definition wouldDeleteNames (tr : History) : list string := wouldDeleteFrom None tr.

(** *** The run as a whole *)

(** A run that fails before it has logged or called anything. *)
Definition failedAtOnce (message : string) : Completion unit * State :=
  (Normal tt,
   mkState [SetOutput "deleted-branches" []; Info (DeletedCount 0);
            SetFailed (Error message)]
           [] 0 0).

(** An event of a run that does not look at the branches: no call of the
    client but [repos.get], and no pause. *)
Definition idle (e : Event) : bool :=
  match e with
  | Api (repos_get _ _) => true
  | Api _ => false
  | Sleep _ => false
  | _ => true
  end.

(** The configuration of the pass (lines 37 to 52, 69, 104 and 116), from
    the inputs, the context, the clock, the compiled rules, the answer of
    [repos.get] and the four numbers that passed the validation. *)
Definition configOf (getInput : string -> string) (context : Context) (clock : Z)
    (rules : RuleSet) (repo : Repository)
    (staleDays maxBranchesToDelete processThrottleMs rateLimitThreshold : Z) : Config :=
  mkConfig staleDays
    (negb (String.eqb (getInput "skip-unmerged") "false"))
    (negb (String.eqb (getInput "skip-open-prs") "false"))
    (negb (String.eqb (getInput "include-unmerged-and-closed-prs") "false"))
    maxBranchesToDelete processThrottleMs rateLimitThreshold
    (String.eqb (getInput "continue-on-errors") "true")
    (String.eqb (getInput "dry-run") "true")
    clock rules (repo_owner context) (repo_repo context) (default_branch repo).

(** The event is one the script acts on (line 125). *)
Definition supported (context : Context) : Prop :=
  eventName context = "workflow_dispatch" \/ eventName context = "schedule".

(** * Lemmas and theorems *)

(** ** General facts about one iteration and about the pass *)

Lemma resolvedFrom_app octokit past l1 l2 :
  resolvedFrom octokit past (l1 ++ l2) =
  resolvedFrom octokit past l1 ++ resolvedFrom octokit (past ++ l1) l2.
Proof.
  revert past. induction l1 as [|e l1 IH]; intros past; simpl.
  - by rewrite app_nil_r.
  - rewrite IH, <- !app_assoc. simpl. reflexivity.
Qed.

Lemma Quiet_refl st : Quiet st st.
Proof. exists []. by rewrite app_nil_r. Qed.

Lemma Quiet_trans st1 st2 st3 : Quiet st1 st2 -> Quiet st2 st3 -> Quiet st1 st3.
Proof.
  intros (e1 & T1 & N1 & O1 & D1 & P1) (e2 & T2 & N2 & O2 & D2 & P2).
  exists (e1 ++ e2). rewrite T2, T1, <- app_assoc, forallb_app, N1, N2.
  repeat split; congruence.
Qed.

Lemma quiet_ret {A} (a : A) : quiet (ret a).
Proof. intros st r st' [= <- <-]. apply Quiet_refl. Qed.

Lemma quiet_continue {A} : quiet (@continue A).
Proof. intros st r st' [= <- <-]. apply Quiet_refl. Qed.

Lemma quiet_break {A} : quiet (@break A).
Proof. intros st r st' [= <- <-]. apply Quiet_refl. Qed.

Lemma quiet_throw {A} e : quiet (@throw A e).
Proof. intros st r st' [= <- <-]. apply Quiet_refl. Qed.

Lemma quiet_emit e : neutral e = true -> quiet (emit e).
Proof.
  intros He st r st' [= <- <-]. exists [e]. simpl. by rewrite He.
Qed.

Lemma quiet_await {A} rq (answer : History -> Response A) :
  isDeleteCall (Api rq) = false -> quiet (await rq answer).
Proof.
  intros Hrq st r st' H. unfold await in H.
  exists [Api rq].
  destruct (answer (trace st)); injection H as <- <-; cbn [forallb trace];
    unfold neutral; rewrite Hrq; done.
Qed.

Lemma quiet_bind {A B} (c : M A) (k : A -> M B) :
  quiet c -> (forall a, quiet (k a)) -> quiet (bind c k).
Proof.
  intros Hc Hk st r st' H. unfold bind in H.
  destruct (c st) as [[a| | |e] st1] eqn:E; pose proof (Hc _ _ _ E) as Q1.
  - eapply Quiet_trans; [exact Q1|]. eapply Hk, H.
  - by injection H as <- <-.
  - by injection H as <- <-.
  - by injection H as <- <-.
Qed.

Lemma quiet_tryCatch {A} (c : M A) (h : Exn -> M A) :
  quiet c -> (forall e, quiet (h e)) -> quiet (tryCatch c h).
Proof.
  intros Hc Hh st r st' H. unfold tryCatch in H.
  destruct (c st) as [[a| | |e] st1] eqn:E; pose proof (Hc _ _ _ E) as Q1.
  - by injection H as <- <-.
  - by injection H as <- <-.
  - by injection H as <- <-.
  - eapply Quiet_trans; [exact Q1|]. eapply Hh, H.
Qed.

Lemma quiet_info m : neutral (Info m) = true -> quiet (info m).
Proof. apply quiet_emit. Qed.

Lemma quiet_warning m : neutral (Warning m) = true -> quiet (warning m).
Proof. apply quiet_emit. Qed.

(** Case analysis on the test of the conditional that heads a command. *)
Ltac head_case :=
  match goal with
  | |- _ (match ?x with _ => _ end) => destruct x eqn:?
  end.

Ltac solve_quiet :=
  repeat first
    [ simple apply quiet_ret | simple apply quiet_continue | simple apply quiet_break
    | simple apply quiet_throw
    | simple apply quiet_info; reflexivity
    | simple apply quiet_warning; reflexivity
    | simple apply quiet_emit; reflexivity
    | simple apply quiet_await; reflexivity
    | simple apply quiet_bind; [|intros ?]
    | simple apply quiet_tryCatch; [|intros ?]
    | head_case ].

Lemma resolvedFrom_no_delete octokit past ev :
  forallb (fun e => negb (isDeleteCall e)) ev = true ->
  resolvedFrom octokit past ev = [].
Proof.
  revert past. induction ev as [|e ev IH]; intros past H; [done|].
  simpl in H. apply andb_true_iff in H as [He Hev]. simpl.
  rewrite (IH _ Hev), app_nil_r.
  destruct e as [[]| | | | |]; simpl in *; done.
Qed.

Lemma neutral_facts ev :
  forallb neutral ev = true ->
  countWouldDelete ev = 0
  /\ existsb isRateLimitStop ev = false
  /\ reached ev = []
  /\ forallb (fun e => negb (isDeleteCall e)) ev = true.
Proof.
  unfold countWouldDelete, reached.
  induction ev as [|e ev IH]; intros H; [done|].
  simpl in H. apply andb_true_iff in H as [He Hev].
  destruct (IH Hev) as (I2 & I3 & I4 & I5).
  unfold neutral in He.
  destruct e as [[]| [] | [] | | |]; simpl in *; try discriminate;
    rewrite ?I3, ?I4, ?I5; repeat split; try done;
    destruct (List.filter isWouldDelete ev); simpl in *; done || lia.
Qed.

Lemma neutral_forallb octokit past ev :
  forallb neutral ev = true ->
  resolvedFrom octokit past ev = []
  /\ countWouldDelete ev = 0
  /\ existsb isRateLimitStop ev = false
  /\ reached ev = []
  /\ forallb (fun e => negb (isDeleteCall e)) ev = true.
Proof.
  intros N. destruct (neutral_facts ev N) as (W & S & R & F).
  split; [by apply resolvedFrom_no_delete | done].
Qed.

Lemma countWouldDelete_app l1 l2 :
  countWouldDelete (l1 ++ l2) = countWouldDelete l1 + countWouldDelete l2.
Proof.
  unfold countWouldDelete.
  rewrite List.filter_app, List.length_app. lia.
Qed.

Lemma reached_app l1 l2 : reached (l1 ++ l2) = reached l1 ++ reached l2.
Proof. unfold reached. apply flat_map_app. Qed.

Lemma Delta_refl octokit st : Delta octokit st st [] [].
Proof.
  split; simpl; rewrite ?app_nil_r; try done; unfold countWouldDelete; simpl; lia.
Qed.

Lemma Delta_trans octokit st1 st2 st3 ev1 ev2 a1 a2 :
  Delta octokit st1 st2 ev1 a1 -> Delta octokit st2 st3 ev2 a2 ->
  Delta octokit st1 st3 (ev1 ++ ev2) (a1 ++ a2).
Proof.
  intros [T1 O1 R1 D1 P1] [T2 O2 R2 D2 P2]. split.
  - by rewrite T2, T1, app_assoc.
  - by rewrite O2, O1, app_assoc.
  - by rewrite map_app, resolvedFrom_app, R1, R2, T1.
  - rewrite D2, D1, length_app. lia.
  - rewrite P2, P1, length_app, countWouldDelete_app. lia.
Qed.

Lemma Mode_app cfg ev1 ev2 : Mode cfg ev1 -> Mode cfg ev2 -> Mode cfg (ev1 ++ ev2).
Proof.
  intros [A1 B1] [A2 B2]. split; intros H.
  - by rewrite forallb_app, A1, A2.
  - rewrite countWouldDelete_app, B1, B2; done.
Qed.

Lemma Quiet_Delta octokit st st' :
  Quiet st st' ->
  exists ev, Delta octokit st st' ev [] /\ forallb neutral ev = true.
Proof.
  intros (ev & T & N & O & D & P). exists ev. split; [|done].
  destruct (neutral_forallb octokit (trace st) ev N) as (R & W & _).
  split; simpl; rewrite ?app_nil_r, ?W, ?R; try done; lia.
Qed.

Lemma neutral_Mode cfg ev : forallb neutral ev = true -> Mode cfg ev.
Proof.
  intros N. destruct (neutral_facts ev N) as (W & _ & _ & F). by split.
Qed.

Lemma neutral_benign ev : forallb neutral ev = true -> forallb benign ev = true.
Proof.
  induction ev as [|e ev IH]; [done|]. simpl.
  intros [He Hev]%andb_true_iff. rewrite (IH Hev), andb_true_r.
  unfold neutral in He. unfold benign.
  apply andb_true_iff in He as [He ->]. apply andb_true_iff in He as [_ ->]. done.
Qed.

Lemma benign_forallb ev :
  forallb benign ev = true ->
  existsb isRateLimitStop ev = false /\ reached ev = [].
Proof.
  unfold reached. induction ev as [|e ev IH]; [done|]. simpl.
  intros [He Hev]%andb_true_iff. destruct (IH Hev) as [-> ->].
  unfold benign in He. apply andb_true_iff in He as [He1 He2].
  destruct (reachedName e); [|done]. destruct (isRateLimitStop e); done.
Qed.

Section PassFacts.

Variable octokit : Octokit.
Variable cfg : Config.

Lemma isSafeToProceedWithApiCalls_quiet t :
  quiet (isSafeToProceedWithApiCalls octokit t).
Proof. unfold isSafeToProceedWithApiCalls. solve_quiet. Qed.

Lemma checkOpenPRs_quiet b : quiet (checkOpenPRs octokit cfg b).
Proof. unfold checkOpenPRs. solve_quiet. Qed.

Lemma checkUnmerged_quiet b : quiet (checkUnmerged octokit cfg b).
Proof. unfold checkUnmerged. solve_quiet. Qed.

Lemma throttle_quiet : quiet (throttle cfg).
Proof. unfold throttle. solve_quiet. Qed.

Lemma Step_of_Quiet b st st' : Quiet st st' -> Step octokit cfg b st st'.
Proof.
  intros Q. destruct (Quiet_Delta octokit _ _ Q) as (ev & D & N).
  exists ev, []. split_and!; try done.
  - by apply neutral_Mode.
  - by apply neutral_benign.
  - apply sublist_nil_l.
  - destruct Q as (? & _ & _ & _ & _ & ->). lia.
Qed.

Lemma Step_Quiet_l b st st1 st' : Quiet st st1 -> Step octokit cfg b st1 st' -> Step octokit cfg b st st'.
Proof.
  intros Q (ev & added & D & Md & B & S & C).
  destruct (Quiet_Delta octokit _ _ Q) as (ev0 & D0 & N0).
  exists (ev0 ++ ev), added. split_and!.
  - apply (Delta_trans _ _ _ _ _ _ _ _ D0 D).
  - apply Mode_app; [by apply neutral_Mode|done].
  - by rewrite forallb_app, (neutral_benign _ N0), B.
  - done.
  - destruct Q as (? & _ & _ & _ & _ & E). rewrite <- E. exact C.
Qed.

Lemma Step_Quiet_r b st st1 st' : Step octokit cfg b st st1 -> Quiet st1 st' -> Step octokit cfg b st st'.
Proof.
  intros (ev & added & D & Md & B & S & C) Q.
  destruct (Quiet_Delta octokit _ _ Q) as (ev0 & D0 & N0).
  exists (ev ++ ev0), (added ++ []). split_and!.
  - apply (Delta_trans _ _ _ _ _ _ _ _ D D0).
  - apply Mode_app; [done|by apply neutral_Mode].
  - by rewrite forallb_app, (neutral_benign _ N0), B.
  - by rewrite app_nil_r.
  - destruct Q as (? & _ & _ & _ & _ & E). rewrite E. exact C.
Qed.

Lemma stepping_quiet {A} b (c : M A) : quiet c -> stepping octokit cfg b c.
Proof. intros Hc st r st' H. eapply Step_of_Quiet, Hc, H. Qed.

Lemma stepping_bind {A B} b (c : M A) (k : A -> M B) :
  quiet c -> (forall a, stepping octokit cfg b (k a)) -> stepping octokit cfg b (bind c k).
Proof.
  intros Hc Hk st r st' H. unfold bind in H.
  destruct (c st) as [[a| | |e] st1] eqn:E; pose proof (Hc _ _ _ E) as Q1.
  - eapply Step_Quiet_l; [exact Q1|]. eapply Hk, H.
  - injection H as <- <-. by apply Step_of_Quiet.
  - injection H as <- <-. by apply Step_of_Quiet.
  - injection H as <- <-. by apply Step_of_Quiet.
Qed.

Lemma stepping_bind_r {A B} b (c : M A) (k : A -> M B) :
  stepping octokit cfg b c -> (forall a, quiet (k a)) -> stepping octokit cfg b (bind c k).
Proof.
  intros Hc Hk st r st' H. unfold bind in H.
  destruct (c st) as [[a| | |e] st1] eqn:E; pose proof (Hc _ _ _ E) as S1.
  - eapply Step_Quiet_r; [exact S1|]. eapply Hk, H.
  - by injection H as <- <-.
  - by injection H as <- <-.
  - by injection H as <- <-.
Qed.

Lemma stepping_tryCatch {A} b (c : M A) (h : Exn -> M A) :
  stepping octokit cfg b c -> (forall e, quiet (h e)) -> stepping octokit cfg b (tryCatch c h).
Proof.
  intros Hc Hh st r st' H. unfold tryCatch in H.
  destruct (c st) as [[a| | |e] st1] eqn:E; pose proof (Hc _ _ _ E) as S1.
  - by injection H as <- <-.
  - by injection H as <- <-.
  - by injection H as <- <-.
  - eapply Step_Quiet_r; [exact S1|]. eapply Hh, H.
Qed.

Lemma deleteOrReport_stepping b : stepping octokit cfg b (deleteOrReport octokit cfg b).
Proof.
  intros st r st' H.
  unfold deleteOrReport, bind, await, info, emit, recordDeletion, countProcessed in H.
  destruct (dryRun cfg) eqn:Dry; cbn in H.
  - injection H as <- <-.
    exists [Info DryRunWouldDelete], []. unfold Mode, countWouldDelete.
    split_and!; [split|..]; unfold countWouldDelete; cbn; rewrite ?app_nil_r, ?Dry;
      try done; try lia; try apply sublist_nil_l.
  - destruct (on_git_deleteRef octokit (trace st) (owner cfg) (repo cfg)
                (refOf b)) as [[]|m] eqn:Del; cbn in H; injection H as <- <-.
    + exists [Api (git_deleteRef (owner cfg) (repo cfg) (refOf b)); Info Deleted],
        [name b].
      unfold Mode, countWouldDelete.
      split_and!; [split|..]; unfold countWouldDelete; cbn; rewrite <- ?app_assoc, ?Del, ?Dry;
        try done; try lia.
    + exists [Api (git_deleteRef (owner cfg) (repo cfg) (refOf b))], [].
      unfold Mode, countWouldDelete.
      split_and!; [split|..]; unfold countWouldDelete; cbn; rewrite ?app_nil_r, ?Del, ?Dry;
        try done; try lia; try apply sublist_nil_l.
Qed.

Lemma examine_stepping b : stepping octokit cfg b (examine octokit cfg b).
Proof.
  unfold examine. apply stepping_tryCatch.
  - apply stepping_bind; [solve_quiet|]. intros commitDate.
    destruct (isStale commitDate (now cfg) (staleDays cfg)).
    + apply stepping_bind; [solve_quiet|]. intros _.
      apply stepping_bind; [apply checkOpenPRs_quiet|]. intros _.
      apply stepping_bind; [apply checkUnmerged_quiet|]. intros _.
      apply deleteOrReport_stepping.
    + apply stepping_quiet. solve_quiet.
  - intros e. solve_quiet.
Qed.

Lemma Effect_of_Quiet names st r st' : Quiet st st' -> Effect octokit cfg names st r st'.
Proof.
  intros Q. destruct (Quiet_Delta octokit _ _ Q) as (ev & D & N).
  destruct (neutral_forallb octokit [] ev N) as (_ & _ & S & R & _).
  exists ev, []. split_and!; try done.
  - by apply neutral_Mode.
  - apply sublist_nil_l.
  - rewrite R. apply sublist_nil_l.
  - by rewrite S.
  - destruct Q as (? & _ & _ & _ & _ & ->). done.
Qed.

Lemma Effect_weaken n1 n2 st r st' :
  n1 `sublist_of` n2 -> Effect octokit cfg n1 st r st' -> Effect octokit cfg n2 st r st'.
Proof.
  intros Hn (ev & added & D & Md & S & R & St & C).
  exists ev, added. split_and!; try done. by etrans.
Qed.

Lemma Effect_trans n1 n2 st r1 st1 r st' :
  r1 <> Throw rateLimitError ->
  Effect octokit cfg n1 st r1 st1 -> Effect octokit cfg n2 st1 r st' -> Effect octokit cfg (n1 ++ n2) st r st'.
Proof.
  intros Hr (ev1 & a1 & D1 & M1 & S1 & R1 & St1 & C1)
            (ev2 & a2 & D2 & M2 & S2 & R2 & St2 & C2).
  exists (ev1 ++ ev2), (a1 ++ a2). split_and!.
  - by eapply Delta_trans.
  - by apply Mode_app.
  - rewrite reached_app. by apply sublist_app.
  - rewrite reached_app. by apply sublist_app.
  - rewrite existsb_app. intros [H|H]%orb_true_iff; [|auto].
    by destruct Hr; apply St1.
  - auto.
Qed.

Lemma processBranch_effect b st r st' :
  processBranch octokit cfg b st = (r, st') -> Effect octokit cfg [name b] st r st'.
Proof.
  intros H. unfold processBranch in H. unfold bind at 1 in H.
  destruct (isSafeToProceedWithApiCalls octokit (rateLimitThreshold cfg) st)
    as [[canProceed| | |e] st1] eqn:Hsafe;
    pose proof (isSafeToProceedWithApiCalls_quiet _ _ _ _ Hsafe) as Q;
    try (injection H as <- <-; by apply Effect_of_Quiet).
  destruct canProceed; cbn [negb] in H.
  - unfold bind at 1, getProcessedCount in H.
    destruct (Z.leb_spec (maxBranchesToDelete cfg) (processedCount st1)) as [Cap|Cap].
    + apply Effect_of_Quiet. eapply Quiet_trans; [exact Q|].
      revert H. generalize st1 r st'. change (quiet (warning (CapReached (maxBranchesToDelete cfg)) ;; break : M unit)).
      solve_quiet.
    + unfold bind at 1, info, emit in H.
      set (st2 := mkState (trace st1 ++ [Info (BranchName (name b))])
                    (outputDeletedBranches st1) (deletedCount st1)
                    (processedCount st1)) in H.
      assert (Step octokit cfg b st2 st') as (ev & added & D & Md & B & S & C).
      { revert H. generalize st2 r st'.
        change (stepping octokit cfg b
          (if String.eqb (name b) (defaultBranch cfg) then info SkipDefault ;; continue
           else if protected b then info SkipProtected ;; continue
           else if isExcluded (rules cfg) (name b) then info SkipExcluded ;; continue
           else examine octokit cfg b ;; throttle cfg)).
        repeat case_match.
        - apply stepping_quiet. solve_quiet.
        - apply stepping_quiet. solve_quiet.
        - apply stepping_quiet. solve_quiet.
        - apply stepping_bind_r; [apply examine_stepping|].
          intros _. apply throttle_quiet. }
      destruct (Quiet_Delta octokit _ _ Q) as (ev0 & D0 & N0).
      destruct (neutral_forallb octokit [] ev0 N0) as (_ & _ & S0 & R0 & _).
      destruct (benign_forallb ev B) as (SB & RB).
      assert (Delta octokit st1 st2 [Info (BranchName (name b))] []) as D1.
      { split; cbn; rewrite ?app_nil_r; try done;
          unfold countWouldDelete; cbn; lia. }
      pose proof (Delta_trans _ _ _ _ _ _ _ _ D0 (Delta_trans _ _ _ _ _ _ _ _ D1 D)) as DD.
      exists (ev0 ++ [Info (BranchName (name b))] ++ ev), added.
      split_and!.
      * exact DD.
      * apply Mode_app; [by apply neutral_Mode|]. apply Mode_app; [|done].
        split; intros _; reflexivity.
      * rewrite !reached_app, R0, RB. exact S.
      * rewrite !reached_app, R0, RB. done.
      * rewrite !existsb_app, S0, SB. done.
      * intros _. apply C. cbn. lia.
  - unfold bind, warning, emit, throw in H. injection H as <- <-.
    destruct (Quiet_Delta octokit _ _ Q) as (ev0 & D0 & N0).
    destruct (neutral_forallb octokit [] ev0 N0) as (_ & _ & S0 & R0 & _).
    destruct Q as (? & _ & _ & _ & _ & QP).
    exists (ev0 ++ [Warning (RateLimitStop (rateLimitThreshold cfg))]), ([] ++ []).
    split_and!.
    + eapply Delta_trans; [exact D0|].
      split; cbn; rewrite ?app_nil_r; try done; unfold countWouldDelete; cbn; lia.
    + apply Mode_app; [by apply neutral_Mode|]. split; intros _; reflexivity.
    + apply sublist_nil_l.
    + rewrite reached_app, R0. apply sublist_nil_l.
    + done.
    + cbn. by rewrite QP.
Qed.

Lemma iterate_effect branches st r st' :
  iterate octokit cfg branches st = (r, st') ->
  Effect octokit cfg (map name branches) st r st'.
Proof.
  revert st. induction branches as [|b rest IH]; intros st H; cbn in H.
  - injection H as <- <-. apply Effect_of_Quiet, Quiet_refl.
  - destruct (processBranch octokit cfg b st) as [[[]| | |e] st1] eqn:Hb;
      pose proof (processBranch_effect _ _ _ _ Hb) as E1.
    + apply (Effect_trans [name b] (map name rest) st (Normal ()) st1); auto; done.
    + apply (Effect_trans [name b] (map name rest) st Continue st1); auto; done.
    + injection H as <- <-. eapply Effect_weaken; [|exact E1].
      cbn. apply sublist_skip, sublist_nil_l.
    + injection H as <- <-. eapply Effect_weaken; [|exact E1].
      cbn. apply sublist_skip, sublist_nil_l.
Qed.

End PassFacts.

(** ** The staleness test (claim C6) *)

Lemma staleThreshold_spec now staleDays :
  validTime now -> 0 <= staleDays ->
  staleThreshold now staleDays = Some (now - staleDays * msPerDay)
  \/ (staleThreshold now staleDays = None
      /\ now - staleDays * msPerDay < - maxTimeValue).
Proof.
  unfold validTime, staleThreshold, newDate, msPerDay, maxTimeValue.
  intros Hn Hd.
  replace (now - staleDays * 24 * 60 * 60 * 1000) with (now - staleDays * 86400000) by lia.
  destruct (Z.leb_spec (Z.abs (now - staleDays * 86400000)) 8640000000000000);
    [by left | right; split; [done | lia]].
Qed.

(** C6, counterexample: with [staleDays = 0] a commit one millisecond after
    [now] is not at the instant of [now], and is not stale. *)
Lemma stale_zero_days_later_commit :
  1700000000001 <> 1700000000000
  /\ isStale (Some 1700000000001) 1700000000000 0 = false.
Proof. split; [lia | reflexivity]. Qed.

(** C6, as amended: a commit with a valid time stamp is stale exactly when
    that stamp is below [now - staleDays * 86400000] in integer arithmetic
    on milliseconds; with [staleDays = 0] that is every commit strictly
    before [now], and no commit at or after it. *)
Theorem isStale_exact commit now staleDays :
  validTime commit -> validTime now -> 0 <= staleDays ->
  (isStale (Some commit) now staleDays = true
   <-> commit < now - staleDays * msPerDay)
  /\ (staleDays = 0 -> (isStale (Some commit) now staleDays = true <-> commit < now)).
Proof.
  intros Hc Hn Hd.
  assert (isStale (Some commit) now staleDays = true
          <-> commit < now - staleDays * msPerDay) as Hiff.
  { unfold isStale.
    destruct (staleThreshold_spec now staleDays Hn Hd) as [-> | [-> Hlow]]; simpl.
    - apply Z.ltb_lt.
    - unfold validTime in Hc. split; [done | lia]. }
  split; [exact Hiff|]. intros ->. rewrite Hiff. unfold msPerDay. lia.
Qed.

Lemma isStale_exact_witness :
  (isStale (Some 1600000000000) 1700000000000 90 = true
   <-> 1600000000000 < 1700000000000 - 90 * msPerDay)
  /\ (90 = 0 -> (isStale (Some 1600000000000) 1700000000000 90 = true
                 <-> 1600000000000 < 1700000000000)).
Proof.
  apply (isStale_exact 1600000000000 1700000000000 90);
    unfold validTime, maxTimeValue; lia.
Defined.

(** ** Exclusion entries (claims C8 and C9) *)

(** The examples of the specification hold on the code. *)
Lemma release_examples :
  excludes "release/*" "release/1.0" = Some true
  /\ excludes "release/*" "release/" = Some true
  /\ excludes "release/*" "release" = Some false
  /\ excludes "release/*" "prod/release/1" = Some false.
Proof. repeat split; vm_compute; reflexivity. Qed.

(** A literal entry excludes a name only when they are equal. *)
Lemma literal_entry_exact names n :
  isExcluded (mkRuleSet names [] []) n = true <-> In n names.
Proof.
  unfold isExcluded, Js.includes. simpl.
  destruct (existsb (String.eqb n) names) eqn:E.
  - split; [|done]. intros _. apply existsb_exists in E as (x & Hx & ->%String.eqb_eq).
    exact Hx.
  - split; [done|]. intros Hin.
    assert (existsb (String.eqb n) names = true) as E'.
    { apply existsb_exists. exists n. split; [done|]. apply String.eqb_refl. }
    congruence.
Qed.

(** C8, on the code: the other characters of a wildcard entry are read as
    pattern syntax.  The entry [release-1.*] excludes [release-10], which
    the entry with [*] as its only special character does not match; the
    entry [fix(ui)*] does not exclude [fix(ui)-1], which it does match. *)
Theorem wildcard_entry_read_as_pattern_syntax :
  (excludes "release-1.*" "release-10" = Some true
   /\ specMatches "release-1.*" "release-10" = false)
  /\ (excludes "fix(ui)*" "fix(ui)-1" = Some false
      /\ specMatches "fix(ui)*" "fix(ui)-1" = true).
Proof. repeat split; vm_compute; reflexivity. Qed.

(** C9, on the code: the entry "feat(*" becomes the source "^feat(.*$",
    which the [RegExp] constructor refuses; the [SyntaxError] ends the run
    before the repository is even looked at, whatever the client, the
    context and the clock. *)
Theorem exclusion_entry_can_throw context clock octokit :
  compileExclusions "main,feat(*" = InvalidPattern "^feat(.*$"
  /\ main (inputsWith "main,feat(*" "0" "false") context clock octokit =
     Some (mkState
             [Info (OriginalSkipBranches "main,feat(*");
              SetOutput "deleted-branches" [];
              Info (DeletedCount 0);
              SetFailed (RegExpSyntaxError "^feat(.*$")]
             [] 0 0).
Proof. split; reflexivity. Qed.

(** ** The pause between branches (claim C5) *)

(** C5, on the code: with a throttle of 250 ms the iteration pauses after
    a branch with a recent commit and after a deleted branch, and does not
    pause after the default branch, a protected branch, an excluded branch,
    a stale branch with an open pull request or a stale branch with
    unmerged commits: those leave the iteration with [continue], which
    skips lines 287 to 291. *)
Theorem skipped_branch_is_not_followed_by_a_pause :
  0 < processThrottleMs (Demo.config 250 false)
  /\ map (pauses Demo.world (Demo.config 250 false) initialState)
       [Demo.fresh; Demo.old] = [true; true]
  /\ map (pauses Demo.world (Demo.config 250 false) initialState)
       [Demo.main_; Demo.prod; Demo.kept; Demo.wip; Demo.spike]
     = [false; false; false; false; false]
  /\ map (fun b => fst (processBranch Demo.world (Demo.config 250 false) b initialState))
       [Demo.main_; Demo.prod; Demo.kept; Demo.wip; Demo.spike]
     = [Continue; Continue; Continue; Continue; Continue].
Proof. repeat split; vm_compute; reflexivity. Qed.

(** ** Count, list and confirmed deletions (claim C10) *)

Lemma CountMatchesList_initial octokit : CountMatchesList octokit initialState.
Proof. split; reflexivity. Qed.

Lemma CountMatchesList_Delta octokit st st' ev added :
  Delta octokit st st' ev added ->
  CountMatchesList octokit st -> CountMatchesList octokit st'.
Proof.
  intros [T O R D _] [Hc Hl]. split.
  - rewrite D, O, Hc, length_app. lia.
  - unfold resolvedDeletes in *.
    rewrite T, O, map_app, resolvedFrom_app, Hl, R. done.
Qed.

(** C10: at the end of any stretch of the pass, however it ends, the
    deletion count is the length of the list of deleted branches, and that
    list is exactly the sequence of names whose delete-ref call resolved;
    a delete-ref call that is rejected adds neither a name nor a count. *)
Theorem count_matches_confirmed_deletions octokit cfg branches st r st' :
  CountMatchesList octokit st ->
  iterate octokit cfg branches st = (r, st') ->
  CountMatchesList octokit st'.
Proof.
  intros Hst H.
  destruct (iterate_effect _ _ _ _ _ _ H) as (ev & added & D & _).
  by eapply CountMatchesList_Delta.
Qed.

Lemma count_matches_confirmed_deletions_witness :
  CountMatchesList Demo.world
    (snd (iterate Demo.world (Demo.config 0 false) Demo.branches initialState)).
Proof.
  apply (count_matches_confirmed_deletions Demo.world (Demo.config 0 false)
           Demo.branches initialState
           (fst (iterate Demo.world (Demo.config 0 false) Demo.branches initialState))).
  - split; reflexivity.
  - apply surjective_pairing.
Defined.

(** ** The guard and the cap *)

Lemma isSafeToProceedWithApiCalls_total octokit t st :
  exists ok st1,
    isSafeToProceedWithApiCalls octokit t st = (Normal ok, st1)
    /\ Quiet st st1.
Proof.
  destruct (isSafeToProceedWithApiCalls octokit t st) as [r st1] eqn:E.
  pose proof (isSafeToProceedWithApiCalls_quiet octokit t _ _ _ E) as Q.
  unfold isSafeToProceedWithApiCalls, tryCatch, bind, await, warning, emit, ret in E.
  destruct (on_rateLimit_get octokit (trace st)) as [n|m]; cbn in E.
  - destruct (n <? t); cbn in E; injection E as <- <-; eauto.
  - injection E as <- <-; eauto.
Qed.

(** At the cap the iteration stops the loop (or the guard aborts the run)
    before anything is done for the branch. *)
Lemma processBranch_at_cap octokit cfg b st r st' :
  maxBranchesToDelete cfg <= processedCount st ->
  processBranch octokit cfg b st = (r, st') ->
  (r = Break \/ r = Throw rateLimitError)
  /\ processedCount st' = processedCount st
  /\ exists ev, trace st' = trace st ++ ev
                /\ reached ev = [] /\ countWouldDelete ev = 0
                /\ forallb (fun e => negb (isDeleteCall e)) ev = true.
Proof.
  intros Cap H. unfold processBranch in H. unfold bind at 1 in H.
  destruct (isSafeToProceedWithApiCalls_total octokit (rateLimitThreshold cfg) st)
    as (ok & st1 & E & Q).
  rewrite E in H. destruct Q as (ev & T & N & _ & _ & P).
  destruct (neutral_forallb octokit [] ev N) as (_ & W & _ & R & F).
  destruct ok; cbn [negb] in H.
  - unfold bind at 1, getProcessedCount in H.
    destruct (Z.leb_spec (maxBranchesToDelete cfg) (processedCount st1)); [|lia].
    unfold bind, warning, emit, break in H. injection H as <- <-.
    split_and!; [by left | done |].
    exists (ev ++ [Warning (CapReached (maxBranchesToDelete cfg))]).
    cbn. rewrite T, <- app_assoc, reached_app, countWouldDelete_app, forallb_app, R, W, F.
    done.
  - unfold bind, warning, emit, throw in H. injection H as <- <-.
    split_and!; [by right | done |].
    exists (ev ++ [Warning (RateLimitStop (rateLimitThreshold cfg))]).
    cbn. rewrite T, <- app_assoc, reached_app, countWouldDelete_app, forallb_app, R, W, F.
    done.
Qed.

(** ** The whole run (claim C1) *)

Lemma MainEffect_of_Quiet octokit st r st' :
  Quiet st st' -> MainEffect octokit st r st'.
Proof.
  intros (ev & T & N & O & D & _).
  destruct (neutral_forallb octokit (trace st) ev N) as (R & _ & S & Rc & _).
  exists ev, []. rewrite app_nil_r, R, S. split_and!; try done.
  - simpl. lia.
  - apply sublist_nil_l.
Qed.

Lemma MainEffect_trans octokit st r1 st1 r st' :
  r1 <> Throw rateLimitError ->
  MainEffect octokit st r1 st1 -> MainEffect octokit st1 r st' ->
  MainEffect octokit st r st'.
Proof.
  intros Hr (ev1 & a1 & T1 & O1 & R1 & D1 & S1 & St1)
            (ev2 & a2 & T2 & O2 & R2 & D2 & S2 & St2).
  exists (ev1 ++ ev2), (a1 ++ a2). split_and!.
  - by rewrite T2, T1, app_assoc.
  - by rewrite O2, O1, app_assoc.
  - by rewrite map_app, resolvedFrom_app, R1, R2, T1.
  - rewrite D2, D1, length_app. lia.
  - rewrite reached_app. by apply sublist_app.
  - rewrite existsb_app. intros [H|H]%orb_true_iff; [|auto].
    by destruct Hr; apply St1.
Qed.

Lemma maineff_quiet octokit (c : M unit) : quiet c -> maineff octokit c.
Proof. intros Hc st r st' H. eapply MainEffect_of_Quiet, Hc, H. Qed.

Lemma maineff_bind_l octokit {A} (c : M A) (k : A -> M unit) :
  quiet c -> (forall a, maineff octokit (k a)) -> maineff octokit (bind c k).
Proof.
  intros Hc Hk st r st' H. unfold bind in H.
  destruct (c st) as [[a| | |e] st1] eqn:E; pose proof (Hc _ _ _ E) as Q1.
  - apply (MainEffect_trans _ _ Continue st1); [done| |by eapply Hk].
    by apply MainEffect_of_Quiet.
  - injection H as <- <-. by apply MainEffect_of_Quiet.
  - injection H as <- <-. by apply MainEffect_of_Quiet.
  - injection H as <- <-. by apply MainEffect_of_Quiet.
Qed.

Lemma maineff_bind_r octokit (c : M unit) (k : unit -> M unit) :
  maineff octokit c -> (forall a, quiet (k a)) -> maineff octokit (bind c k).
Proof.
  intros Hc Hk st r st' H. unfold bind in H.
  destruct (c st) as [[a| | |e] st1] eqn:E; pose proof (Hc _ _ _ E) as E1.
  - apply (MainEffect_trans _ _ (Normal a) st1); [done|done|].
    eapply MainEffect_of_Quiet, Hk, H.
  - by injection H as <- <-.
  - by injection H as <- <-.
  - by injection H as <- <-.
Qed.

Lemma maineff_reset octokit (k : unit -> M unit) :
  maineff octokit (k tt) -> maineff octokit (bind resetProcessed k).
Proof.
  intros Hk st r st' H. unfold bind, resetProcessed in H.
  apply Hk in H. exact H.
Qed.

Lemma maineff_loop octokit cfg branches :
  maineff octokit (processBranches octokit cfg branches).
Proof.
  intros st r st' H. unfold processBranches in H.
  destruct (iterate octokit cfg branches st) as [r0 st0] eqn:E.
  destruct (iterate_effect _ _ _ _ _ _ E)
    as (ev & added & [T O R D _] & _ & S & _ & St & _).
  assert (st' = st0) as -> by (by destruct r0; injection H as <- <-).
  exists ev, added. split_and!; try done.
  intros Hs. rewrite (St Hs) in H. congruence.
Qed.

Lemma quiet_setOutputs : quiet setOutputs.
Proof.
  intros st r st' H. unfold setOutputs in H.
  assert (quiet (emit (SetOutput "deleted-branches" (outputDeletedBranches st)) ;;
                 info (DeletedCount (deletedCount st)))) as Hq by solve_quiet.
  exact (Hq _ _ _ H).
Qed.

Ltac solve_quiet' :=
  solve [ repeat first
    [ simple apply quiet_setOutputs
    | simple apply quiet_ret | simple apply quiet_continue | simple apply quiet_break
    | simple apply quiet_throw
    | simple apply quiet_info; reflexivity
    | simple apply quiet_warning; reflexivity
    | simple apply quiet_emit; reflexivity
    | simple apply quiet_await; reflexivity
    | simple apply quiet_bind; [|intros ?]
    | simple apply quiet_tryCatch; [|intros ?] ] ].

Ltac solve_maineff :=
  repeat first
    [ simple apply maineff_reset
    | simple apply maineff_bind_l; [solve_quiet' | intros ?]
    | simple apply maineff_bind_r; [ | intros ?; solve_quiet']
    | simple apply maineff_loop
    | head_case
    | simple apply maineff_quiet; solve_quiet' ].

Lemma reports_bind {A B} (c : M A) (k : A -> M B) :
  (forall a, reports (k a)) -> reports (bind c k).
Proof.
  intros Hk st b st' H. unfold bind in H.
  destruct (c st) as [[a| | |e] st1]; try discriminate. by eapply Hk.
Qed.

Lemma reports_throw {A} e : reports (@throw A e).
Proof. intros st a st' H. discriminate. Qed.

Lemma reports_setOutputs : reports setOutputs.
Proof.
  intros st a st' H. unfold setOutputs, bind, info, emit in H.
  injection H as <- <-. exists (trace st). cbn. by rewrite <- app_assoc.
Qed.

Lemma proper_ret {A} (a : A) : proper (ret a).
Proof. by intros st r st' [= <- <-]. Qed.

Lemma proper_throw {A} e : proper (@throw A e).
Proof. by intros st r st' [= <- <-]. Qed.

Lemma proper_emit e : proper (emit e).
Proof. by intros st r st' [= <- <-]. Qed.

Lemma proper_info m : proper (info m).
Proof. apply proper_emit. Qed.

Lemma proper_warning m : proper (warning m).
Proof. apply proper_emit. Qed.

Lemma proper_await {A} rq (answer : History -> Response A) : proper (await rq answer).
Proof.
  intros st r st' H. unfold await in H.
  by destruct (answer (trace st)); injection H as <- <-.
Qed.

Lemma proper_reset : proper resetProcessed.
Proof. by intros st r st' [= <- <-]. Qed.

Lemma proper_bind {A B} (c : M A) (k : A -> M B) :
  proper c -> (forall a, proper (k a)) -> proper (bind c k).
Proof.
  intros Hc Hk st r st' H. unfold bind in H.
  destruct (c st) as [[a| | |e] st1] eqn:E; pose proof (Hc _ _ _ E) as P1;
    try done.
  - by eapply Hk.
  - by injection H as <- <-.
Qed.

Lemma proper_setOutputs : proper setOutputs.
Proof. by intros st r st' [= <- <-]. Qed.

Lemma iterate_no_continue octokit cfg branches st r st' :
  iterate octokit cfg branches st = (r, st') -> r <> Continue.
Proof.
  revert st. induction branches as [|b rest IH]; intros st H; cbn in H.
  - by injection H as <- <-.
  - destruct (processBranch octokit cfg b st) as [[[]| | |e] st1]; eauto;
      by injection H as <- <-.
Qed.

Lemma proper_loop octokit cfg branches :
  proper (processBranches octokit cfg branches).
Proof.
  intros st r st' H. unfold processBranches in H.
  destruct (iterate octokit cfg branches st) as [[[]| | |e] st1] eqn:E;
    injection H as <- <-; try done.
  by apply iterate_no_continue in E.
Qed.

Ltac solve_proper_cmd :=
  repeat first
    [ simple apply proper_bind; [|intros ?]
    | simple apply proper_info | simple apply proper_warning
    | simple apply proper_loop | simple apply proper_setOutputs
    | simple apply proper_reset
    | simple apply proper_ret | simple apply proper_throw
    | simple apply proper_emit | simple apply proper_await
    | head_case ].

Section RunFacts.

Variable getInput : string -> string.
Variable context : Context.
Variable clock : Z.
Variable octokit : Octokit.

Lemma body_maineff c : maineff octokit (body getInput context clock octokit c).
Proof. unfold body, validated. solve_maineff. Qed.

Lemma body_reports c : reports (body getInput context clock octokit c).
Proof.
  unfold body, validated.
  repeat first [ simple apply reports_bind; intros ?
               | simple apply reports_throw | simple apply reports_setOutputs
               | head_case ].
Qed.

Lemma body_proper c : proper (body getInput context clock octokit c).
Proof. unfold body, validated. solve_proper_cmd. Qed.

End RunFacts.

Section RunReport.

Variable getInput : string -> string.
Variable context : Context.
Variable clock : Z.
Variable octokit : Octokit.

Lemma run_report c st :
  snd (tryCatch (body getInput context clock octokit c)
                (handler) initialState) = st ->
  CountMatchesList octokit st
  /\ outputDeletedBranches st `sublist_of` reached (trace st)
  /\ EndsReported st.
Proof.
  unfold tryCatch.
  destruct (body getInput context clock octokit c initialState) as [r st1] eqn:E.
  pose proof (body_maineff getInput context clock octokit c _ _ _ E)
    as (ev & added & T & O & R & D & S & St).
  pose proof (body_proper getInput context clock octokit c _ _ _ E) as Pr.
  cbn in T, O, R, D.
  assert (CountMatchesList octokit st1) as C1.
  { split; [rewrite D, O; lia|]. unfold resolvedDeletes. by rewrite T, O. }
  destruct r as [u| | |e]; try done; cbn [snd].
  - intros <-. split_and!; [done|by rewrite T, O|]. left.
    destruct (body_reports getInput context clock octokit c _ _ _ E) as (tr & Htr).
    exists tr. split; [done|].
    rewrite T. destruct (existsb isRateLimitStop ev); [|done].
    by specialize (St eq_refl).
  - unfold handler, setOutputs, bind, info, emit. cbn. intros <-. cbn.
    destruct C1 as [Cc Cl]. unfold CountMatchesList, resolvedDeletes in *. cbn.
    split_and!.
    + done.
    + rewrite <- !app_assoc, resolvedFrom_app, <- Cl. cbn. by rewrite app_nil_r.
    + rewrite <- !app_assoc, reached_app. cbn. by rewrite app_nil_r, T, O.
    + right. exists (trace st1), e. rewrite <- !app_assoc. cbn. split; [done|].
      rewrite existsb_app. cbn. rewrite orb_false_r, T.
      intros Hs. specialize (St Hs). congruence.
Qed.

End RunReport.

(** C1: every run, whatever compiling the exclusion list gave (a rule set
    or the error of the constructor), ends by reporting the list of deleted
    branches and the deletion count it has at that moment, also when it
    fails.  The count is the length of the list; the list is exactly the
    sequence of names whose deletion the client confirmed, in the order of
    the calls, and a subsequence of the names of the branches the loop
    reached.  When the rate-limit guard stopped the run, that report is
    followed by the failure "API rate limit exceeded threshold". *)
Theorem partial_results_are_reported getInput context clock octokit c st :
  snd (tryCatch (body getInput context clock octokit c) handler initialState) = st ->
  CountMatchesList octokit st
  /\ outputDeletedBranches st `sublist_of` reached (trace st)
  /\ EndsReported st
  /\ (existsb isRateLimitStop (trace st) = true ->
      exists tr,
        trace st =
        tr ++ [SetOutput "deleted-branches" (outputDeletedBranches st);
               Info (DeletedCount (deletedCount st));
               SetFailed rateLimitError]).
Proof.
  intros H.
  destruct (run_report _ _ _ _ _ _ H) as (C & S & E).
  split_and!; try done.
  intros Stop. destruct E as [(tr & _ & NoStop) | (tr & e & T & He)].
  - congruence.
  - exists tr. by rewrite <- (He Stop).
Qed.

(** A run in which the quota falls below the threshold once two branches
    are deleted: the third stale branch is not reached, and the two names
    are reported before the failure. *)
Lemma partial_results_are_reported_witness :
  exists st,
    main (inputsWith defaultSkipBranches "0" "false") Demo.context Demo.clock
         Demo.tightWorld = Some st
    /\ outputDeletedBranches st = ["old"; "older"]
    /\ existsb isRateLimitStop (trace st) = true
    /\ exists tr,
         trace st =
         tr ++ [SetOutput "deleted-branches" (outputDeletedBranches st);
                Info (DeletedCount (deletedCount st));
                SetFailed rateLimitError].
Proof.
  eexists. split; [vm_compute; reflexivity|].
  split; [reflexivity|]. split; [reflexivity|].
  eapply (partial_results_are_reported
            (inputsWith defaultSkipBranches "0" "false") Demo.context Demo.clock
            Demo.tightWorld (inr Demo.defaultRules)).
  - vm_compute. reflexivity.
  - reflexivity.
Defined.

(** ** Decisions for one branch (claims C2, C3, C7) *)

Ltac unfold_commands :=
  unfold processBranch, examine, throttle, deleteOrReport, checkUnmerged,
    checkOpenPRs, isSafeToProceedWithApiCalls, getProcessedCount,
    recordDeletion, countProcessed, tryCatch, bind, await, info, warning,
    emit, continue, break, throw, ret.

(** Evaluate, leaving the tests as they are written. *)
Ltac run := cbn -[Nat.ltb Z.ltb Z.leb isStale existsb String.eqb isExcluded].

(** Use what is known of the client's answer at the call that blocks the
    evaluation, and of the test on that answer. *)
Ltac answer_with H :=
  match type of H with
  | answers ?f _ =>
      let a := fresh "a" in let E := fresh "E" in let P := fresh "P" in
      match goal with
      | |- context [on_repos_getCommit ?o ?h ?x ?y ?z] =>
          unify f (fun past => on_repos_getCommit o past x y z);
          destruct (H h) as (a & E & P)
      | |- context [on_pulls_list_open ?o ?h ?x ?y ?z] =>
          unify f (fun past => on_pulls_list_open o past x y z);
          destruct (H h) as (a & E & P)
      | |- context [on_pulls_list_all ?o ?h ?x ?y ?z] =>
          unify f (fun past => on_pulls_list_all o past x y z);
          destruct (H h) as (a & E & P)
      | |- context [on_repos_compareCommits ?o ?h ?x ?y ?z ?w] =>
          unify f (fun past => on_repos_compareCommits o past x y z w);
          destruct (H h) as (a & E & P)
      | |- context [on_git_deleteRef ?o ?h ?x ?y ?z] =>
          unify f (fun past => on_git_deleteRef o past x y z);
          destruct (H h) as (a & E & P)
      end;
      cbv beta in E, P; rewrite E; clear E; run;
      lazymatch type of P with
      | _ = _ => rewrite P; run
      | _ = _ /\ _ = _ =>
          let P1 := fresh "P" in let P2 := fresh "P" in
          destruct P as [P1 P2]; rewrite P1, P2; run
      | _ => idtac
      end
  end.

(** The evaluation has reached its end: name the final state and the
    stretch of trace, and check what is said of them. *)
Ltac close_run :=
  eexists _, _; split; [reflexivity|]; cbn;
  split; [rewrite <- !app_assoc; cbn; reflexivity|];
  first [ done | split; [|done]; cbn; tauto ].

(** The first steps of an iteration for a branch that is examined: the
    guard, the cap, the name and the three checks of lines 159 to 187. *)
Ltac pass_guard octokit st Hq Hcap Hd Hp He :=
  unfold_commands;
  destruct (on_rateLimit_get octokit (trace st)); run; [rewrite Hq; run|];
  (rewrite Hcap, Hd, Hp, He; run).

Section Decisions.

Variable octokit : Octokit.
Variable cfg : Config.
Variable b : Branch.

Lemma answers_and {A} (f : History -> Response A) (P Q : A -> Prop) :
  answers f P -> answers f Q -> answers f (fun a => P a /\ Q a).
Proof.
  intros HP HQ h. destruct (HP h) as (a & E & Pa), (HQ h) as (a' & E' & Qa).
  rewrite E in E'. injection E' as <-. eauto.
Qed.

(** C2, as amended: with the open-pull-request check or the
    unmerged-commit check enabled, a stale branch that is ahead of the
    default branch and is the head of an open pull request is skipped,
    whatever [includeClosedPRs] is: the iteration ends with [continue],
    logs a "Skipping" line, issues no delete-ref call and leaves the list
    and the counters unchanged. *)
Theorem open_pull_request_blocks_deletion st :
  Eligible cfg b -> GuardPasses octokit cfg st ->
  processedCount st < maxBranchesToDelete cfg ->
  StaleCommit octokit cfg b -> HasOpenPull octokit cfg b ->
  AheadBy octokit cfg b (fun n => (0 <? n) = true) ->
  skipOpenPRs cfg = true \/ skipUmerged cfg = true ->
  Skipped octokit cfg b st isSkipLine.
Proof.
  intros (Hd & Hp & He) Hq Hcap%Z.leb_gt Hs [Ho Ha] Hah Hflags.
  unfold GuardPasses, StaleCommit, AheadBy, OpenListing, AllListing in *.
  unfold Skipped.
  pass_guard octokit st Hq Hcap Hd Hp He;
    answer_with Hs;
    (destruct (skipOpenPRs cfg) eqn:Eo;
     [ answer_with Ho; close_run
     | destruct Hflags as [?|Hu]; [done|]; rewrite Hu; run;
       answer_with Hah;
       destruct (includeClosedPRs cfg);
       [ answer_with Ha; close_run | run; close_run ] ]).
Qed.

(** From the open-pull-request check to the end of the iteration, for a
    branch that gets to the deletion step. *)
Ltac to_deletion cfg Ho Hu Hah Hi Hac Hdry :=
  destruct (skipOpenPRs cfg) eqn:?; run;
  [ answer_with Ho | ];
  (rewrite Hu; run; answer_with Hah; rewrite Hi; run;
   answer_with Hac; rewrite Hdry; run).

(** C3, as amended: a stale branch that is ahead of the default branch,
    has no open pull request and has a pull request closed without a merge,
    with the unmerged-commit check enabled: with [includeClosedPRs] the
    branch goes on to the deletion step, where it is deleted when the pass
    is not a dry run, and reported as would-delete and counted when it is;
    without [includeClosedPRs] the branch is skipped. *)
Theorem closed_unmerged_pull_request_overrides st :
  Eligible cfg b -> GuardPasses octokit cfg st ->
  processedCount st < maxBranchesToDelete cfg ->
  StaleCommit octokit cfg b -> NoOpenPull octokit cfg b ->
  HasClosedUnmergedPull octokit cfg b ->
  AheadBy octokit cfg b (fun n => (0 <? n) = true) ->
  skipUmerged cfg = true ->
  (includeClosedPRs cfg = true -> dryRun cfg = false ->
   DeleteSucceeds octokit cfg b -> DeletedNow octokit cfg b st)
  /\ (includeClosedPRs cfg = true -> dryRun cfg = true ->
      WouldDelete octokit cfg b st)
  /\ (includeClosedPRs cfg = false -> Skipped octokit cfg b st isSkipLine).
Proof.
  intros (Hd & Hp & He) Hq Hcap%Z.leb_gt Hs [Ho Ha] Hc Hah Hu.
  pose proof (answers_and _ _ _ Ha Hc) as Hac.
  unfold GuardPasses, StaleCommit, AheadBy, OpenListing, AllListing,
    DeleteSucceeds in *.
  split_and!.
  - intros Hi Hdry Hdel. unfold DeletedNow.
    pass_guard octokit st Hq Hcap Hd Hp He;
      answer_with Hs;
      to_deletion cfg Ho Hu Hah Hi Hac Hdry;
      answer_with Hdel;
      destruct (0 <? processThrottleMs cfg); run; close_run.
  - intros Hi Hdry. unfold WouldDelete.
    pass_guard octokit st Hq Hcap Hd Hp He;
      answer_with Hs;
      to_deletion cfg Ho Hu Hah Hi Hac Hdry;
      destruct (0 <? processThrottleMs cfg); run; close_run.
  - intros Hi. unfold Skipped.
    pass_guard octokit st Hq Hcap Hd Hp He;
      answer_with Hs;
      (destruct (skipOpenPRs cfg) eqn:Eo; run; [ answer_with Ho | ]);
      (rewrite Hu; run; answer_with Hah; rewrite Hi; run; close_run).
Qed.

(** One iteration for a stale branch with nothing unmerged and no open
    pull request in the way. *)
Lemma merged_stale_branch_deleted_now st :
  Eligible cfg b -> GuardPasses octokit cfg st ->
  processedCount st < maxBranchesToDelete cfg ->
  StaleCommit octokit cfg b ->
  skipOpenPRs cfg = false
  \/ OpenListing octokit cfg b (fun prs => (0 <? length prs)%nat = false) ->
  skipUmerged cfg = false \/ AheadBy octokit cfg b (fun n => (0 <? n) = false) ->
  dryRun cfg = false -> DeleteSucceeds octokit cfg b ->
  DeletedNow octokit cfg b st.
Proof.
  intros (Hd & Hp & He) Hq Hcap%Z.leb_gt Hs Ho Hah Hdry Hdel.
  unfold GuardPasses, StaleCommit, AheadBy, OpenListing, DeleteSucceeds in *.
  unfold DeletedNow.
  assert (skipOpenPRs cfg = true ->
          answers (fun h => on_pulls_list_open octokit h (owner cfg) (repo cfg)
                              (headOf cfg b))
                  (fun prs => (0 <? length prs)%nat = false)) as Ho'
    by (intros E; destruct Ho as [?|?]; [congruence|done]).
  assert (skipUmerged cfg = true ->
          answers (fun h => on_repos_compareCommits octokit h (owner cfg) (repo cfg)
                              (defaultBranch cfg) (name b))
                  (fun n => (0 <? n) = false)) as Hah'
    by (intros E; destruct Hah as [?|?]; [congruence|done]).
  clear Ho Hah.
  pass_guard octokit st Hq Hcap Hd Hp He;
    answer_with Hs;
    (destruct (skipOpenPRs cfg); run;
     [ specialize (Ho' eq_refl); answer_with Ho' | ]);
    (destruct (skipUmerged cfg); run;
     [ specialize (Hah' eq_refl); answer_with Hah' | ]);
    (rewrite Hdry; run; answer_with Hdel;
     destruct (0 <? processThrottleMs cfg); run; close_run).
Qed.

Lemma iterate_app pre rest st0 st1 :
  iterate octokit cfg pre st0 = (Normal tt, st1) ->
  iterate octokit cfg (pre ++ rest) st0 = iterate octokit cfg rest st1.
Proof.
  revert st0. induction pre as [|p pre IH]; intros st0 H; cbn in *.
  - by injection H as <-.
  - destruct (processBranch octokit cfg p st0) as [[[]| | |e] ?]; try done; auto.
Qed.

(** C7, as amended: a branch that is listed once, is not the default
    branch, not protected and not excluded, whose last commit is strictly
    older than [staleDays] days, that is not ahead of the default branch
    (or the unmerged-commit check is off) and has no open pull request
    (or the open-pull-request check is off), is deleted by a pass that is
    not a dry run, reaches the branch and meets no error there; whatever
    happens after it, the delete-ref call is in the trace and the name is
    in the list of deleted branches exactly once. *)
Theorem merged_stale_branch_deleted_once pre post st0 st1 r st' :
  Eligible cfg b -> StaleCommit octokit cfg b ->
  skipOpenPRs cfg = false
  \/ OpenListing octokit cfg b (fun prs => (0 <? length prs)%nat = false) ->
  skipUmerged cfg = false \/ AheadBy octokit cfg b (fun n => (0 <? n) = false) ->
  dryRun cfg = false -> DeleteSucceeds octokit cfg b ->
  (name b ∉ map name pre) -> (name b ∉ map name post) ->
  (name b ∉ outputDeletedBranches st0) ->
  iterate octokit cfg pre st0 = (Normal tt, st1) ->
  GuardPasses octokit cfg st1 ->
  processedCount st1 < maxBranchesToDelete cfg ->
  iterate octokit cfg (pre ++ b :: post) st0 = (r, st') ->
  In (Api (git_deleteRef (owner cfg) (repo cfg) (refOf b))) (trace st')
  /\ exists l1 l2,
       outputDeletedBranches st' = l1 ++ name b :: l2
       /\ (name b ∉ l1) /\ (name b ∉ l2).
Proof.
  intros El Hs Ho Hah Hdry Hdel Npre Npost Nout Hpre Hq Hcap Hrun.
  rewrite (iterate_app _ _ _ _ Hpre) in Hrun. cbn in Hrun.
  destruct (merged_stale_branch_deleted_now st1 El Hq Hcap Hs Ho Hah Hdry Hdel)
    as (st2 & ev2 & E2 & T2 & I2 & O2 & _).
  rewrite E2 in Hrun.
  destruct (iterate_effect _ _ _ _ _ _ Hpre)
    as (ev1 & a1 & [T1 O1 _ _ _] & _ & S1 & R1 & _).
  destruct (iterate_effect _ _ _ _ _ _ Hrun)
    as (ev3 & a3 & [T3 O3 _ _ _] & _ & S3 & R3 & _).
  split.
  - rewrite T3, T2. apply in_or_app. left. apply in_or_app. by right.
  - exists (outputDeletedBranches st0 ++ a1), a3. split_and!.
    + rewrite O3, O2, O1, <- !app_assoc. done.
    + apply not_elem_of_app. split; [done|].
      intros Hin. apply Npre. eapply elem_of_sublist; [exact Hin|by etrans].
    + intros Hin. apply Npost. eapply elem_of_sublist; [exact Hin|by etrans].
Qed.

End Decisions.

(** *** Concrete runs for the three claims *)

Lemma answers_const {A} (a : A) (P : A -> Prop) : P a -> answers (fun _ => Resolved a) P.
Proof. intros Pa h. by exists a. Qed.

(** C2, counterexample: with both checks switched off, the stale branch
    [wip] of the demo repository, two commits ahead of [main] and head of
    an open pull request, is deleted. *)
Lemma open_pull_request_deleted_when_checks_off :
  let cfg := mkConfig 90 false false true 500 0 100 false false Demo.clock
               Demo.defaultRules "octo" "demo" "main" in
  isStale (Demo.commitDateOf (commit_sha Demo.wip)) (now cfg) (staleDays cfg) = true
  /\ Demo.openPullsOf (headOf cfg Demo.wip) = [mkPull open None]
  /\ Demo.aheadOf (name Demo.wip) = 2
  /\ processBranch Demo.world cfg Demo.wip initialState =
     (Normal tt,
      mkState [Api rateLimit_get; Info (BranchName "wip");
               Api (repos_getCommit "octo" "demo" "c4");
               Info (StaleBranch (Some 1157));
               Api (git_deleteRef "octo" "demo" "heads/wip");
               Info Deleted]
              ["wip"] 1 1).
Proof. repeat split; vm_compute; reflexivity. Qed.

Lemma open_pull_request_blocks_deletion_witness :
  Skipped Demo.world (Demo.config 0 false) Demo.wip initialState isSkipLine.
Proof.
  apply (open_pull_request_blocks_deletion Demo.world (Demo.config 0 false)
           Demo.wip initialState).
  - repeat split; vm_compute; reflexivity.
  - reflexivity.
  - vm_compute. reflexivity.
  - apply (answers_const (Some Demo.longAgo)). reflexivity.
  - split; apply (answers_const [mkPull open None]); reflexivity.
  - apply (answers_const 2). reflexivity.
  - left. reflexivity.
Defined.

(** C3, counterexample: in a dry run the abandoned branch, stale, three
    commits ahead of [main], with no open pull request and one closed
    without a merge, passes lines 220 to 256 with [includeClosedPRs] on and
    is only reported: no delete-ref call, nothing in the list. *)
Lemma closed_unmerged_pull_request_dry_run :
  let cfg := Demo.config 0 true in
  skipUmerged cfg = true /\ includeClosedPRs cfg = true /\ dryRun cfg = true
  /\ processBranch abandonedWorld cfg abandoned initialState =
     (Normal tt,
      mkState [Api rateLimit_get; Info (BranchName "abandoned");
               Api (repos_getCommit "octo" "demo" "c9");
               Info (StaleBranch (Some 1157));
               Api (pulls_list_open "octo" "demo" "octo:abandoned");
               Api (repos_compareCommits "octo" "demo" "main" "abandoned");
               Api (pulls_list_all "octo" "demo" "octo:abandoned");
               Info (IncludeClosedUnmerged 3 "main");
               Info DryRunWouldDelete]
              [] 0 1).
Proof. repeat split; vm_compute; reflexivity. Qed.

Lemma closed_unmerged_pull_request_overrides_witness :
  DeletedNow abandonedWorld (Demo.config 0 false) abandoned initialState.
Proof.
  apply (closed_unmerged_pull_request_overrides abandonedWorld (Demo.config 0 false)
           abandoned initialState).
  - repeat split; vm_compute; reflexivity.
  - reflexivity.
  - vm_compute. reflexivity.
  - apply (answers_const (Some Demo.longAgo)). reflexivity.
  - split.
    + apply (answers_const []). reflexivity.
    + apply (answers_const [mkPull closed None]). reflexivity.
  - apply (answers_const [mkPull closed None]). reflexivity.
  - apply (answers_const 3). reflexivity.
  - reflexivity.
  - reflexivity.
  - reflexivity.
  - apply (answers_const tt). exact I.
Defined.

(** C7, counterexample.  A branch whose last commit is exactly 90 days old,
    with [staleDays = 90], is classified active and kept; and a stale
    branch that is not ahead of the default branch but is the head of an
    open pull request is skipped.  Neither is deleted. *)
Lemma merged_stale_branch_not_deleted :
  let cfg := Demo.config 0 false in
  let exactly90 := uniformClient (Some (Demo.clock - 90 * msPerDay)) [] [] 0 in
  let withOpenPull :=
    uniformClient (Some Demo.longAgo) [mkPull open None] [mkPull open None] 0 in
  daysSinceCommit (now cfg) (Some (Demo.clock - 90 * msPerDay)) = Some (staleDays cfg)
  /\ processBranch exactly90 cfg Demo.old initialState =
     (Normal tt,
      mkState [Api rateLimit_get; Info (BranchName "old");
               Api (repos_getCommit "octo" "demo" "c6");
               Info (ActiveBranch (Some 90))]
              [] 0 0)
  /\ processBranch withOpenPull cfg Demo.old initialState =
     (Continue,
      mkState [Api rateLimit_get; Info (BranchName "old");
               Api (repos_getCommit "octo" "demo" "c6");
               Info (StaleBranch (Some 1157));
               Api (pulls_list_open "octo" "demo" "octo:old");
               Info (SkipOpenPRs 1)]
              [] 0 0).
Proof. repeat split; vm_compute; reflexivity. Qed.

Lemma merged_stale_branch_deleted_once_witness :
  exists st',
    In (Api (git_deleteRef "octo" "demo" "heads/old")) (trace st')
    /\ exists l1 l2,
         outputDeletedBranches st' = l1 ++ "old" :: l2
         /\ ("old" ∉ l1) /\ ("old" ∉ l2).
Proof.
  exists (snd (iterate Demo.world (Demo.config 0 false) Demo.branches initialState)).
  apply (merged_stale_branch_deleted_once Demo.world (Demo.config 0 false) Demo.old
           [Demo.main_; Demo.prod; Demo.kept; Demo.fresh; Demo.wip; Demo.spike]
           [Demo.older; Demo.oldest]
           initialState
           (snd (iterate Demo.world (Demo.config 0 false)
                   [Demo.main_; Demo.prod; Demo.kept; Demo.fresh; Demo.wip; Demo.spike]
                   initialState))
           (fst (iterate Demo.world (Demo.config 0 false) Demo.branches initialState))).
  - repeat split; vm_compute; reflexivity.
  - apply (answers_const (Some Demo.longAgo)). reflexivity.
  - right. apply (answers_const []). reflexivity.
  - right. apply (answers_const 0). reflexivity.
  - reflexivity.
  - apply (answers_const tt). exact I.
  - intros H%list_elem_of_In. cbn in H. intuition discriminate.
  - intros H%list_elem_of_In. cbn in H. intuition discriminate.
  - apply not_elem_of_nil.
  - vm_compute. reflexivity.
  - reflexivity.
  - vm_compute. reflexivity.
  - apply surjective_pairing.
Defined.

(** ** Dry runs (claim C4) *)

Section DryRuns.

Variable octokit : Octokit.
Variable cfg : Config.

(** One iteration of a dry run for a stale branch with nothing unmerged
    and no open pull request in the way. *)
Lemma merged_stale_branch_would_delete b st :
  dryRun cfg = true ->
  Eligible cfg b -> GuardPasses octokit cfg st ->
  processedCount st < maxBranchesToDelete cfg ->
  StaleCommit octokit cfg b ->
  skipOpenPRs cfg = false
  \/ OpenListing octokit cfg b (fun prs => (0 <? length prs)%nat = false) ->
  skipUmerged cfg = false \/ AheadBy octokit cfg b (fun n => (0 <? n) = false) ->
  WouldDelete octokit cfg b st.
Proof.
  intros Hdry (Hd & Hp & He) Hq Hcap%Z.leb_gt Hs Ho Hah.
  unfold GuardPasses, StaleCommit, AheadBy, OpenListing in *.
  unfold WouldDelete.
  assert (skipOpenPRs cfg = true ->
          answers (fun h => on_pulls_list_open octokit h (owner cfg) (repo cfg)
                              (headOf cfg b))
                  (fun prs => (0 <? length prs)%nat = false)) as Ho'
    by (intros E; destruct Ho as [?|?]; [congruence|done]).
  assert (skipUmerged cfg = true ->
          answers (fun h => on_repos_compareCommits octokit h (owner cfg) (repo cfg)
                              (defaultBranch cfg) (name b))
                  (fun n => (0 <? n) = false)) as Hah'
    by (intros E; destruct Hah as [?|?]; [congruence|done]).
  clear Ho Hah.
  pass_guard octokit st Hq Hcap Hd Hp He;
    answer_with Hs;
    (destruct (skipOpenPRs cfg); run;
     [ specialize (Ho' eq_refl); answer_with Ho' | ]);
    (destruct (skipUmerged cfg); run;
     [ specialize (Hah' eq_refl); answer_with Hah' | ]);
    (rewrite Hdry; run;
     destruct (0 <? processThrottleMs cfg); run; close_run).
Qed.

(** With the counter at the cap and the guard passed, the iteration ends
    with [break]. *)
Lemma processBranch_break b st :
  GuardPasses octokit cfg st ->
  maxBranchesToDelete cfg <= processedCount st ->
  fst (processBranch octokit cfg b st) = Break.
Proof.
  intros Hq Hcap%Z.leb_le. unfold GuardPasses in Hq. unfold_commands.
  destruct (on_rateLimit_get octokit (trace st)); run; [rewrite Hq; run|];
    rewrite Hcap; reflexivity.
Qed.

(** C4: in a dry run,
    - whatever the listing and the answers of the client, a pass issues no
      delete-ref call and leaves the list of deleted branches and the
      deletion count as they were, while the counter of the loop goes up
      by one for each would-delete report and, started within the cap,
      stays within it;
    - the iteration for a stale branch with nothing in the way, reached
      below the cap, reports the branch as would-delete and adds one to
      the counter, and the loop goes on with the next branch from there;
    - once the counter is at the cap, the loop is left at the next branch,
      before that branch is logged or counted: with [break], or with the
      failure of the rate-limit guard, which is checked first. *)
Theorem dry_run_deletes_nothing_and_counts :
  dryRun cfg = true ->
  (forall branches st r st',
     iterate octokit cfg branches st = (r, st') ->
     exists ev,
       trace st' = trace st ++ ev
       /\ forallb (fun e => negb (isDeleteCall e)) ev = true
       /\ outputDeletedBranches st' = outputDeletedBranches st
       /\ deletedCount st' = deletedCount st
       /\ processedCount st' = processedCount st + countWouldDelete ev
       /\ (processedCount st <= maxBranchesToDelete cfg ->
           processedCount st' <= maxBranchesToDelete cfg))
  /\ (forall b rest st,
        Eligible cfg b -> GuardPasses octokit cfg st ->
        processedCount st < maxBranchesToDelete cfg ->
        StaleCommit octokit cfg b ->
        skipOpenPRs cfg = false
        \/ OpenListing octokit cfg b (fun prs => (0 <? length prs)%nat = false) ->
        skipUmerged cfg = false \/ AheadBy octokit cfg b (fun n => (0 <? n) = false) ->
        WouldDelete octokit cfg b st
        /\ iterate octokit cfg (b :: rest) st
           = iterate octokit cfg rest (snd (processBranch octokit cfg b st)))
  /\ (forall b rest st r st',
        maxBranchesToDelete cfg <= processedCount st ->
        iterate octokit cfg (b :: rest) st = (r, st') ->
        (r = Break \/ r = Throw rateLimitError)
        /\ (GuardPasses octokit cfg st -> r = Break)
        /\ processedCount st' = processedCount st
        /\ exists ev, trace st' = trace st ++ ev
                      /\ reached ev = [] /\ countWouldDelete ev = 0).
Proof.
  intros Dry. split_and!.
  - intros branches st r st' H.
    destruct (iterate_effect _ _ _ _ _ _ H)
      as (ev & added & [T O R D P] & [Md _] & _ & _ & _ & C).
    specialize (Md Dry).
    rewrite (resolvedFrom_no_delete _ _ _ Md) in R.
    apply map_eq_nil in R as ->.
    exists ev. rewrite app_nil_r in O. simpl in D, P.
    split_and!; try done; lia.
  - intros b rest st El Hq Hcap Hs Ho Hah.
    pose proof (merged_stale_branch_would_delete b st Dry El Hq Hcap Hs Ho Hah) as W.
    split; [exact W|].
    destruct W as (st1 & ev & E & _). cbn [iterate]. by rewrite E.
  - intros b rest st r st' Cap H. cbn [iterate] in H.
    pose proof (processBranch_break b st) as Hbreak.
    destruct (processBranch octokit cfg b st) as [r1 s1] eqn:Hb.
    destruct (processBranch_at_cap _ _ _ _ _ _ Cap Hb)
      as (Hr & Hp & ev & T & R & W & _).
    assert (r = r1 /\ st' = s1) as [-> ->]
      by (destruct Hr as [-> | ->]; by injection H as <- <-).
    split_and!; eauto.
Qed.

End DryRuns.

(** A dry run of the demo repository with a cap of two: [old] and [older]
    are reported and counted, and the loop is left at [oldest]. *)
Lemma dry_run_deletes_nothing_and_counts_witness :
  (exists ev,
     trace (snd (iterate Demo.world Demo.cappedDryRun Demo.branches initialState))
     = trace initialState ++ ev
     /\ forallb (fun e => negb (isDeleteCall e)) ev = true
     /\ outputDeletedBranches
          (snd (iterate Demo.world Demo.cappedDryRun Demo.branches initialState))
        = outputDeletedBranches initialState
     /\ deletedCount (snd (iterate Demo.world Demo.cappedDryRun Demo.branches initialState))
        = deletedCount initialState
     /\ processedCount (snd (iterate Demo.world Demo.cappedDryRun Demo.branches initialState))
        = processedCount initialState + countWouldDelete ev
     /\ (processedCount initialState <= maxBranchesToDelete Demo.cappedDryRun ->
         processedCount (snd (iterate Demo.world Demo.cappedDryRun Demo.branches initialState))
         <= maxBranchesToDelete Demo.cappedDryRun))
  /\ fst (iterate Demo.world Demo.cappedDryRun Demo.branches initialState) = Break
  /\ processedCount (snd (iterate Demo.world Demo.cappedDryRun Demo.branches initialState))
     = 2
  /\ reached (trace (snd (iterate Demo.world Demo.cappedDryRun Demo.branches initialState)))
     = ["main"; "prod"; "keep-alive-1"; "fresh"; "wip"; "spike"; "old"; "older"]
  /\ (WouldDelete Demo.world Demo.cappedDryRun Demo.old initialState
      /\ iterate Demo.world Demo.cappedDryRun [Demo.old; Demo.older; Demo.oldest] initialState
         = iterate Demo.world Demo.cappedDryRun [Demo.older; Demo.oldest]
             (snd (processBranch Demo.world Demo.cappedDryRun Demo.old initialState)))
  /\ fst (iterate Demo.world Demo.cappedDryRun [Demo.oldest; Demo.old] (mkState [] [] 0 2))
     = Break.
Proof.
  destruct (dry_run_deletes_nothing_and_counts Demo.world Demo.cappedDryRun eq_refl)
    as (Pass & Counted & AtCap).
  split; [|split; [|split; [|split; [|split]]]].
  - apply (Pass Demo.branches initialState
             (fst (iterate Demo.world Demo.cappedDryRun Demo.branches initialState))).
    apply surjective_pairing.
  - reflexivity.
  - reflexivity.
  - reflexivity.
  - apply (Counted Demo.old [Demo.older; Demo.oldest] initialState).
    + repeat split; vm_compute; reflexivity.
    + reflexivity.
    + vm_compute. reflexivity.
    + apply (answers_const (Some Demo.longAgo)). reflexivity.
    + right. apply (answers_const []). reflexivity.
    + right. apply (answers_const 0). reflexivity.
  - assert (maxBranchesToDelete Demo.cappedDryRun <= processedCount (mkState [] [] 0 2))
      as Hcap by (vm_compute; intros H; discriminate H).
    destruct (AtCap Demo.oldest [Demo.old] (mkState [] [] 0 2) _ _ Hcap
                (surjective_pairing _)) as (_ & G & _).
    apply G. reflexivity.
Defined.

(** ** Where wildcard entries do behave as the specification says *)

Lemma parse_plain_char stack cur c s :
  RegExp.isSyntaxCharacter c = false ->
  RegExp.parse stack cur (String c s) =
  RegExp.parse stack (RegExp.pushTerm cur (RegExp.Char c) RegExp.Atom) s.
Proof.
  destruct c as [[] [] [] [] [] [] [] []]; intros H; try discriminate H; reflexivity.
Qed.

Lemma alternative_rev (ts : list (RegExp.regex * RegExp.termKind)) acc :
  fold_left (fun a t => RegExp.Cat (fst t) a) ts acc =
  fold_right RegExp.Cat acc (rev (map fst ts)).
Proof.
  revert acc. induction ts as [|t ts IH]; intros acc; [done|].
  cbn. rewrite IH, fold_right_app. done.
Qed.

Lemma parse_plain_entry entry ts :
  plainEntry entry = true ->
  RegExp.parse [] (RegExp.Frame [] ts) (Js.replace_star entry +:+ "$") =
  RegExp.Compiled
    (RegExp.alternative
       ((RegExp.Eol, RegExp.Assertion)
        :: rev (map (fun r => (r, kindOf r)) (termsOf entry)) ++ ts)).
Proof.
  revert ts. induction entry as [|c entry IH]; intros ts H; [done|].
  cbn [plainEntry] in H. apply andb_true_iff in H as [Hc He].
  cbn [Js.replace_star termsOf map rev].
  destruct (Ascii.eqb_spec c "*"%char) as [->|Hne].
  - change (String "." (String "*" (Js.replace_star entry)) +:+ "$")
      with (String "." (String "*" (Js.replace_star entry +:+ "$"))).
    rewrite <- app_assoc.
    change (RegExp.parse [] (RegExp.Frame [] ts)
              (String "." (String "*" (Js.replace_star entry +:+ "$"))))
      with (RegExp.parse []
              (RegExp.Frame [] ((RegExp.Star RegExp.Dot, RegExp.Quantified) :: ts))
              (Js.replace_star entry +:+ "$")).
    apply (IH _ He).
  - cbn in Hc. apply negb_true_iff in Hc.
    change (String c (Js.replace_star entry) +:+ "$")
      with (String c (Js.replace_star entry +:+ "$")).
    rewrite (parse_plain_char _ _ _ _ Hc), <- app_assoc.
    apply (IH _ He).
Qed.

Lemma new_plain_entry entry :
  plainEntry entry = true ->
  RegExp.new (patternSource entry) =
  RegExp.Compiled
    (RegExp.Cat RegExp.Bol
       (sequence (termsOf entry) (RegExp.Cat RegExp.Eol RegExp.Empty))).
Proof.
  intros H. unfold RegExp.new, patternSource.
  change (RegExp.parse [] RegExp.emptyFrame
            ("^" +:+ Js.replace_star entry +:+ "$"))
    with (RegExp.parse [] (RegExp.Frame [] [(RegExp.Bol, RegExp.Assertion)])
            (Js.replace_star entry +:+ "$")).
  rewrite (parse_plain_entry _ _ H). f_equal.
  unfold RegExp.alternative. rewrite alternative_rev. cbn [map fst rev].
  rewrite map_app, rev_app_distr, map_rev, rev_involutive, map_map. cbn.
  rewrite map_id. unfold sequence. rewrite fold_right_app. done.
Qed.

Lemma specMatches_star entry name :
  specMatches (String "*" entry) name = anySuffix (specMatches entry) name.
Proof.
  cbn [specMatches]. change (Ascii.eqb "*" "*") with true. cbv iota.
  induction name as [|d name IH]; [done|].
  cbn [anySuffix]. rewrite <- IH. done.
Qed.

Lemma anySuffix_ext (f g : string -> bool) s :
  (forall t, noLineTerminator t = true -> f t = g t) ->
  noLineTerminator s = true -> anySuffix f s = anySuffix g s.
Proof.
  intros H. induction s as [|d s IH]; intros Hs; cbn [anySuffix].
  - by rewrite (H EmptyString Hs).
  - rewrite (H _ Hs). cbn in Hs. apply andb_true_iff in Hs as [_ Hs].
    by rewrite (IH Hs).
Qed.

(** With a name free of line terminators, [.*] consumes any prefix. *)
Lemma repeat_dot (k : RegExp.cont) s fuel at0 :
  noLineTerminator s = true -> (String.length s <= fuel)%nat ->
  (forall a t, k a t = k false t) ->
  RegExp.repeat (RegExp.run RegExp.Dot) fuel at0 s k = anySuffix (k false) s.
Proof.
  intros Hs Hf Hk. revert fuel at0 Hf.
  induction s as [|d s IH]; intros fuel at0 Hf.
  - destruct fuel; cbn; rewrite Hk; by rewrite ?orb_false_r.
  - cbn in Hs. apply andb_true_iff in Hs as [Hd Hs].
    destruct fuel as [|fuel]; [cbn in Hf; lia|].
    cbn [RegExp.repeat RegExp.run anySuffix]. rewrite Hd, (Hk at0). cbn [andb negb].
    assert ((String.length s <? String.length (String d s))%nat = true) as ->
      by (apply Nat.ltb_lt; cbn; lia).
    cbn [andb]. rewrite (IH Hs); [done|]. cbn in Hf. lia.
Qed.

Lemma repeat_dot_at0 (k : RegExp.cont) s fuel at0 :
  (forall a t, k a t = k false t) ->
  RegExp.repeat (RegExp.run RegExp.Dot) fuel at0 s k =
  RegExp.repeat (RegExp.run RegExp.Dot) fuel false s k.
Proof. intros Hk. destruct fuel; cbn; by rewrite (Hk at0). Qed.

(** The terms of an entry hold no [^]: where the match starts does not
    matter to them. *)
Lemma run_terms_at0 entry at0 t :
  RegExp.run (sequence (termsOf entry) (RegExp.Cat RegExp.Eol RegExp.Empty))
    at0 t (fun _ _ => true)
  = RegExp.run (sequence (termsOf entry) (RegExp.Cat RegExp.Eol RegExp.Empty))
      false t (fun _ _ => true).
Proof.
  revert at0 t. induction entry as [|c entry IH]; intros at0 t.
  - by destruct t.
  - cbn [termsOf sequence fold_right]. destruct (Ascii.eqb c "*"%char).
    + cbn [RegExp.run]. apply repeat_dot_at0. intros a u. apply IH.
    + reflexivity.
Qed.

Lemma run_plain_entry entry name at0 :
  plainEntry entry = true -> noLineTerminator name = true ->
  RegExp.run (sequence (termsOf entry) (RegExp.Cat RegExp.Eol RegExp.Empty))
    at0 name (fun _ _ => true)
  = specMatches entry name.
Proof.
  intros He. revert name at0.
  induction entry as [|c entry IH]; intros name at0 Hn.
  - by destruct name.
  - cbn [plainEntry] in He. apply andb_true_iff in He as [Hc He].
    specialize (IH He).
    destruct (Ascii.eqb_spec c "*"%char) as [->|Hne].
    + rewrite specMatches_star.
      change (RegExp.run (sequence (termsOf (String "*" entry)) ?l) at0 name ?k)
        with (RegExp.repeat (RegExp.run RegExp.Dot) (String.length name) at0 name
                (fun a t => RegExp.run (sequence (termsOf entry) l) a t k)).
      rewrite (repeat_dot _ name (String.length name) at0 Hn (Nat.le_refl _)).
      * apply anySuffix_ext; [|done]. intros t Ht. apply (IH t false Ht).
      * intros a t. apply run_terms_at0.
    + apply Ascii.eqb_neq in Hne. unfold sequence in *.
      cbn [termsOf fold_right specMatches]. rewrite Hne.
      cbn [RegExp.run]. destruct name as [|d name]; [done|].
      cbn in Hn. apply andb_true_iff in Hn as [_ Hn].
      by rewrite (IH name false Hn).
Qed.

Lemma search_anchored r s :
  RegExp.search (RegExp.Cat RegExp.Bol r) false s = false.
Proof. induction s as [|d s IH]; cbn; [done|]. exact IH. Qed.

(** A wildcard entry whose other characters are not pattern syntax is
    compiled, and it matches a name free of line terminators exactly when
    the name is the entry with each [*] replaced by any characters. *)
Lemma plain_wildcard_entry_agrees entry name :
  plainEntry entry = true -> noLineTerminator name = true ->
  exists re,
    RegExp.new (patternSource entry) = RegExp.Compiled re
    /\ RegExp.test re name = specMatches entry name.
Proof.
  intros He Hn. eexists. split; [by apply new_plain_entry|].
  unfold RegExp.test.
  destruct name as [|d name]; cbn [RegExp.search RegExp.run andb].
  - rewrite orb_false_r. by apply run_plain_entry.
  - rewrite search_anchored, orb_false_r.
    apply (run_plain_entry entry (String d name) true He Hn).
Qed.

(** ** Iterations that end with [continue] do not pause *)

Lemma Unpaused_refl st : Unpaused st st.
Proof. exists []. by rewrite app_nil_r. Qed.

Lemma Unpaused_trans st1 st2 st3 :
  Unpaused st1 st2 -> Unpaused st2 st3 -> Unpaused st1 st3.
Proof.
  intros (e1 & T1 & N1) (e2 & T2 & N2). exists (e1 ++ e2).
  by rewrite T2, T1, <- app_assoc, existsb_app, N1, N2.
Qed.

Lemma unpaused_same_trace {A} (c : M A) :
  (forall st r st', c st = (r, st') -> trace st' = trace st) -> unpaused c.
Proof.
  intros H st r st' E. exists []. by rewrite app_nil_r, (H _ _ _ E).
Qed.

Lemma unpaused_ret {A} (a : A) : unpaused (ret a).
Proof. apply unpaused_same_trace. by intros st r st' [= <- <-]. Qed.

Lemma unpaused_continue {A} : unpaused (@continue A).
Proof. apply unpaused_same_trace. by intros st r st' [= <- <-]. Qed.

Lemma unpaused_break {A} : unpaused (@break A).
Proof. apply unpaused_same_trace. by intros st r st' [= <- <-]. Qed.

Lemma unpaused_throw {A} e : unpaused (@throw A e).
Proof. apply unpaused_same_trace. by intros st r st' [= <- <-]. Qed.

Lemma unpaused_getProcessedCount : unpaused getProcessedCount.
Proof. apply unpaused_same_trace. by intros st r st' [= <- <-]. Qed.

Lemma unpaused_recordDeletion n : unpaused (recordDeletion n).
Proof. apply unpaused_same_trace. by intros st r st' [= <- <-]. Qed.

Lemma unpaused_countProcessed : unpaused countProcessed.
Proof. apply unpaused_same_trace. by intros st r st' [= <- <-]. Qed.

Lemma unpaused_info m : unpaused (info m).
Proof. intros st r st' [= <- <-]. by exists [Info m]. Qed.

Lemma unpaused_warning m : unpaused (warning m).
Proof. intros st r st' [= <- <-]. by exists [Warning m]. Qed.

Lemma unpaused_await {A} rq (answer : History -> Response A) :
  unpaused (await rq answer).
Proof.
  intros st r st' H. unfold await in H. exists [Api rq].
  by destruct (answer (trace st)); injection H as <- <-.
Qed.

Lemma unpaused_bind {A B} (c : M A) (k : A -> M B) :
  unpaused c -> (forall a, unpaused (k a)) -> unpaused (bind c k).
Proof.
  intros Hc Hk st r st' H. unfold bind in H.
  destruct (c st) as [[a| | |e] st1] eqn:E; pose proof (Hc _ _ _ E) as U1.
  - eapply Unpaused_trans; [exact U1|]. eapply Hk, H.
  - by injection H as <- <-.
  - by injection H as <- <-.
  - by injection H as <- <-.
Qed.

Lemma unpaused_tryCatch {A} (c : M A) (h : Exn -> M A) :
  unpaused c -> (forall e, unpaused (h e)) -> unpaused (tryCatch c h).
Proof.
  intros Hc Hh st r st' H. unfold tryCatch in H.
  destruct (c st) as [[a| | |e] st1] eqn:E; pose proof (Hc _ _ _ E) as U1.
  - by injection H as <- <-.
  - by injection H as <- <-.
  - by injection H as <- <-.
  - eapply Unpaused_trans; [exact U1|]. eapply Hh, H.
Qed.

Ltac solve_unpaused :=
  repeat first
    [ simple apply unpaused_bind; [|intros ?]
    | simple apply unpaused_tryCatch; [|intros ?]
    | simple apply unpaused_info | simple apply unpaused_warning
    | simple apply unpaused_await
    | simple apply unpaused_ret | simple apply unpaused_continue
    | simple apply unpaused_break | simple apply unpaused_throw
    | simple apply unpaused_getProcessedCount
    | simple apply unpaused_recordDeletion
    | simple apply unpaused_countProcessed
    | head_case ].

Lemma unpausedUnlessNormal_of {A} (c : M A) : unpaused c -> unpausedUnlessNormal c.
Proof. intros Hc st r st' H _. eapply Hc, H. Qed.

Lemma unpausedUnlessNormal_bind {A B} (c : M A) (k : A -> M B) :
  unpaused c -> (forall a, unpausedUnlessNormal (k a)) ->
  unpausedUnlessNormal (bind c k).
Proof.
  intros Hc Hk st r st' H Hr. unfold bind in H.
  destruct (c st) as [[a| | |e] st1] eqn:E; pose proof (Hc _ _ _ E) as U1.
  - eapply Unpaused_trans; [exact U1|]. by eapply Hk.
  - by injection H as <- <-.
  - by injection H as <- <-.
  - by injection H as <- <-.
Qed.

Section Pauses.

Variable octokit : Octokit.
Variable cfg : Config.

Lemma examine_unpaused b : unpaused (examine octokit cfg b).
Proof.
  unfold examine, checkOpenPRs, checkUnmerged, deleteOrReport. solve_unpaused.
Qed.

Lemma throttle_completes st : exists st', throttle cfg st = (Normal tt, st').
Proof.
  unfold throttle, bind, info, emit. destruct (0 <? processThrottleMs cfg); eauto.
Qed.

Lemma examine_then_throttle b :
  unpausedUnlessNormal (examine octokit cfg b ;; throttle cfg).
Proof.
  intros st r st' H Hr. unfold bind in H.
  destruct (examine octokit cfg b st) as [[[]| | |e] st1] eqn:E;
    pose proof (examine_unpaused _ _ _ _ E) as U1;
    try (by injection H as <- <-).
  destruct (throttle_completes st1) as (st2 & E2). rewrite E2 in H.
  injection H as <- <-. by destruct (Hr tt).
Qed.

(** Whatever the client answers, an iteration that ends with [continue]
    (the default branch, a protected or excluded branch, a branch with an
    open pull request or with unmerged commits, an error that is passed
    over) has not paused. *)
Lemma continue_skips_the_pause b st st' :
  processBranch octokit cfg b st = (Continue, st') ->
  exists ev, trace st' = trace st ++ ev /\ existsb isSleep ev = false.
Proof.
  intros H.
  assert (unpausedUnlessNormal (processBranch octokit cfg b)) as U.
  { unfold processBranch, isSafeToProceedWithApiCalls.
    repeat first
      [ simple apply examine_then_throttle
      | simple apply unpausedUnlessNormal_bind; [solve [solve_unpaused] | intros ?]
      | head_case
      | simple apply unpausedUnlessNormal_of; solve [solve_unpaused] ]. }
  apply (U _ _ _ H). done.
Qed.

End Pauses.

(** ** Text: reversal, splitting and trimming *)

Lemma append_cons c a b : String c a +:+ b = String c (a +:+ b).
Proof. reflexivity. Qed.

Lemma append_nil_r s : s +:+ EmptyString = s.
Proof. induction s as [|c s IH]; [done|]. by rewrite append_cons, IH. Qed.

Lemma append_assoc a b c : (a +:+ b) +:+ c = a +:+ (b +:+ c).
Proof. induction a as [|x a IH]; [done|]. by rewrite !append_cons, IH. Qed.

Lemma rev_app_spec s acc : String.rev_app s acc = String.rev s +:+ acc.
Proof.
  unfold String.rev. revert acc. induction s as [|c s IH]; intros acc; [done|].
  cbn [String.rev_app]. rewrite IH, (IH (String c EmptyString)), append_assoc. done.
Qed.

Lemma rev_cons c s : String.rev (String c s) = String.rev s +:+ String c EmptyString.
Proof. unfold String.rev at 1. cbn [String.rev_app]. apply rev_app_spec. Qed.

Lemma rev_append a b : String.rev (a +:+ b) = String.rev b +:+ String.rev a.
Proof.
  induction a as [|c a IH].
  - by rewrite append_nil_r.
  - by rewrite append_cons, !rev_cons, IH, append_assoc.
Qed.

Lemma rev_rev s : String.rev (String.rev s) = s.
Proof.
  induction s as [|c s IH]; [done|].
  rewrite rev_cons, rev_append, IH. done.
Qed.

(** ** Numeric inputs (lines 39 to 66) *)

Lemma digits_append acc a c t :
  Js.digit c = None -> Js.digits acc (a +:+ String c t) = Js.digits acc a.
Proof.
  intros Hc. revert acc. induction a as [|d a IH]; intros acc.
  - change (EmptyString +:+ String c t) with (String c t). cbn [Js.digits]. by rewrite Hc.
  - rewrite append_cons. cbn [Js.digits]. destruct (Js.digit d); [apply IH|done].
Qed.

Lemma trimStart_append s z :
  Js.trimStart s <> EmptyString -> Js.trimStart (s +:+ z) = Js.trimStart s +:+ z.
Proof.
  induction s as [|c s IH]; intros H; [done|].
  rewrite append_cons. cbn [Js.trimStart] in *.
  destruct (Js.isWhiteSpace c); [by apply IH | by rewrite append_cons].
Qed.

Lemma startsWithDigit_append a z :
  Js.startsWithDigit a = true -> Js.startsWithDigit (a +:+ z) = true.
Proof. by destruct a. Qed.

(** X1: [parseInt] reads the integer a text starts with and ignores what
    follows it: once a text is read as [n], the same text followed by a
    character that is not a digit, and by anything after it, is read as [n]
    too.  So an input such as "90days" passes for 90. *)
Theorem parseInt_ignores_what_follows s c t n :
  Js.parseInt s = Some n -> Js.digit c = None ->
  Js.parseInt (s +:+ String c t) = Some n.
Proof.
  unfold Js.parseInt. intros H Hc.
  destruct (Js.trimStart s) as [|x r] eqn:E; [discriminate H|].
  rewrite trimStart_append, E by (by rewrite E). rewrite append_cons.
  assert (forall z,
    (match String x (r +:+ z) with
     | String "-"%char r' => (-1, r')
     | String "+"%char r' => (1, r')
     | _ => (1, String x (r +:+ z))
     end)
    = (let '(sign, body) :=
         match String x r with
         | String "-"%char r' => (-1, r')
         | String "+"%char r' => (1, r')
         | _ => (1, String x r)
         end in (sign, body +:+ z))) as Hsplit.
  { intros z. destruct x as [[] [] [] [] [] [] [] []]; reflexivity. }
  rewrite Hsplit.
  destruct (match String x r with
            | String "-"%char r' => (-1, r')
            | String "+"%char r' => (1, r')
            | _ => (1, String x r)
            end) as [sign body].
  destruct (Js.startsWithDigit body) eqn:D; [|discriminate H].
  by rewrite (startsWithDigit_append _ _ D), (digits_append _ _ _ _ Hc).
Qed.

Lemma parseInt_ignores_what_follows_witness :
  Js.parseInt (" 90" +:+ String "d"%char "ays") = Some 90.
Proof. apply (parseInt_ignores_what_follows " 90" "d"%char "ays" 90); reflexivity. Defined.

Lemma validated_refused {A} bound ok v msg (k : Z -> M A) st :
  (forall n, ok n = true <-> bound <= n) -> refused bound v ->
  validated v ok msg k st = (Throw (Error msg), st).
Proof.
  intros Hok Hv. unfold validated. destruct v as [n|]; [|done].
  cbn in Hv. destruct (ok n) eqn:E; [|done]. apply Hok in E. lia.
Qed.

Lemma validated_accepted {A} bound ok v msg (k : Z -> M A) :
  (forall n, ok n = true <-> bound <= n) -> accepted bound v ->
  exists n, v = Some n /\ bound <= n /\ validated v ok msg k = k n.
Proof.
  intros Hok Hv. unfold validated. destruct v as [n|]; [|done].
  cbn in Hv. exists n. by rewrite (proj2 (Hok n) Hv).
Qed.

Lemma nonNegative_ok n : negb (n <? 0) = true <-> 0 <= n.
Proof. rewrite negb_true_iff, Z.ltb_ge. done. Qed.

Lemma positive_ok n : negb (n <=? 0) = true <-> 1 <= n.
Proof. rewrite negb_true_iff, Z.leb_gt. lia. Qed.

(** Pass the validation of an input that is accepted; stop at one that is
    refused. *)
Ltac accept_input :=
  match goal with
  | H : accepted 0 ?v |- context [validated ?v _ ?msg ?k] =>
      let n := fresh "n" in let E := fresh "E" in let Hn := fresh "Hn" in
      let V := fresh "V" in
      destruct (validated_accepted 0 _ v msg k nonNegative_ok H) as (n & E & Hn & V);
      rewrite V; clear V H
  | H : accepted 1 ?v |- context [validated ?v _ ?msg ?k] =>
      let n := fresh "n" in let E := fresh "E" in let Hn := fresh "Hn" in
      let V := fresh "V" in
      destruct (validated_accepted 1 _ v msg k positive_ok H) as (n & E & Hn & V);
      rewrite V; clear V H
  end.

Ltac refuse_input :=
  match goal with
  | H : refused 0 ?v |- context [validated ?v _ ?msg ?k] =>
      unfold tryCatch; rewrite (validated_refused 0 _ v msg k _ nonNegative_ok H);
      reflexivity
  | H : refused 1 ?v |- context [validated ?v _ ?msg ?k] =>
      unfold tryCatch; rewrite (validated_refused 1 _ v msg k _ positive_ok H);
      reflexivity
  end.

Section Validation.

Variable getInput : string -> string.
Variable context : Context.
Variable clock : Z.
Variable octokit : Octokit.

(** X2: the four numeric inputs are checked in the order [stale-days],
    [max-branches-to-delete], [process-throttle-ms], [rate-limit-threshold],
    before anything is logged, compiled or called.  At the first of them
    that is not a number or is below its bound (0, 1, 0 and 0) the run
    reports an empty list of deleted branches and a count of 0, and fails
    with the message of that input, whatever the exclusion list would
    compile to. *)
Theorem invalid_input_fails_before_anything c :
  let run := tryCatch (body getInput context clock octokit c) handler initialState in
  let staleDays := Js.parseInt (getInput "stale-days") in
  let maxBranchesToDelete := Js.parseInt (getInput "max-branches-to-delete") in
  let processThrottleMs := Js.parseInt (getInput "process-throttle-ms") in
  let rateLimitThreshold := Js.parseInt (getInput "rate-limit-threshold") in
  (refused 0 staleDays ->
   run = failedAtOnce "Invalid input: stale-days must be a non-negative integer")
  /\ (accepted 0 staleDays -> refused 1 maxBranchesToDelete ->
      run = failedAtOnce "Invalid input: max-branches-to-delete must be a positive integer")
  /\ (accepted 0 staleDays -> accepted 1 maxBranchesToDelete ->
      refused 0 processThrottleMs ->
      run = failedAtOnce "Invalid input: process-throttle-ms must be a non-negative integer")
  /\ (accepted 0 staleDays -> accepted 1 maxBranchesToDelete ->
      accepted 0 processThrottleMs -> refused 0 rateLimitThreshold ->
      run = failedAtOnce "Invalid input: rate-limit-threshold must be a non-negative integer").
Proof.
  cbv zeta. unfold body.
  split_and!; intros; repeat accept_input; refuse_input.
Qed.

End Validation.

Lemma invalid_input_fails_before_anything_witness :
  tryCatch
    (body (fun key => if String.eqb key "max-branches-to-delete" then "0" else "7")
          Demo.context Demo.clock Demo.world (inr (mkRuleSet ["main"] [] [])))
    handler initialState
  = failedAtOnce "Invalid input: max-branches-to-delete must be a positive integer".
Proof.
  apply (proj1 (proj2 (invalid_input_fails_before_anything
                         (fun key => if String.eqb key "max-branches-to-delete"
                                     then "0" else "7")
                         Demo.context Demo.clock Demo.world
                         (inr (mkRuleSet ["main"] [] []))))).
  - vm_compute. intros H. discriminate H.
  - vm_compute. reflexivity.
Defined.

(** ** The exclusion list (lines 79 to 96 and 171 to 183) *)

Lemma split_go_append cur a b :
  Js.split_go cur (a +:+ String ","%char b) =
  Js.split_go cur a ++ Js.split_go EmptyString b.
Proof.
  revert cur. induction a as [|c a IH]; intros cur.
  - reflexivity.
  - rewrite append_cons. cbn [Js.split_go].
    destruct (Ascii.eqb c ","%char); rewrite IH; reflexivity.
Qed.

Lemma split_go_single cur s :
  includesChar ","%char s = false -> Js.split_go cur s = [String.rev (String.rev s +:+ cur)].
Proof.
  revert cur. induction s as [|c s IH]; intros cur H.
  - reflexivity.
  - cbn in H. apply orb_false_iff in H as [Hc Hs].
    cbn [Js.split_go]. rewrite Hc, (IH _ Hs), rev_cons, append_assoc. reflexivity.
Qed.

Lemma exclusions_append a b :
  exclusions (a +:+ String ","%char b) = exclusions a ++ exclusions b.
Proof.
  unfold exclusions, Js.split_comma.
  by rewrite split_go_append, map_app, List.filter_app.
Qed.

Lemma exclusions_single s :
  includesChar ","%char s = false ->
  exclusions s = if String.eqb (Js.trim s) EmptyString then [] else [Js.trim s].
Proof.
  intros H. unfold exclusions, Js.split_comma.
  rewrite (split_go_single _ _ H), append_nil_r, rev_rev. cbn.
  by destruct (String.eqb (Js.trim s) EmptyString).
Qed.

Lemma trimStart_not_blank s : startsBlank (Js.trimStart s) = false.
Proof.
  induction s as [|c s IH]; [done|]. cbn [Js.trimStart].
  destruct (Js.isWhiteSpace c) eqn:E; [exact IH|]. exact E.
Qed.

Lemma trimStart_suffix s : exists w, s = w +:+ Js.trimStart s.
Proof.
  induction s as [|c s [w IH]]; [by exists EmptyString|]. cbn [Js.trimStart].
  destruct (Js.isWhiteSpace c).
  - exists (String c w). by rewrite append_cons, <- IH.
  - by exists EmptyString.
Qed.

Lemma includesChar_append x a b :
  includesChar x (a +:+ b) = includesChar x a || includesChar x b.
Proof.
  induction a as [|c a IH]; [done|].
  rewrite append_cons. cbn [includesChar]. by rewrite IH, orb_assoc.
Qed.

Lemma includesChar_rev x s : includesChar x (String.rev s) = includesChar x s.
Proof.
  induction s as [|c s IH]; [done|].
  rewrite rev_cons, includesChar_append, IH. cbn.
  by rewrite orb_false_r, orb_comm.
Qed.

Lemma includesChar_trimStart x s :
  includesChar x s = false -> includesChar x (Js.trimStart s) = false.
Proof.
  intros H. destruct (trimStart_suffix s) as [w E]. rewrite E in H.
  rewrite includesChar_append in H. by apply orb_false_iff in H as [_ H].
Qed.

Lemma includesChar_trim x s :
  includesChar x s = false -> includesChar x (Js.trim s) = false.
Proof.
  intros H. unfold Js.trim, Js.trimEnd.
  rewrite includesChar_rev. apply includesChar_trimStart.
  rewrite includesChar_rev. by apply includesChar_trimStart.
Qed.

Lemma includes_star_char s : Js.includes_star s = includesChar "*"%char s.
Proof. induction s as [|c s IH]; [done|]. cbn. by rewrite IH. Qed.

Lemma startsBlank_append a b :
  a <> EmptyString -> startsBlank (a +:+ b) = startsBlank a.
Proof. by destruct a. Qed.

Lemma endsBlank_rev s : endsBlank s = startsBlank (String.rev s).
Proof.
  induction s as [|c s IH]; [done|].
  rewrite rev_cons. destruct s as [|d s]; [done|].
  rewrite startsBlank_append.
  - exact IH.
  - rewrite rev_cons. by destruct (String.rev s).
Qed.

Lemma trim_not_blank s :
  startsBlank (Js.trim s) = false /\ endsBlank (Js.trim s) = false.
Proof.
  unfold Js.trim, Js.trimEnd. split.
  - destruct (trimStart_suffix (String.rev (Js.trimStart s))) as [w E].
    pose proof (f_equal String.rev E) as E'.
    rewrite rev_rev, rev_append in E'.
    pose proof (trimStart_not_blank s) as Hs. rewrite E' in Hs.
    destruct (String.rev (Js.trimStart (String.rev (Js.trimStart s)))) eqn:Ev; [done|].
    by rewrite startsBlank_append in Hs.
  - rewrite endsBlank_rev, rev_rev. apply trimStart_not_blank.
Qed.

Lemma split_go_no_comma cur s :
  includesChar ","%char cur = false ->
  Forall (fun p => includesChar ","%char p = false) (Js.split_go cur s).
Proof.
  revert cur. induction s as [|c s IH]; intros cur H; cbn [Js.split_go].
  - constructor; [|constructor]. by rewrite includesChar_rev.
  - destruct (Ascii.eqb c ","%char) eqn:E.
    + constructor; [by rewrite includesChar_rev|]. by apply IH.
    + apply IH. cbn. by rewrite E, H.
Qed.

Lemma split_go_without x cur s :
  includesChar x cur = false -> includesChar x s = false ->
  Forall (fun p => includesChar x p = false) (Js.split_go cur s).
Proof.
  revert cur. induction s as [|c s IH]; intros cur Hc Hs; cbn [Js.split_go].
  - constructor; [|constructor]. by rewrite includesChar_rev.
  - cbn in Hs. apply orb_false_iff in Hs as [Hx Hs].
    destruct (Ascii.eqb c ","%char).
    + constructor; [by rewrite includesChar_rev|]. by apply IH.
    + apply IH; [|done]. cbn. by rewrite Hx, Hc.
Qed.

Lemma exclusions_without x s :
  includesChar x s = false ->
  Forall (fun item => includesChar x item = false) (exclusions s).
Proof.
  intros H. unfold exclusions, Js.split_comma.
  pose proof (split_go_without x EmptyString s eq_refl H) as F.
  induction F as [|p ps Hp _ IH]; cbn; [constructor|].
  destruct (String.eqb (Js.trim p) EmptyString); cbn; [exact IH|].
  constructor; [by apply includesChar_trim | exact IH].
Qed.

(** X3: the exclusion list of a text is cut at every comma: the list of
    [a,b] is the list of [a] followed by the list of [b]; and a text
    without a comma gives its trimmed self as the only entry, or no entry
    when nothing is left of it. *)
Theorem exclusions_split_at_commas :
  (forall a b, exclusions (a +:+ "," +:+ b) = exclusions a ++ exclusions b)
  /\ (forall s, includesChar ","%char s = false ->
                exclusions s = if String.eqb (Js.trim s) EmptyString then [] else [Js.trim s]).
Proof. split; [apply exclusions_append | apply exclusions_single]. Qed.

(** X4: every entry of the exclusion list is non-empty, holds no comma and
    has no white space at either end. *)
Theorem exclusion_entries_are_trimmed skipBranches :
  Forall (fun item =>
            item <> EmptyString /\ includesChar ","%char item = false
            /\ startsBlank item = false /\ endsBlank item = false)
         (exclusions skipBranches).
Proof.
  unfold exclusions, Js.split_comma.
  pose proof (split_go_no_comma EmptyString skipBranches eq_refl) as H.
  induction H as [|p ps Hp _ IH]; cbn; [constructor|].
  destruct (String.eqb_spec (Js.trim p) EmptyString) as [E|E]; cbn; [exact IH|].
  constructor; [|exact IH].
  destruct (trim_not_blank p) as [Hs He].
  split_and!; try done. by apply includesChar_trim.
Qed.

Lemma compileItems_plain items acc :
  plainList items = true ->
  compileItems items acc =
  Rules (mkRuleSet
           (skipBranchNames acc ++ List.filter (fun item => negb (Js.includes_star item)) items)
           (skipBranchPatterns acc ++ map patternSource (List.filter Js.includes_star items))
           (skipBranchPatternsRegex acc ++ map wildcardRegex (List.filter Js.includes_star items))).
Proof.
  revert acc. induction items as [|item items IH]; intros acc H.
  - cbn. rewrite !app_nil_r. by destruct acc.
  - cbn in H. apply andb_true_iff in H as [Hi H].
    cbn [compileItems List.filter].
    destruct (Js.includes_star item) eqn:E; cbn [negb] in *.
    + cbn in Hi. rewrite (new_plain_entry _ Hi), (IH _ H). cbn [map].
      cbn. by rewrite <- !app_assoc.
    + rewrite (IH _ H). cbn. by rewrite <- !app_assoc.
Qed.

Lemma specMatches_literal entry name :
  Js.includes_star entry = false -> specMatches entry name = String.eqb name entry.
Proof.
  revert name. induction entry as [|c entry IH]; intros name H.
  - by destruct name.
  - cbn in H. apply orb_false_iff in H as [Hc H].
    cbn [specMatches]. rewrite Hc. destruct name as [|d name]; [done|].
    rewrite (IH _ H). cbn [String.eqb]. rewrite (Ascii.eqb_sym c d).
    by destruct (Ascii.eqb d c).
Qed.

Lemma existsb_partition {A} (f p : A -> bool) l :
  existsb f (List.filter (fun x => negb (p x)) l) || existsb f (List.filter p l)
  = existsb f l.
Proof.
  induction l as [|x l IH]; [done|]. cbn. rewrite <- IH.
  destruct (p x); cbn; destruct (f x); cbn; rewrite ?orb_true_r; done.
Qed.

Lemma isExcluded_plain items name :
  plainList items = true -> noLineTerminator name = true ->
  isExcluded
    (mkRuleSet (List.filter (fun item => negb (Js.includes_star item)) items)
               (map patternSource (List.filter Js.includes_star items))
               (map wildcardRegex (List.filter Js.includes_star items)))
    name
  = existsb (fun entry => specMatches entry name) items.
Proof.
  intros Hp Hn. unfold isExcluded, Js.includes. cbn.
  rewrite <- (existsb_partition (fun entry => specMatches entry name) Js.includes_star).
  assert (existsb (String.eqb name)
            (List.filter (fun item => negb (Js.includes_star item)) items)
          = existsb (fun entry => specMatches entry name)
              (List.filter (fun item => negb (Js.includes_star item)) items)) as ->.
  { clear Hp. induction items as [|i items IH]; [done|]. cbn.
    destruct (Js.includes_star i) eqn:E; cbn; [done|].
    by rewrite IH, (specMatches_literal _ _ E). }
  assert (existsb (fun pattern => RegExp.test pattern name)
            (map wildcardRegex (List.filter Js.includes_star items))
          = existsb (fun entry => specMatches entry name)
              (List.filter Js.includes_star items)) as ->.
  { induction items as [|i items IH]; [done|]. cbn in Hp.
    apply andb_true_iff in Hp as [Hi Hp]. cbn.
    destruct (Js.includes_star i) eqn:E; cbn; [|by apply IH].
    rewrite (IH Hp). f_equal. cbn in Hi.
    destruct (plain_wildcard_entry_agrees i name Hi Hn) as (re & Hre & Ht).
    rewrite (new_plain_entry _ Hi) in Hre. injection Hre as <-. exact Ht. }
  by destruct (existsb _ _).
Qed.

Lemma filter_all {A} (p : A -> bool) l :
  Forall (fun x => p x = true) l -> List.filter p l = l.
Proof. induction 1 as [|x l Hx _ IH]; [done|]. cbn. by rewrite Hx, IH. Qed.

Lemma filter_none {A} (p : A -> bool) l :
  Forall (fun x => p x = false) l -> List.filter p l = [].
Proof. induction 1 as [|x l Hx _ IH]; [done|]. cbn. by rewrite Hx, IH. Qed.

(** X5: an exclusion list without [*] never fails to compile: every entry
    is kept as a name, no pattern is built, and a branch is excluded exactly
    when its name is one of the entries. *)
Theorem list_without_wildcard_is_exact skipBranches :
  Js.includes_star skipBranches = false ->
  compileExclusions skipBranches = Rules (mkRuleSet (exclusions skipBranches) [] [])
  /\ forall name,
       isExcluded (mkRuleSet (exclusions skipBranches) [] []) name = true
       <-> In name (exclusions skipBranches).
Proof.
  intros H. rewrite includes_star_char in H.
  pose proof (exclusions_without _ _ H) as F.
  assert (Forall (fun item => negb (Js.includes_star item) = true) (exclusions skipBranches)) as F1.
  { eapply Forall_impl; [exact F|]. intros item Hi. cbv beta in Hi.
    by rewrite includes_star_char, Hi. }
  assert (Forall (fun item => Js.includes_star item = false) (exclusions skipBranches)) as F2.
  { eapply Forall_impl; [exact F|]. intros item Hi. cbv beta in Hi.
    by rewrite includes_star_char. }
  split; [|apply literal_entry_exact].
  unfold compileExclusions. rewrite compileItems_plain.
  - by rewrite (filter_all _ _ F1), (filter_none _ _ F2).
  - unfold plainList. apply forallb_forall. intros item Hin.
    apply list_elem_of_In in Hin. rewrite Forall_forall in F1. by rewrite (F1 item Hin).
Qed.

Lemma list_without_wildcard_is_exact_witness :
  compileExclusions "main, develop ,,staging" = Rules (mkRuleSet (exclusions "main, develop ,,staging") [] [])
  /\ forall name,
       isExcluded (mkRuleSet (exclusions "main, develop ,,staging") [] []) name = true
       <-> In name (exclusions "main, develop ,,staging").
Proof. apply (list_without_wildcard_is_exact "main, develop ,,staging"). reflexivity. Defined.

(** X6: an exclusion list whose wildcard entries hold no pattern syntax
    besides [*] always compiles, and it excludes a name (free of line
    terminators) exactly when some entry, with each [*] standing for any run
    of characters, is the whole name. *)
Theorem plain_wildcard_list_matches_as_globs skipBranches :
  plainList (exclusions skipBranches) = true ->
  exists rules,
    compileExclusions skipBranches = Rules rules
    /\ forall name, noLineTerminator name = true ->
         isExcluded rules name
         = existsb (fun entry => specMatches entry name) (exclusions skipBranches).
Proof.
  intros H. unfold compileExclusions. rewrite (compileItems_plain _ _ H).
  eexists. split; [reflexivity|]. intros name Hn.
  by apply isExcluded_plain.
Qed.

Lemma plain_wildcard_list_matches_as_globs_witness :
  exists rules,
    compileExclusions defaultSkipBranches = Rules rules
    /\ forall name, noLineTerminator name = true ->
         isExcluded rules name
         = existsb (fun entry => specMatches entry name) (exclusions defaultSkipBranches).
Proof. apply (plain_wildcard_list_matches_as_globs defaultSkipBranches). reflexivity. Defined.


(** ** Days since the last commit (lines 197 to 203 and 275) *)

(** X7: the number of days the log shows for a branch agrees with the
    staleness test.  For a commit with a valid date, a branch found stale
    is shown with at least [staleDays] days; a branch found active is shown
    with at most [staleDays] days, as long as the threshold itself is a
    valid date. *)
Theorem logged_days_agree_with_staleness commit now staleDays :
  exists days,
    daysSinceCommit now (Some commit) = Some days
    /\ (isStale (Some commit) now staleDays = true -> staleDays <= days)
    /\ (isStale (Some commit) now staleDays = false ->
        staleThreshold now staleDays <> None -> days <= staleDays).
Proof.
  eexists. split; [reflexivity|].
  unfold isStale, staleThreshold, newDate, dateLt.
  replace (now - staleDays * 24 * 60 * 60 * 1000) with (now - staleDays * 86400000) by lia.
  change (1000 * 60 * 60 * 24) with 86400000.
  destruct (Z.abs (now - staleDays * 86400000) <=? maxTimeValue); [|done].
  split.
  - intros H%Z.ltb_lt. apply Z.div_le_lower_bound; lia.
  - intros H%Z.ltb_ge _. apply Z.div_le_upper_bound; [lia|]. nia.
Qed.

(** ** The rate-limit check (lines 4 to 22) *)

(** X8: the rate-limit check never throws.  It issues one
    [rateLimit.get] call; when the call is rejected it warns and answers
    [true], so that the run goes on; when the call resolves it answers
    whether the remaining quota is at least the threshold, with a warning
    when it is not.  The outputs and the counters are left as they were. *)
Theorem rate_limit_check_fails_open octokit threshold st :
  isSafeToProceedWithApiCalls octokit threshold st =
  match on_rateLimit_get octokit (trace st) with
  | Resolved remaining =>
      if remaining <? threshold
      then (Normal false, after st [Api rateLimit_get; Warning (RateLimitLow remaining)])
      else (Normal true, after st [Api rateLimit_get])
  | Rejected message =>
      (Normal true,
       after st [Api rateLimit_get; Warning (RateLimitCheckFailed (Error message))])
  end.
Proof.
  unfold isSafeToProceedWithApiCalls, tryCatch, bind, await, warning, emit, ret, after.
  destruct (on_rateLimit_get octokit (trace st)) as [n|m]; cbn.
  - destruct (n <? threshold); cbn; by rewrite <- ?app_assoc.
  - by rewrite <- app_assoc.
Qed.

(** ** Events of a stretch of the run *)

Lemma Emits_refl P st : Emits P st st.
Proof. exists []. by rewrite app_nil_r. Qed.

Lemma Emits_trans P st1 st2 st3 : Emits P st1 st2 -> Emits P st2 st3 -> Emits P st1 st3.
Proof.
  intros (e1 & T1 & N1) (e2 & T2 & N2). exists (e1 ++ e2).
  by rewrite T2, T1, <- app_assoc, forallb_app, N1, N2.
Qed.

Lemma emits_same_trace {A} P (c : M A) :
  (forall st r st', c st = (r, st') -> trace st' = trace st) -> emits P c.
Proof. intros H st r st' E. exists []. by rewrite app_nil_r, (H _ _ _ E). Qed.

Lemma emits_ret {A} P (a : A) : emits P (ret a).
Proof. apply emits_same_trace. by intros st r st' [= <- <-]. Qed.

Lemma emits_continue {A} P : emits P (@continue A).
Proof. apply emits_same_trace. by intros st r st' [= <- <-]. Qed.

Lemma emits_break {A} P : emits P (@break A).
Proof. apply emits_same_trace. by intros st r st' [= <- <-]. Qed.

Lemma emits_throw {A} P e : emits P (@throw A e).
Proof. apply emits_same_trace. by intros st r st' [= <- <-]. Qed.

Lemma emits_getProcessedCount P : emits P getProcessedCount.
Proof. apply emits_same_trace. by intros st r st' [= <- <-]. Qed.

Lemma emits_recordDeletion P n : emits P (recordDeletion n).
Proof. apply emits_same_trace. by intros st r st' [= <- <-]. Qed.

Lemma emits_countProcessed P : emits P countProcessed.
Proof. apply emits_same_trace. by intros st r st' [= <- <-]. Qed.

Lemma emits_resetProcessed P : emits P resetProcessed.
Proof. apply emits_same_trace. by intros st r st' [= <- <-]. Qed.

Lemma emits_emit (P : Event -> bool) e : P e = true -> emits P (emit e).
Proof. intros He st r st' [= <- <-]. exists [e]. cbn. by rewrite He. Qed.

Lemma emits_info (P : Event -> bool) m : P (Info m) = true -> emits P (info m).
Proof. apply emits_emit. Qed.

Lemma emits_warning (P : Event -> bool) m : P (Warning m) = true -> emits P (warning m).
Proof. apply emits_emit. Qed.

Lemma emits_await {A} (P : Event -> bool) rq (answer : History -> Response A) :
  P (Api rq) = true -> emits P (await rq answer).
Proof.
  intros Hrq st r st' H. unfold await in H. exists [Api rq].
  destruct (answer (trace st)); injection H as <- <-; cbn; by rewrite Hrq.
Qed.

Lemma emits_bind {A B} P (c : M A) (k : A -> M B) :
  emits P c -> (forall a, emits P (k a)) -> emits P (bind c k).
Proof.
  intros Hc Hk st r st' H. unfold bind in H.
  destruct (c st) as [[a| | |e] st1] eqn:E; pose proof (Hc _ _ _ E) as U1.
  - eapply Emits_trans; [exact U1|]. eapply Hk, H.
  - by injection H as <- <-.
  - by injection H as <- <-.
  - by injection H as <- <-.
Qed.

Lemma emits_tryCatch {A} P (c : M A) (h : Exn -> M A) :
  emits P c -> (forall e, emits P (h e)) -> emits P (tryCatch c h).
Proof.
  intros Hc Hh st r st' H. unfold tryCatch in H.
  destruct (c st) as [[a| | |e] st1] eqn:E; pose proof (Hc _ _ _ E) as U1.
  - by injection H as <- <-.
  - by injection H as <- <-.
  - by injection H as <- <-.
  - eapply Emits_trans; [exact U1|]. eapply Hh, H.
Qed.

Lemma emits_setOutputs (P : Event -> bool) :
  (forall k v, P (SetOutput k v) = true) -> (forall n, P (Info (DeletedCount n)) = true) ->
  emits P setOutputs.
Proof.
  intros H1 H2 st r st' H. unfold setOutputs in H.
  assert (emits P (emit (SetOutput "deleted-branches" (outputDeletedBranches st)) ;;
                   info (DeletedCount (deletedCount st)))) as Hq.
  { apply emits_bind; [by apply emits_emit|]. intros _. by apply emits_info. }
  exact (Hq _ _ _ H).
Qed.

Lemma emits_iterate P octokit cfg branches :
  (forall b, emits P (processBranch octokit cfg b)) ->
  emits P (iterate octokit cfg branches).
Proof.
  intros Hb. induction branches as [|b rest IH]; intros st r st' H; cbn in H.
  - injection H as <- <-. apply Emits_refl.
  - destruct (processBranch octokit cfg b st) as [[[]| | |e] st1] eqn:E;
      pose proof (Hb _ _ _ _ E) as U1.
    + eapply Emits_trans; [exact U1|]. eapply IH, H.
    + eapply Emits_trans; [exact U1|]. eapply IH, H.
    + by injection H as <- <-.
    + by injection H as <- <-.
Qed.

Lemma emits_processBranches P octokit cfg branches :
  (forall b, emits P (processBranch octokit cfg b)) ->
  emits P (processBranches octokit cfg branches).
Proof.
  intros Hb st r st' H. unfold processBranches in H.
  destruct (iterate octokit cfg branches st) as [r0 st0] eqn:E.
  pose proof (emits_iterate P _ _ _ Hb _ _ _ E) as U.
  by destruct r0; injection H as <- <-.
Qed.

(** Commands whose events are decided by evaluating [P] on them. *)
Ltac solve_emits :=
  repeat first
    [ simple apply emits_bind; [|intros ?]
    | simple apply emits_tryCatch; [|intros ?]
    | simple apply emits_info; reflexivity
    | simple apply emits_warning; reflexivity
    | simple apply emits_emit; reflexivity
    | simple apply emits_await; reflexivity
    | simple apply emits_ret | simple apply emits_continue
    | simple apply emits_break | simple apply emits_throw
    | simple apply emits_getProcessedCount
    | simple apply emits_recordDeletion
    | simple apply emits_countProcessed
    | simple apply emits_resetProcessed
    | head_case ].


Lemma bind_inv {A B} (c : M A) (k : A -> M B) st r st' :
  bind c k st = (r, st') ->
  (exists a st1, c st = (Normal a, st1) /\ k a st1 = (r, st'))
  \/ (c st = (Continue, st') /\ r = Continue)
  \/ (c st = (Break, st') /\ r = Break)
  \/ (exists e, c st = (Throw e, st') /\ r = Throw e).
Proof.
  unfold bind. destruct (c st) as [[a| | |e] st1]; intros H.
  - left. eauto.
  - injection H as <- <-. right. by left.
  - injection H as <- <-. right. right. by left.
  - injection H as <- <-. right. right. right. eauto.
Qed.

Section Inversion.

Variable octokit : Octokit.
Variable cfg : Config.

Lemma processBranch_inv b st r st' :
  processBranch octokit cfg b st = (r, st') ->
  exists ok st1,
    isSafeToProceedWithApiCalls octokit (rateLimitThreshold cfg) st = (Normal ok, st1)
    /\ Quiet st st1
    /\ ((ok = false /\ r = Throw rateLimitError
         /\ st' = after st1 [Warning (RateLimitStop (rateLimitThreshold cfg))])
        \/ (ok = true /\ maxBranchesToDelete cfg <= processedCount st1 /\ r = Break
            /\ st' = after st1 [Warning (CapReached (maxBranchesToDelete cfg))])
        \/ (ok = true /\ processedCount st1 < maxBranchesToDelete cfg
            /\ ((~ Eligible cfg b /\ r = Continue
                 /\ exists m, neutral (Info m) = true
                              /\ st' = after st1 [Info (BranchName (name b)); Info m])
                \/ (Eligible cfg b
                    /\ (examine octokit cfg b ;; throttle cfg)
                         (after st1 [Info (BranchName (name b))]) = (r, st'))))).
Proof.
  intros H. unfold processBranch in H. unfold bind at 1 in H.
  destruct (isSafeToProceedWithApiCalls_total octokit (rateLimitThreshold cfg) st)
    as (ok & st1 & E & Q).
  rewrite E in H. exists ok, st1. split_and!; [done..|].
  destruct ok; cbn [negb] in H.
  - right. unfold bind at 1, getProcessedCount in H.
    destruct (Z.leb_spec (maxBranchesToDelete cfg) (processedCount st1)) as [Cap|Cap].
    + left. unfold bind, warning, emit, break in H. injection H as <- <-. done.
    + right. split_and!; [done..|].
      unfold bind at 1, info, emit in H. fold (after st1 [Info (BranchName (name b))]) in H.
      unfold Eligible.
      destruct (String.eqb (name b) (defaultBranch cfg)) eqn:Hd;
        [|destruct (protected b) eqn:Hp;
          [|destruct (isExcluded (rules cfg) (name b)) eqn:He]].
      * left. unfold bind, info, emit, continue in H. injection H as <- <-.
        split_and!; [intros (? & ? & ?); congruence|done|]. exists SkipDefault. split; [done|].
        unfold after. cbn. by rewrite <- app_assoc.
      * left. unfold bind, info, emit, continue in H. injection H as <- <-.
        split_and!; [intros (? & ? & ?); congruence|done|]. exists SkipProtected. split; [done|].
        unfold after. cbn. by rewrite <- app_assoc.
      * left. unfold bind, info, emit, continue in H. injection H as <- <-.
        split_and!; [intros (? & ? & ?); congruence|done|]. exists SkipExcluded. split; [done|].
        unfold after. cbn. by rewrite <- app_assoc.
      * right. done.
  - left. unfold bind, warning, emit, throw in H. injection H as <- <-. done.
Qed.

End Inversion.

(** ** What a branch has been through when it gets to the deletion step *)

Lemma Quiet_ext st st' : Quiet st st' -> exists ev, trace st' = trace st ++ ev.
Proof. intros (ev & T & _). eauto. Qed.

Lemma Quiet_calm st st' ev :
  Quiet st st' -> trace st' = trace st ++ ev -> existsb atDeletionStep ev = false.
Proof.
  intros (ev0 & T & N & _) E. rewrite T in E. apply app_inv_head in E as <-.
  destruct (neutral_facts ev0 N) as (_ & _ & _ & F).
  clear T. induction ev0 as [|e ev0 IH]; [done|]. cbn in *.
  apply andb_true_iff in N as [Ne N]. apply andb_true_iff in F as [Fe F].
  rewrite (IH N F), orb_false_r. unfold atDeletionStep, neutral in *.
  destruct (isDeleteCall e); [done|]. by destruct (isWouldDelete e).
Qed.

Lemma Quiet_after st m : neutral m = true -> Quiet st (after st [m]).
Proof. intros H. exists [m]. cbn. by rewrite H. Qed.

Lemma Answered_here {A} rq (answer : History -> Response A) (P : A -> Prop) st a :
  answer (trace st) = Resolved a -> P a -> Answered st (after st [Api rq]) rq answer P.
Proof. intros E Pa. exists (trace st), [], a. done. Qed.

Lemma Answered_l {A} st st1 st' rq (answer : History -> Response A) P ev :
  trace st1 = trace st ++ ev ->
  Answered st1 st' rq answer P -> Answered st st' rq answer P.
Proof.
  intros T (h & rest & a & E & L & R & Pa). exists h, rest, a.
  split_and!; try done. rewrite T, length_app in L. lia.
Qed.

Lemma Answered_r {A} st st1 st' rq (answer : History -> Response A) P ev :
  trace st' = trace st1 ++ ev ->
  Answered st st1 rq answer P -> Answered st st' rq answer P.
Proof.
  intros T (h & rest & a & E & L & R & Pa). exists h, (rest ++ ev), a.
  split_and!; try done. rewrite T, E, <- app_assoc. done.
Qed.

Section Soundness.

Variable octokit : Octokit.
Variable cfg : Config.
Variable b : Branch.

Lemma checkOpenPRs_normal st st' :
  checkOpenPRs octokit cfg b st = (Normal tt, st') -> skipOpenPRs cfg = true ->
  OpenPullsAnswered octokit cfg b st st' (fun prs => prs = []).
Proof.
  unfold checkOpenPRs. intros H Hs. rewrite Hs in H. unfold bind, await in H.
  destruct (on_pulls_list_open octokit (trace st) (owner cfg) (repo cfg) (headOf cfg b))
    as [[|pr prs]|m] eqn:E; try discriminate H.
  injection H as <-. by eapply Answered_here.
Qed.

Lemma checkUnmerged_normal st st' :
  checkUnmerged octokit cfg b st = (Normal tt, st') -> skipUmerged cfg = true ->
  MergedOrAbandoned octokit cfg b st st'.
Proof.
  unfold checkUnmerged. intros H Hs. rewrite Hs in H. unfold bind at 1, await at 1 in H.
  destruct (on_repos_compareCommits octokit (trace st) (owner cfg) (repo cfg)
              (defaultBranch cfg) (name b)) as [ahead|m] eqn:E; [|discriminate H].
  fold (after st [Api (repos_compareCommits (owner cfg) (repo cfg) (defaultBranch cfg) (name b))]) in H.
  destruct (Z.ltb_spec 0 ahead) as [Ha|Ha].
  - right. destruct (includeClosedPRs cfg) eqn:Hi; [|discriminate H].
    unfold bind at 1, await at 1 in H.
    destruct (on_pulls_list_all octokit _ (owner cfg) (repo cfg) (headOf cfg b))
      as [prs|m] eqn:E2; [|discriminate H].
    destruct (existsb isOpen prs) eqn:Ho; [discriminate H|].
    destruct (existsb (fun pr => isClosed pr && notMerged pr) prs) eqn:Hc;
      [|discriminate H].
    unfold info, emit in H. injection H as <-.
    split_and!; [done| |].
    + eapply Answered_r; [|eapply Answered_here; [exact E|done]]. cbn. rewrite <- !app_assoc. reflexivity.
    + eapply (Answered_l _ (after st [Api (repos_compareCommits (owner cfg) (repo cfg)
                                             (defaultBranch cfg) (name b))])); [reflexivity|].
      eapply Answered_r; [|by eapply Answered_here]. cbn. reflexivity.
  - left. injection H as <-. eapply Answered_here; [exact E|cbv beta; lia].
Qed.

Lemma examine_handler_quiet e :
  quiet (if continueOnErrors cfg
         then warning (ErrorContinuing e) ;; continue
         else warning ErrorStopping ;; throw e : M unit).
Proof. solve_quiet. Qed.

Lemma examine_justified st r st' ev :
  examine octokit cfg b st = (r, st') -> trace st' = trace st ++ ev ->
  existsb atDeletionStep ev = true ->
  CommitAnswered octokit cfg b st st' (fun d => isStale d (now cfg) (staleDays cfg) = true)
  /\ (skipOpenPRs cfg = true -> OpenPullsAnswered octokit cfg b st st' (fun prs => prs = []))
  /\ (skipUmerged cfg = true -> MergedOrAbandoned octokit cfg b st st').
Proof.
  intros H T S. unfold examine, tryCatch in H.
  match type of H with
  | context [match ?x with pair _ _ => _ end] => destruct x as [rb stb] eqn:Eb
  end.
  assert (Quiet stb st') as Q2.
  { destruct rb as [[]| | |e]; try (injection H as <- <-; apply Quiet_refl).
    exact (examine_handler_quiet e _ _ _ H). }
  clear H.
  assert (forall s, Quiet st s -> s = stb -> False) as Calm.
  { intros s Q ->. pose proof (Quiet_calm _ _ _ (Quiet_trans _ _ _ Q Q2) T). congruence. }
  apply bind_inv in Eb as [(d & st1 & Ea & Eb)|Ab].
  2:{ exfalso. unfold await in Ab.
      destruct (on_repos_getCommit octokit (trace st) (owner cfg) (repo cfg) (commit_sha b));
        destruct Ab as [[Ab _]|[[Ab _]|(e & Ab & _)]]; try discriminate Ab.
      injection Ab as _ Ab. eapply Calm; [|exact Ab]. by apply Quiet_after. }
  unfold await in Ea.
  destruct (on_repos_getCommit octokit (trace st) (owner cfg) (repo cfg) (commit_sha b))
    as [d'|m] eqn:Ec; [|discriminate Ea].
  injection Ea as -> <-.
  set (st1 := mkState _ _ _ _) in Eb.
  assert (Quiet st st1) as Q1 by (apply (Quiet_after st); reflexivity).
  destruct (isStale d (now cfg) (staleDays cfg)) eqn:Hstale.
  2:{ exfalso. unfold info, emit in Eb. injection Eb as _ Eb.
      eapply Calm; [|exact Eb]. eapply Quiet_trans; [exact Q1|].
      apply (Quiet_after st1). reflexivity. }
  unfold bind at 1, info at 1, emit at 1 in Eb.
  set (st2 := mkState _ _ _ _) in Eb.
  assert (Quiet st1 st2) as Q12 by (apply (Quiet_after st1); reflexivity).
  pose proof (Quiet_trans _ _ _ Q1 Q12) as Q02.
  apply bind_inv in Eb as [([] & st3 & Eo & Eb)|Ab].
  2:{ exfalso.
      destruct Ab as [[Ab _]|[[Ab _]|(e & Ab & _)]];
        apply (Calm stb (Quiet_trans _ _ _ Q02 (checkOpenPRs_quiet octokit cfg b _ _ _ Ab)) eq_refl). }
  pose proof (checkOpenPRs_quiet octokit cfg b _ _ _ Eo) as Q23.
  pose proof (Quiet_trans _ _ _ Q02 Q23) as Q03.
  apply bind_inv in Eb as [([] & st4 & Eu & Eb)|Ab].
  2:{ exfalso.
      destruct Ab as [[Ab _]|[[Ab _]|(e & Ab & _)]];
        apply (Calm stb (Quiet_trans _ _ _ Q03 (checkUnmerged_quiet octokit cfg b _ _ _ Ab)) eq_refl). }
  pose proof (checkUnmerged_quiet octokit cfg b _ _ _ Eu) as Q34.
  destruct (deleteOrReport_stepping octokit cfg b _ _ _ Eb) as (evd & added & [Td _ _ _ _] & _).
  destruct (Quiet_ext _ _ Q2) as (e2 & T2).
  destruct (Quiet_ext _ _ Q34) as (e34 & T34).
  destruct (Quiet_ext _ _ Q23) as (e23 & T23).
  assert (trace st2 =
          trace st ++ [Api (repos_getCommit (owner cfg) (repo cfg) (commit_sha b));
                       Info (StaleBranch (daysSinceCommit (now cfg) d))]) as T02
    by (subst st2 st1; cbn; by rewrite <- app_assoc).
  destruct (Quiet_ext _ _ Q03) as (e03 & T03).
  assert (trace st' = trace st4 ++ (evd ++ e2)) as T4 by (by rewrite T2, Td, app_assoc).
  assert (trace st' = trace st3 ++ (e34 ++ evd ++ e2)) as T3
    by (by rewrite T4, T34, <- app_assoc).
  split_and!.
  - eexists (trace st), _, d. split_and!; try done.
    rewrite T3, T23, T02, <- !app_assoc. cbn. reflexivity.
  - intros Hs. eapply Answered_l; [exact T02|]. eapply Answered_r; [exact T3|].
    by apply checkOpenPRs_normal.
  - intros Hs.
    destruct (checkUnmerged_normal _ _ Eu Hs) as [A|(Hi & A1 & A2)];
      [left|right; split_and!; [done|..]];
      (eapply Answered_l; [exact T03|]; eapply Answered_r; [exact T4|]; done).
Qed.

End Soundness.

Lemma existsb_atDeletionStep_In ev o rp ref :
  In (Api (git_deleteRef o rp ref)) ev -> existsb atDeletionStep ev = true.
Proof. intros H. apply existsb_exists. eexists. split; [exact H|reflexivity]. Qed.

Lemma step_between st s1 s2 st' ev ev12 :
  Quiet st s1 -> trace s2 = trace s1 ++ ev12 -> Quiet s2 st' ->
  trace st' = trace st ++ ev -> existsb atDeletionStep ev = true ->
  existsb atDeletionStep ev12 = true.
Proof.
  intros Q1 T12 Q2 T S.
  destruct (Quiet_ext _ _ Q1) as (e1 & T1). destruct (Quiet_ext _ _ Q2) as (e2 & T2).
  pose proof (Quiet_calm _ _ _ Q1 T1) as C1. pose proof (Quiet_calm _ _ _ Q2 T2) as C2.
  rewrite T2, T12, T1, <- !app_assoc in T. apply app_inv_head in T as <-.
  rewrite !existsb_app, C1, C2, orb_false_r in S. exact S.
Qed.

Lemma calm_tail st st1 tail ev :
  Quiet st st1 -> trace (after st1 tail) = trace st ++ ev ->
  existsb atDeletionStep tail = false -> existsb atDeletionStep ev = false.
Proof.
  intros Q T C. destruct (Quiet_ext _ _ Q) as (e1 & T1).
  pose proof (Quiet_calm _ _ _ Q T1) as C1.
  cbn in T. rewrite T1, <- app_assoc in T. apply app_inv_head in T as <-.
  by rewrite existsb_app, C1, C.
Qed.

Section SoundnessOfPass.

Variable octokit : Octokit.
Variable cfg : Config.

Lemma Justified_l b st st1 st' ev :
  trace st1 = trace st ++ ev ->
  Justified octokit cfg b st1 st' -> Justified octokit cfg b st st'.
Proof.
  intros T (El & C & O & U). split_and!; [done|by eapply Answered_l| |].
  - intros Hs. by eapply Answered_l; [|apply O].
  - intros Hs. destruct (U Hs) as [A|(Hi & A1 & A2)];
      [left|right; split_and!; [done|..]]; by eapply Answered_l.
Qed.

Lemma Justified_r b st st1 st' ev :
  trace st' = trace st1 ++ ev ->
  Justified octokit cfg b st st1 -> Justified octokit cfg b st st'.
Proof.
  intros T (El & C & O & U). split_and!; [done|by eapply Answered_r| |].
  - intros Hs. by eapply Answered_r; [|apply O].
  - intros Hs. destruct (U Hs) as [A|(Hi & A1 & A2)];
      [left|right; split_and!; [done|..]]; by eapply Answered_r.
Qed.

Lemma processBranch_deletesOnly b :
  emits (deletesOnly cfg b) (processBranch octokit cfg b).
Proof.
  unfold processBranch, isSafeToProceedWithApiCalls, examine, throttle, checkOpenPRs,
    checkUnmerged, deleteOrReport.
  solve_emits.
  apply emits_await. cbn. rewrite !String.eqb_refl. by destruct (dryRun cfg).
Qed.

Lemma processBranch_justified b st r st' ev :
  processBranch octokit cfg b st = (r, st') -> trace st' = trace st ++ ev ->
  existsb atDeletionStep ev = true ->
  Justified octokit cfg b st st' /\ processedCount st < maxBranchesToDelete cfg.
Proof.
  intros H T S.
  destruct (processBranch_inv _ _ _ _ _ _ H) as (ok & st1 & _ & Q &
    [(_ & _ & ->)|[(_ & _ & _ & ->)|(_ & Cap & [(_ & _ & m & Hm & ->)|(El & E)])]]).
  - exfalso. pose proof (calm_tail _ _ _ _ Q T eq_refl). congruence.
  - exfalso. pose proof (calm_tail _ _ _ _ Q T eq_refl). congruence.
  - exfalso.
    assert (existsb atDeletionStep [Info (BranchName (name b)); Info m] = false) as C.
    { by destruct m. }
    pose proof (calm_tail _ _ _ _ Q T C). congruence.
  - split; [|destruct Q as (? & _ & _ & _ & _ & E0); lia].
    set (st2 := after st1 [Info (BranchName (name b))]) in E.
    destruct (Quiet_ext _ _ Q) as (e1 & T1).
    assert (trace st2 = trace st ++ (e1 ++ [Info (BranchName (name b))])) as T2
      by (subst st2; cbn; by rewrite T1, app_assoc).
    assert (existsb atDeletionStep (e1 ++ [Info (BranchName (name b))]) = false) as C2.
    { rewrite existsb_app, (Quiet_calm _ _ _ Q T1). done. }
    assert (exists st3 r3 ev3 e4,
              examine octokit cfg b st2 = (r3, st3)
              /\ trace st3 = trace st2 ++ ev3 /\ trace st' = trace st3 ++ e4
              /\ existsb atDeletionStep e4 = false) as (st3 & r3 & ev3 & e4 & Ex & T3 & T4 & C4).
    { apply bind_inv in E as [([] & st3 & Ex & Et)|Ab].
      - pose proof (throttle_quiet cfg _ _ _ Et) as Q4.
        destruct (Quiet_ext _ _ Q4) as (e4 & T4).
        destruct (examine_stepping octokit cfg b _ _ _ Ex) as (ev3 & ? & [T3 _ _ _ _] & _).
        exists st3, (Normal tt), ev3, e4. split_and!; try done.
        by apply (Quiet_calm _ _ _ Q4).
      - assert (exists r3, examine octokit cfg b st2 = (r3, st')) as (r3 & Ex)
          by (destruct Ab as [[Ab _]|[[Ab _]|(e & Ab & _)]]; eauto).
        destruct (examine_stepping octokit cfg b _ _ _ Ex) as (ev3 & ? & [T3 _ _ _ _] & _).
        exists st', r3, ev3, []. by rewrite app_nil_r. }
    assert (existsb atDeletionStep ev3 = true) as S3.
    { rewrite T4, T3, T2, <- !app_assoc in T. apply app_inv_head in T as <-.
      rewrite existsb_app in C2. apply orb_false_iff in C2 as [C2a C2b].
      rewrite !existsb_app, C2a, C2b, C4, orb_false_r in S. exact S. }
    destruct (examine_justified octokit cfg b _ _ _ _ Ex T3 S3) as (A1 & A2 & A3).
    eapply Justified_l; [exact T2|]. eapply Justified_r; [exact T4|]. done.
Qed.

Lemma iterate_justified branches st r st' ev o rp ref :
  iterate octokit cfg branches st = (r, st') ->
  trace st' = trace st ++ ev ->
  In (Api (git_deleteRef o rp ref)) ev ->
  exists b,
    In b branches
    /\ o = owner cfg /\ rp = repo cfg /\ ref = refOf b
    /\ dryRun cfg = false
    /\ Justified octokit cfg b st st'.
Proof.
  revert st ev. induction branches as [|b rest IH]; intros st ev H T Hin; cbn in H.
  - injection H as <- <-. rewrite <- (app_nil_r (trace st)) in T at 1.
    apply app_inv_head in T as <-. done.
  - destruct (processBranch octokit cfg b st) as [r1 st1] eqn:Hb.
    destruct (processBranch_deletesOnly b _ _ _ Hb) as (ev1 & T1 & D1).
    assert (In (Api (git_deleteRef o rp ref)) ev1 ->
            exists b0, In b0 (b :: rest) /\ o = owner cfg /\ rp = repo cfg
                       /\ ref = refOf b0 /\ dryRun cfg = false
                       /\ Justified octokit cfg b0 st st1) as Here.
    { intros Hin1. exists b.
      rewrite forallb_forall in D1. specialize (D1 _ Hin1). cbn in D1.
      apply andb_true_iff in D1 as [D1 Dd]. apply andb_true_iff in D1 as [D1 Dr].
      apply andb_true_iff in D1 as [Do Dp].
      apply String.eqb_eq in Do, Dp, Dr. apply negb_true_iff in Dd.
      split_and!; try done; [by left|].
      by destruct (processBranch_justified b _ _ _ _ Hb T1
                     (existsb_atDeletionStep_In _ _ _ _ Hin1)). }
    assert (forall st2, iterate octokit cfg rest st1 = (r, st2) -> st2 = st' ->
            exists b0, In b0 (b :: rest) /\ o = owner cfg /\ rp = repo cfg
                       /\ ref = refOf b0 /\ dryRun cfg = false
                       /\ Justified octokit cfg b0 st st') as Next.
    { intros st2 Hr ->.
      destruct (iterate_effect _ _ _ _ _ _ Hr) as (ev2 & ? & [T2 _ _ _ _] & _).
      rewrite T2, T1, <- app_assoc in T. apply app_inv_head in T as <-.
      apply in_app_or in Hin as [Hin|Hin].
      - destruct (Here Hin) as (b0 & I & ? & ? & ? & ? & J).
        exists b0. split_and!; try done. by eapply Justified_r.
      - destruct (IH _ _ Hr T2 Hin) as (b0 & I & ? & ? & ? & ? & J).
        exists b0. split_and!; try done; [by right|]. by eapply Justified_l. }
    destruct r1 as [[]| | |e].
    + by eapply Next.
    + by eapply Next.
    + injection H as <- <-. rewrite T1 in T. apply app_inv_head in T as <-. auto.
    + injection H as <- <-. rewrite T1 in T. apply app_inv_head in T as <-. auto.
Qed.

(** X9: a pass calls delete-ref only for the ref of a listed branch, in
    the repository of the run and outside a dry run, and only once the
    iteration for that branch has found it eligible (not the default
    branch, not protected, not excluded), has been answered a stale commit
    date and, for each check that is enabled, has been answered what lets
    the branch through: no open pull request, and nothing ahead of the
    default branch or, with [includeClosedPRs], a listing with no open and
    one closed unmerged pull request. *)
Theorem every_deletion_is_justified branches st r st' ev o rp ref :
  iterate octokit cfg branches st = (r, st') ->
  trace st' = trace st ++ ev ->
  In (Api (git_deleteRef o rp ref)) ev ->
  exists b,
    In b branches
    /\ o = owner cfg /\ rp = repo cfg /\ ref = refOf b
    /\ dryRun cfg = false
    /\ Justified octokit cfg b st st'.
Proof. apply iterate_justified. Qed.

End SoundnessOfPass.

(** ** How a pass goes through the listing and how it ends *)

Lemma unbroken_ret {A} (a : A) : unbroken (ret a).
Proof. by intros st r st' [= <- <-]. Qed.

Lemma unbroken_continue {A} : unbroken (@continue A).
Proof. by intros st r st' [= <- <-]. Qed.

Lemma unbroken_throw {A} e : unbroken (@throw A e).
Proof. by intros st r st' [= <- <-]. Qed.

Lemma unbroken_emit e : unbroken (emit e).
Proof. by intros st r st' [= <- <-]. Qed.

Lemma unbroken_info m : unbroken (info m).
Proof. apply unbroken_emit. Qed.

Lemma unbroken_warning m : unbroken (warning m).
Proof. apply unbroken_emit. Qed.

Lemma unbroken_recordDeletion n : unbroken (recordDeletion n).
Proof. by intros st r st' [= <- <-]. Qed.

Lemma unbroken_countProcessed : unbroken countProcessed.
Proof. by intros st r st' [= <- <-]. Qed.

Lemma unbroken_await {A} rq (answer : History -> Response A) : unbroken (await rq answer).
Proof.
  intros st r st' H. unfold await in H.
  by destruct (answer (trace st)); injection H as <- <-.
Qed.

Lemma unbroken_bind {A B} (c : M A) (k : A -> M B) :
  unbroken c -> (forall a, unbroken (k a)) -> unbroken (bind c k).
Proof.
  intros Hc Hk st r st' H. unfold bind in H.
  destruct (c st) as [[a| | |e] st1] eqn:E; pose proof (Hc _ _ _ E) as P1; try done.
  - by eapply Hk.
  - by injection H as <- <-.
  - by injection H as <- <-.
Qed.

Lemma unbroken_tryCatch {A} (c : M A) (h : Exn -> M A) :
  unbroken c -> (forall e, unbroken (h e)) -> unbroken (tryCatch c h).
Proof.
  intros Hc Hh st r st' H. unfold tryCatch in H.
  destruct (c st) as [[a| | |e] st1] eqn:E; pose proof (Hc _ _ _ E) as P1; try done.
  - by injection H as <- <-.
  - by injection H as <- <-.
  - by eapply Hh.
Qed.

Ltac solve_unbroken :=
  repeat first
    [ simple apply unbroken_bind; [|intros ?]
    | simple apply unbroken_tryCatch; [|intros ?]
    | simple apply unbroken_info | simple apply unbroken_warning
    | simple apply unbroken_await | simple apply unbroken_emit
    | simple apply unbroken_ret | simple apply unbroken_continue
    | simple apply unbroken_throw
    | simple apply unbroken_recordDeletion
    | simple apply unbroken_countProcessed
    | head_case ].

Section Endings.

Variable octokit : Octokit.
Variable cfg : Config.

Lemma examine_unbroken b : unbroken (examine octokit cfg b).
Proof.
  unfold examine, checkOpenPRs, checkUnmerged, deleteOrReport. solve_unbroken.
Qed.

Lemma examine_throws b st e st' :
  examine octokit cfg b st = (Throw e, st') ->
  continueOnErrors cfg = false /\ endsWith st' (Warning ErrorStopping).
Proof.
  unfold examine, tryCatch. intros H.
  match type of H with
  | context [match ?x with pair _ _ => _ end] => destruct x as [[[]| | |e0] stb]
  end; try discriminate H.
  destruct (continueOnErrors cfg); [discriminate H|].
  unfold bind, warning, emit, throw in H. injection H as _ <-.
  split; [done|]. by eexists.
Qed.

(** One iteration: either it stops the loop before its branch is reached,
    or it reaches the branch and goes on, unless an error stops it. *)
Lemma processBranch_visit b st r st' :
  processBranch octokit cfg b st = (r, st') ->
  exists ev,
    trace st' = trace st ++ ev
    /\ ((reached ev = [] /\ (r = Break \/ exists e, r = Throw e) /\ PassEnd cfg r st')
        \/ (reached ev = [name b] /\ r <> Break
            /\ forall e, r = Throw e -> PassEnd cfg r st')).
Proof.
  intros H.
  destruct (processBranch_effect _ _ _ _ _ _ H) as (ev & added & [T _ _ _ _] & _).
  exists ev. split; [done|].
  destruct (processBranch_inv _ _ _ _ _ _ H) as (ok & st1 & _ & Q &
    [(_ & -> & ->)|[(_ & Cap & -> & ->)|(_ & Cap & [(_ & -> & m & Hm & ->)|(El & E)])]]);
    destruct (Quiet_ext _ _ Q) as (e1 & T1);
    destruct Q as (e1' & T1' & N1 & _ & _ & P1);
    rewrite T1 in T1'; apply app_inv_head in T1' as <-;
    destruct (neutral_facts _ N1) as (_ & _ & R1 & _).
  - left. cbn in T. rewrite T1, <- app_assoc in T. apply app_inv_head in T as <-.
    rewrite reached_app, R1. split_and!; [done|right; eauto|].
    left. split; [done|]. by eexists.
  - left. cbn in T. rewrite T1, <- app_assoc in T. apply app_inv_head in T as <-.
    rewrite reached_app, R1. split_and!; [done|by left|].
    split; [by eexists|]. cbn. lia.
  - right. cbn in T. rewrite T1, <- app_assoc in T. apply app_inv_head in T as <-.
    rewrite reached_app, R1. split_and!; [|done..].
    cbn. destruct m; try discriminate Hm; reflexivity.
  - right.
    set (st2 := after st1 [Info (BranchName (name b))]) in E.
    assert (stepping octokit cfg b (examine octokit cfg b ;; throttle cfg)) as Hstep.
    { apply stepping_bind_r; [apply examine_stepping|]. intros _. apply throttle_quiet. }
    destruct (Hstep _ _ _ E) as (ev2 & ? & [T2 _ _ _ _] & _ & B2 & _).
    destruct (benign_forallb _ B2) as (_ & R2).
    split_and!.
    + subst st2. cbn in T2. rewrite T2, T1, <- !app_assoc in T.
      apply app_inv_head in T as <-. rewrite !reached_app, R1, R2. done.
    + intros ->.
      apply bind_inv in E as [([] & st3 & Ex & Et)|[[Ab Er]|[[Ab Er]|(e & Ab & Er)]]];
        try discriminate Er.
      * destruct (throttle_completes cfg st3) as (? & Et'). congruence.
      * by apply examine_unbroken in Ab.
    + intros e ->.
      apply bind_inv in E as [([] & st3 & Ex & Et)|[[Ab Er]|[[Ab Er]|(e' & Ab & Er)]]];
        try discriminate Er.
      * destruct (throttle_completes cfg st3) as (? & Et'). congruence.
      * injection Er as <-. right. by eapply examine_throws.
Qed.

(** X10: the branches are reached in the order of the listing and none is
    passed over: the names logged by a pass are a prefix of the names of
    the listing, and all of them when the pass runs to its end. *)
Theorem branches_are_visited_in_listing_order branches st r st' :
  iterate octokit cfg branches st = (r, st') ->
  exists ev,
    trace st' = trace st ++ ev
    /\ reached ev `prefix_of` map name branches
    /\ (r = Normal tt -> reached ev = map name branches).
Proof.
  revert st. induction branches as [|b rest IH]; intros st H; cbn in H.
  - injection H as <- <-. exists []. by rewrite app_nil_r.
  - destruct (processBranch octokit cfg b st) as [r1 st1] eqn:Hb.
    destruct (processBranch_visit _ _ _ _ Hb) as (ev1 & T1 & V).
    assert (forall st2, iterate octokit cfg rest st1 = (r, st2) -> st2 = st' ->
            reached ev1 = [name b] ->
            exists ev, trace st' = trace st ++ ev
                       /\ reached ev `prefix_of` map name (b :: rest)
                       /\ (r = Normal tt -> reached ev = map name (b :: rest))) as Next.
    { intros st2 Hr -> R1. destruct (IH _ Hr) as (ev2 & T2 & P2 & N2).
      exists (ev1 ++ ev2). rewrite T2, T1, <- app_assoc, reached_app, R1. cbn.
      split_and!; [done|by apply prefix_cons|]. intros Hn. by rewrite (N2 Hn). }
    destruct V as [(R1 & [->|(e & ->)] & _)|(R1 & Nb & _)].
    + injection H as <- <-. exists ev1. rewrite R1. split_and!; [done|apply prefix_nil|done].
    + injection H as <- <-. exists ev1. rewrite R1. split_and!; [done|apply prefix_nil|done].
    + destruct r1 as [[]| | |e]; try done.
      * by eapply Next.
      * by eapply Next.
      * injection H as <- <-. exists ev1. rewrite R1. cbn.
        split_and!; [done| |done]. apply prefix_cons, prefix_nil.
Qed.

(** X11: a pass is left before the end of the listing in three ways only:
    by [break] at the cap, with the cap warning as the last event and the
    counter at the cap; by the failure of the rate-limit guard, with the
    stop warning as the last event; or, when [continueOnErrors] is not set,
    by an error met while a branch is examined, with the "stopping" warning
    as the last event.  With [continueOnErrors] set no such error ends the
    pass. *)
Theorem pass_ends_by_cap_guard_or_error branches st r st' :
  iterate octokit cfg branches st = (r, st') -> PassEnd cfg r st'.
Proof.
  revert st. induction branches as [|b rest IH]; intros st H; cbn in H.
  - by injection H as <- <-.
  - destruct (processBranch octokit cfg b st) as [r1 st1] eqn:Hb.
    destruct (processBranch_visit _ _ _ _ Hb) as (ev1 & T1 & V).
    destruct r1 as [[]| | |e]; eauto.
    + injection H as <- <-. destruct V as [(_ & _ & P)|(_ & Nb & _)]; done.
    + injection H as <- <-. destruct V as [(_ & _ & P)|(_ & _ & P)]; eauto.
Qed.

End Endings.

Section GuardStops.

Variable octokit : Octokit.
Variable cfg : Config.

Lemma isSafeToProceedWithApiCalls_low threshold st st1 :
  isSafeToProceedWithApiCalls octokit threshold st = (Normal false, st1) ->
  Answered st st1 rateLimit_get (on_rateLimit_get octokit)
    (fun remaining => remaining < threshold).
Proof.
  unfold isSafeToProceedWithApiCalls, tryCatch, bind, await, warning, emit, ret.
  destruct (on_rateLimit_get octokit (trace st)) as [n|m] eqn:E; cbn; [|discriminate].
  destruct (Z.ltb_spec n threshold); cbn; [|discriminate].
  intros [= <-]. exists (trace st), [Warning (RateLimitLow n)], n. cbn.
  rewrite <- app_assoc. done.
Qed.

Lemma processBranch_stop b st r st' ev :
  processBranch octokit cfg b st = (r, st') -> trace st' = trace st ++ ev ->
  existsb isRateLimitStop ev = true ->
  Answered st st' rateLimit_get (on_rateLimit_get octokit)
    (fun remaining => remaining < rateLimitThreshold cfg).
Proof.
  intros H T S.
  destruct (processBranch_inv _ _ _ _ _ _ H) as (ok & st1 & Es & Q &
    [(-> & _ & ->)|[(_ & _ & _ & ->)|(_ & _ & [(_ & _ & m & Hm & ->)|(El & E)])]]);
    destruct (Quiet_ext _ _ Q) as (e1 & T1);
    destruct Q as (e1' & T1' & N1 & _);
    rewrite T1 in T1'; apply app_inv_head in T1' as <-;
    destruct (neutral_facts _ N1) as (_ & S1 & _ & _).
  - eapply Answered_r; [|by apply isSafeToProceedWithApiCalls_low]. reflexivity.
  - exfalso. cbn in T. rewrite T1, <- app_assoc in T. apply app_inv_head in T as <-.
    rewrite existsb_app, S1 in S. done.
  - exfalso. cbn in T. rewrite T1, <- app_assoc in T. apply app_inv_head in T as <-.
    rewrite existsb_app, S1 in S. by destruct m.
  - exfalso.
    assert (stepping octokit cfg b (examine octokit cfg b ;; throttle cfg)) as Hstep.
    { apply stepping_bind_r; [apply examine_stepping|]. intros _. apply throttle_quiet. }
    destruct (Hstep _ _ _ E) as (ev2 & ? & [T2 _ _ _ _] & _ & B2 & _).
    destruct (benign_forallb _ B2) as (S2 & _).
    cbn in T2. rewrite T2, T1, <- !app_assoc in T. apply app_inv_head in T as <-.
    rewrite !existsb_app, S1, S2 in S. done.
Qed.

(** X12: the rate-limit guard stops a pass only on a reading of the quota
    that came back below the threshold: when the stop warning is among the
    events of a pass, the pass has thrown the rate-limit error, and one of
    its [rateLimit.get] calls was answered with a remaining quota below
    [rateLimitThreshold].  A reading that fails does not stop the pass. *)
Theorem guard_stops_only_on_low_quota branches st r st' ev :
  iterate octokit cfg branches st = (r, st') ->
  trace st' = trace st ++ ev ->
  existsb isRateLimitStop ev = true ->
  r = Throw rateLimitError
  /\ Answered st st' rateLimit_get (on_rateLimit_get octokit)
       (fun remaining => remaining < rateLimitThreshold cfg).
Proof.
  intros H T S. split.
  { destruct (iterate_effect _ _ _ _ _ _ H) as (ev' & ? & [T' _ _ _ _] & _ & _ & _ & St & _).
    rewrite T' in T. apply app_inv_head in T as <-. auto. }
  revert st ev H T S. induction branches as [|b rest IH]; intros st ev H T S; cbn in H.
  - injection H as <- <-. rewrite <- (app_nil_r (trace st)) in T at 1.
    apply app_inv_head in T as <-. done.
  - destruct (processBranch octokit cfg b st) as [r1 st1] eqn:Hb.
    destruct (processBranch_effect _ _ _ _ _ _ Hb)
      as (ev1 & ? & [T1 _ _ _ _] & _ & _ & _ & St1 & _).
    assert (forall st2, iterate octokit cfg rest st1 = (r, st2) -> st2 = st' ->
            r1 <> Throw rateLimitError ->
            Answered st st' rateLimit_get (on_rateLimit_get octokit)
              (fun remaining => remaining < rateLimitThreshold cfg)) as Next.
    { intros st2 Hr -> Hne.
      destruct (iterate_effect _ _ _ _ _ _ Hr) as (ev2 & ? & [T2 _ _ _ _] & _).
      rewrite T2, T1, <- app_assoc in T. apply app_inv_head in T as <-.
      rewrite existsb_app in S.
      destruct (existsb isRateLimitStop ev1) eqn:S1; [by destruct Hne; apply St1|].
      eapply Answered_l; [exact T1|]. by eapply IH. }
    destruct r1 as [[]| | |e].
    + by eapply Next.
    + by eapply Next.
    + injection H as <- <-. rewrite T1 in T. apply app_inv_head in T as <-.
      by eapply processBranch_stop.
    + injection H as <- <-. rewrite T1 in T. apply app_inv_head in T as <-.
      by eapply processBranch_stop.
Qed.

End GuardStops.

(** ** Pauses and calls of a pass *)

Section Pausing.

Variable octokit : Octokit.
Variable cfg : Config.

Lemma throttle_pauseAsConfigured : emits (pauseAsConfigured cfg) (throttle cfg).
Proof.
  unfold throttle. destruct (0 <? processThrottleMs cfg) eqn:E; [|apply emits_ret].
  apply emits_bind; [by apply emits_info|]. intros _.
  apply emits_emit. cbn. rewrite E. cbn. unfold Js.timerDelay.
  apply Z.ltb_lt in E.
  destruct (Z.ltb_spec (processThrottleMs cfg) 1); [lia|].
  destruct (Z.leb_spec (processThrottleMs cfg) 2147483647),
           (Z.ltb_spec 2147483647 (processThrottleMs cfg)); cbn; lia.
Qed.

Lemma processBranch_pauseAsConfigured b :
  emits (pauseAsConfigured cfg) (processBranch octokit cfg b).
Proof.
  unfold processBranch, isSafeToProceedWithApiCalls, examine, checkOpenPRs,
    checkUnmerged, deleteOrReport.
  repeat first [ simple apply throttle_pauseAsConfigured | progress solve_emits ].
Qed.

(** X13: a pass pauses only with a positive throttle.  Every pause then
    lasts [processThrottleMs] milliseconds when that is at most 2^31 - 1,
    the longest delay the timer of line 290 takes, and 1 millisecond when
    it is more; a pass with a throttle of 0 never pauses. *)
Theorem pauses_are_as_configured branches st r st' :
  iterate octokit cfg branches st = (r, st') ->
  exists ev,
    trace st' = trace st ++ ev
    /\ forallb (pauseAsConfigured cfg) ev = true
    /\ (processThrottleMs cfg <= 0 -> existsb isSleep ev = false).
Proof.
  intros H.
  destruct (emits_iterate _ _ _ branches processBranch_pauseAsConfigured _ _ _ H)
    as (ev & T & P).
  exists ev. split_and!; try done. intros Hz. clear T.
  induction ev as [|e ev IH]; [done|]. cbn in *.
  apply andb_true_iff in P as [Pe P]. rewrite (IH P), orb_false_r.
  destruct e; try done. cbn in Pe. apply andb_true_iff in Pe as [Pe _]. lia.
Qed.

End Pausing.

(** With a throttle of 2^31 milliseconds the pause after a branch is 1
    millisecond long. *)
Example pause_beyond_timer_range :
  throttle (Demo.config 2147483648 false) initialState =
  (Normal tt, mkState [Info (Waiting 2147483648); Sleep 1] [] 0 0).
Proof. reflexivity. Qed.

Lemma countedCalls_app l1 l2 :
  countedCalls (l1 ++ l2) = (countedCalls l1 + countedCalls l2)%nat.
Proof. unfold countedCalls. by rewrite List.filter_app, List.length_app. Qed.

Lemma Costs_refl st : Costs 0 st st.
Proof. exists []. by rewrite app_nil_r. Qed.

Lemma Costs_trans n m st1 st2 st3 :
  Costs n st1 st2 -> Costs m st2 st3 -> Costs (n + m) st1 st3.
Proof.
  intros (e1 & T1 & N1) (e2 & T2 & N2). exists (e1 ++ e2).
  rewrite T2, T1, <- app_assoc, countedCalls_app. split; [done|lia].
Qed.

Lemma Costs_le n m st st' : (n <= m)%nat -> Costs n st st' -> Costs m st st'.
Proof. intros L (ev & T & N). exists ev. split; [done|lia]. Qed.

Lemma costs_le {A} n m (c : M A) : costs n c -> (n <= m)%nat -> costs m c.
Proof. intros Hc L st r st' H. eapply Costs_le; [exact L|]. eapply Hc, H. Qed.

Lemma costs_same_trace {A} (c : M A) :
  (forall st r st', c st = (r, st') -> trace st' = trace st) -> costs 0 c.
Proof. intros H st r st' E. exists []. by rewrite app_nil_r, (H _ _ _ E). Qed.

Lemma costs_ret {A} (a : A) : costs 0 (ret a).
Proof. apply costs_same_trace. by intros st r st' [= <- <-]. Qed.

Lemma costs_continue {A} : costs 0 (@continue A).
Proof. apply costs_same_trace. by intros st r st' [= <- <-]. Qed.

Lemma costs_break {A} : costs 0 (@break A).
Proof. apply costs_same_trace. by intros st r st' [= <- <-]. Qed.

Lemma costs_throw {A} e : costs 0 (@throw A e).
Proof. apply costs_same_trace. by intros st r st' [= <- <-]. Qed.

Lemma costs_getProcessedCount : costs 0 getProcessedCount.
Proof. apply costs_same_trace. by intros st r st' [= <- <-]. Qed.

Lemma costs_recordDeletion n : costs 0 (recordDeletion n).
Proof. apply costs_same_trace. by intros st r st' [= <- <-]. Qed.

Lemma costs_countProcessed : costs 0 countProcessed.
Proof. apply costs_same_trace. by intros st r st' [= <- <-]. Qed.

Lemma costs_emit e : isCountedCall e = false -> costs 0 (emit e).
Proof.
  intros He st r st' [= <- <-]. exists [e]. unfold countedCalls. cbn.
  by rewrite He.
Qed.

Lemma costs_info m : costs 0 (info m).
Proof. by apply costs_emit. Qed.

Lemma costs_warning m : costs 0 (warning m).
Proof. by apply costs_emit. Qed.

Lemma costs_await {A} rq (answer : History -> Response A) : costs 1 (await rq answer).
Proof.
  intros st r st' H. unfold await in H. exists [Api rq]. unfold countedCalls.
  destruct (answer (trace st)); injection H as <- <-; (split; [done|]);
    destruct rq; cbn; lia.
Qed.

Lemma costs_bind {A B} n m (c : M A) (k : A -> M B) :
  costs n c -> (forall a, costs m (k a)) -> costs (n + m) (bind c k).
Proof.
  intros Hc Hk st r st' H. unfold bind in H.
  destruct (c st) as [[a| | |e] st1] eqn:E; pose proof (Hc _ _ _ E) as U1.
  - eapply Costs_trans; [exact U1|]. eapply Hk, H.
  - injection H as <- <-. eapply Costs_le; [|exact U1]. lia.
  - injection H as <- <-. eapply Costs_le; [|exact U1]. lia.
  - injection H as <- <-. eapply Costs_le; [|exact U1]. lia.
Qed.

Lemma costs_tryCatch {A} n m (c : M A) (h : Exn -> M A) :
  costs n c -> (forall e, costs m (h e)) -> costs (n + m) (tryCatch c h).
Proof.
  intros Hc Hh st r st' H. unfold tryCatch in H.
  destruct (c st) as [[a| | |e] st1] eqn:E; pose proof (Hc _ _ _ E) as U1.
  - injection H as <- <-. eapply Costs_le; [|exact U1]. lia.
  - injection H as <- <-. eapply Costs_le; [|exact U1]. lia.
  - injection H as <- <-. eapply Costs_le; [|exact U1]. lia.
  - eapply Costs_trans; [exact U1|]. eapply Hh, H.
Qed.

Lemma costs_if {A} n m (t : bool) (c1 c2 : M A) :
  costs n c1 -> costs m c2 -> costs (Nat.max n m) (if t then c1 else c2).
Proof.
  intros H1 H2. destruct t; (eapply costs_le; [eassumption|lia]).
Qed.

(** The bound of a command, collected from its parts. *)
Ltac costs_step :=
  first
    [ simple apply costs_info | simple apply costs_warning
    | simple apply costs_emit; reflexivity
    | simple apply costs_await
    | simple apply costs_ret | simple apply costs_continue
    | simple apply costs_break | simple apply costs_throw
    | simple apply costs_getProcessedCount
    | simple apply costs_recordDeletion
    | simple apply costs_countProcessed
    | simple eapply costs_bind; [|intros ?; cbv zeta]
    | simple eapply costs_tryCatch; [|intros ?]
    | simple eapply costs_if ].

Ltac solve_costs := cbv zeta; repeat costs_step.

Section Budget.

Variable octokit : Octokit.
Variable cfg : Config.

Lemma isSafeToProceedWithApiCalls_costs t :
  costs 0 (isSafeToProceedWithApiCalls octokit t).
Proof.
  intros st r st' H.
  unfold isSafeToProceedWithApiCalls, tryCatch, bind, await, warning, emit, ret in H.
  destruct (on_rateLimit_get octokit (trace st)) as [n|m]; cbn in H;
    [destruct (n <? t); cbn in H|];
    injection H as <- <-; eexists;
    (split; [cbn; rewrite <- ?app_assoc; reflexivity|]); unfold countedCalls; cbn; lia.
Qed.

Lemma examine_costs b : costs 5 (examine octokit cfg b).
Proof.
  unfold examine, checkOpenPRs, checkUnmerged, deleteOrReport.
  eapply costs_le; [solve_costs|]. cbn. lia.
Qed.

Lemma throttle_costs : costs 0 (throttle cfg).
Proof. unfold throttle. eapply costs_le; [solve_costs|]. cbn. lia. Qed.

Lemma processBranch_costs b :
  costs (if examined cfg b then 5 else 0) (processBranch octokit cfg b).
Proof.
  unfold processBranch, examined.
  destruct (String.eqb (name b) (defaultBranch cfg));
    [|destruct (protected b); [|destruct (isExcluded (rules cfg) (name b))]];
    cbn [negb andb];
    (eapply costs_le;
     [ repeat first [ simple apply isSafeToProceedWithApiCalls_costs
                    | simple apply examine_costs
                    | simple apply throttle_costs
                    | costs_step ]
     | cbn; lia ]).
Qed.

(** X14: besides the readings of the quota, a pass issues at most five
    calls of the client for each branch it examines, and none for the
    default branch, a protected branch or an excluded branch (a paginated
    listing counts as one call). *)
Theorem pass_calls_within_budget branches st r st' :
  iterate octokit cfg branches st = (r, st') ->
  exists ev,
    trace st' = trace st ++ ev
    /\ (countedCalls ev <= 5 * length (List.filter (examined cfg) branches))%nat.
Proof.
  revert st. induction branches as [|b rest IH]; intros st H; cbn in H.
  - injection H as <- <-. exists []. by rewrite app_nil_r.
  - destruct (processBranch octokit cfg b st) as [r1 st1] eqn:Hb.
    destruct (processBranch_costs b _ _ _ Hb) as (ev1 & T1 & C1).
    assert (countedCalls ev1 + 5 * length (List.filter (examined cfg) rest)
            <= 5 * length (List.filter (examined cfg) (b :: rest)))%nat as Hsum.
    { cbn [List.filter]. destruct (examined cfg b); cbn [length]; lia. }
    assert (forall st2, iterate octokit cfg rest st1 = (r, st2) -> st2 = st' ->
            exists ev, trace st' = trace st ++ ev
                       /\ (countedCalls ev
                           <= 5 * length (List.filter (examined cfg) (b :: rest)))%nat) as Next.
    { intros st2 Hr ->. destruct (IH _ Hr) as (ev2 & T2 & C2).
      exists (ev1 ++ ev2). rewrite T2, T1, <- app_assoc, countedCalls_app.
      split; [done|lia]. }
    destruct r1 as [[]| | |e]; eauto;
      injection H as <- <-; exists ev1; (split; [done|lia]).
Qed.

End Budget.

(** ** A dry run against a real run *)

Lemma wouldDeleteFrom_app cur l1 l2 :
  exists cur', wouldDeleteFrom cur (l1 ++ l2)
               = wouldDeleteFrom cur l1 ++ wouldDeleteFrom cur' l2.
Proof.
  revert cur. induction l1 as [|e l1 IH]; intros cur; [by exists cur|].
  destruct e as [rq|m|m|ms|k v|x]; cbn; try apply IH.
  destruct m; try apply IH.
  destruct cur as [n|]; [|apply IH].
  destruct (IH (Some n)) as (cur' & E). exists cur'. by rewrite E.
Qed.

Ltac split_test :=
  match goal with
  | |- context [match ?x with _ => _ end] =>
      lazymatch x with
      | context [match _ with _ => _ end] => fail
      | _ => destruct x eqn:?
      end
  end.

Section DryRun.

Variable octokit : Octokit.
Variable cfg : Config.

Hypothesis stateless : Stateless octokit.
Hypothesis deletionsSucceed : DeletionsSucceed octokit.

Lemma processBranch_dry_real b sd sr :
  processedCount sd = processedCount sr ->
  exists r evd sd' sr' added,
    processBranch octokit (withDryRun true cfg) b sd = (r, sd')
    /\ processBranch octokit (withDryRun false cfg) b sr = (r, sr')
    /\ trace sd' = trace sd ++ evd
    /\ outputDeletedBranches sr' = outputDeletedBranches sr ++ added
    /\ (forall cur, wouldDeleteFrom cur evd = added)
    /\ processedCount sd' = processedCount sr'.
Proof.
  intros Hp. destruct stateless as (Hrl & Hgc & Hpo & Hpa & Hcc).
  pose (rl := on_rateLimit_get octokit []).
  pose (gc := on_repos_getCommit octokit []).
  pose (po := on_pulls_list_open octokit []).
  pose (pa := on_pulls_list_all octokit []).
  pose (cc := on_repos_compareCommits octokit []).
  assert (forall h, on_rateLimit_get octokit h = rl) as Erl by (intros; apply Hrl).
  assert (forall h o r sha, on_repos_getCommit octokit h o r sha = gc o r sha) as Egc
    by (intros; apply Hgc).
  assert (forall h o r head, on_pulls_list_open octokit h o r head = po o r head) as Epo
    by (intros; apply Hpo).
  assert (forall h o r head, on_pulls_list_all octokit h o r head = pa o r head) as Epa
    by (intros; apply Hpa).
  assert (forall h o r base head,
            on_repos_compareCommits octokit h o r base head = cc o r base head) as Ecc
    by (intros; apply Hcc).
  clearbody rl gc po pa cc. clear Hrl Hgc Hpo Hpa Hcc.
  unfold_commands. unfold headOf. cbn [withDryRun staleDays skipUmerged skipOpenPRs includeClosedPRs
    maxBranchesToDelete processThrottleMs rateLimitThreshold continueOnErrors dryRun
    now rules owner repo defaultBranch].
  rewrite <- Hp.
  repeat (rewrite ?Erl, ?Egc, ?Epo, ?Epa, ?Ecc, ?deletionsSucceed;
          split_test;
          cbn -[Z.ltb Z.leb String.eqb isExcluded isStale existsb Nat.ltb]).
  all: rewrite ?Erl, ?Egc, ?Epo, ?Epa, ?Ecc, ?deletionsSucceed.
  all: eexists _, _, _, _, _; split_and!;
    [ reflexivity | reflexivity
    | cbn; rewrite <- ?app_assoc; cbn; reflexivity
    | cbn; first [reflexivity | symmetry; apply app_nil_r]
    | intros cur; reflexivity
    | cbn; lia ].
Qed.

Lemma iterate_dry_real branches sd sr :
  processedCount sd = processedCount sr ->
  exists r evd sd' sr' added,
    iterate octokit (withDryRun true cfg) branches sd = (r, sd')
    /\ iterate octokit (withDryRun false cfg) branches sr = (r, sr')
    /\ trace sd' = trace sd ++ evd
    /\ outputDeletedBranches sr' = outputDeletedBranches sr ++ added
    /\ (forall cur, wouldDeleteFrom cur evd = added)
    /\ processedCount sd' = processedCount sr'.
Proof.
  revert sd sr. induction branches as [|b rest IH]; intros sd sr Hp.
  - exists (Normal tt), [], sd, sr, []. by rewrite !app_nil_r.
  - destruct (processBranch_dry_real b sd sr Hp)
      as (r1 & ev1 & sd1 & sr1 & a1 & Ed & Er & T1 & O1 & W1 & P1).
    cbn [iterate]. rewrite Ed, Er.
    assert (exists r evd sd' sr' added,
              iterate octokit (withDryRun true cfg) rest sd1 = (r, sd')
              /\ iterate octokit (withDryRun false cfg) rest sr1 = (r, sr')
              /\ trace sd' = trace sd ++ evd
              /\ outputDeletedBranches sr' = outputDeletedBranches sr ++ added
              /\ (forall cur, wouldDeleteFrom cur evd = added)
              /\ processedCount sd' = processedCount sr') as Next.
    { destruct (IH sd1 sr1 P1) as (r & ev2 & sd' & sr' & a2 & Ed' & Er' & T2 & O2 & W2 & P2).
      exists r, (ev1 ++ ev2), sd', sr', (a1 ++ a2).
      rewrite T2, T1, O2, O1, <- !app_assoc. split_and!; try done.
      intros cur. destruct (wouldDeleteFrom_app cur ev1 ev2) as (cur' & ->).
      by rewrite W1, W2. }
    destruct r1 as [[]| | |e]; try exact Next.
    + exists Break, ev1, sd1, sr1, a1. done.
    + exists (Throw e), ev1, sd1, sr1, a1. done.
Qed.

End DryRun.

(** X15: with a client that answers alike throughout and confirms every
    deletion, a dry run and a real run over the same branches, started with
    the same count, end the same way, and the names the real run adds to
    the list of deleted branches are, in order, those the dry run reports
    as would-delete. *)
Theorem dry_run_predicts_the_deletions octokit cfg branches sd sr :
  Stateless octokit -> DeletionsSucceed octokit ->
  processedCount sd = processedCount sr ->
  exists r evd sd' sr',
    iterate octokit (withDryRun true cfg) branches sd = (r, sd')
    /\ iterate octokit (withDryRun false cfg) branches sr = (r, sr')
    /\ trace sd' = trace sd ++ evd
    /\ outputDeletedBranches sr' = outputDeletedBranches sr ++ wouldDeleteNames evd.
Proof.
  intros Hs Hd Hp.
  destruct (iterate_dry_real octokit cfg Hs Hd branches sd sr Hp)
    as (r & evd & sd' & sr' & added & Ed & Er & T & O & W & _).
  exists r, evd, sd', sr'. unfold wouldDeleteNames. by rewrite W.
Qed.

Lemma dry_run_predicts_the_deletions_witness :
  exists r evd sd' sr',
    iterate Demo.world (withDryRun true (Demo.config 0 false)) Demo.branches initialState
    = (r, sd')
    /\ iterate Demo.world (withDryRun false (Demo.config 0 false)) Demo.branches initialState
       = (r, sr')
    /\ trace sd' = trace initialState ++ evd
    /\ outputDeletedBranches sr'
       = outputDeletedBranches initialState ++ wouldDeleteNames evd.
Proof.
  apply (dry_run_predicts_the_deletions Demo.world (Demo.config 0 false) Demo.branches
           initialState initialState).
  - repeat split; intros; reflexivity.
  - intros h o r ref. reflexivity.
  - reflexivity.
Defined.

(** ** Runs that do not get to the branches *)

Ltac solve_quiet_run :=
  repeat first
    [ simple apply quiet_setOutputs
    | simple apply quiet_ret | simple apply quiet_throw
    | simple apply quiet_info; reflexivity
    | simple apply quiet_warning; reflexivity
    | simple apply quiet_emit; reflexivity
    | simple apply quiet_await; reflexivity
    | simple apply quiet_bind; [|intros ?]
    | simple apply quiet_tryCatch; [|intros ?]
    | head_case ].

Ltac solve_emits_run :=
  repeat first
    [ simple apply emits_setOutputs; [intros ? ?; reflexivity | intros ?; reflexivity]
    | simple apply emits_bind; [|intros ?]
    | simple apply emits_tryCatch; [|intros ?]
    | simple apply emits_info; reflexivity
    | simple apply emits_warning; reflexivity
    | simple apply emits_emit; reflexivity
    | simple apply emits_await; reflexivity
    | simple apply emits_ret | simple apply emits_throw
    | head_case ].

Section UnsupportedEvent.

Variable getInput : string -> string.
Variable context : Context.
Variable clock : Z.
Variable octokit : Octokit.

Hypothesis notDispatch : String.eqb (eventName context) "workflow_dispatch" = false.
Hypothesis notSchedule : String.eqb (eventName context) "schedule" = false.

Lemma unsupported_quiet c :
  quiet (tryCatch (body getInput context clock octokit c) handler).
Proof.
  unfold body, validated, handler. rewrite notDispatch, notSchedule. cbn [orb].
  solve_quiet_run.
Qed.

Lemma unsupported_idle c :
  emits idle (tryCatch (body getInput context clock octokit c) handler).
Proof.
  unfold body, validated, handler. rewrite notDispatch, notSchedule. cbn [orb].
  solve_emits_run.
Qed.

End UnsupportedEvent.

(** X16: on an event other than [workflow_dispatch] and [schedule] the
    run, whatever compiling the exclusion list gave, looks at no branch:
    the only call of the client it can make is [repos.get], it never
    pauses, and the list of deleted branches is empty. *)
Theorem unsupported_event_touches_no_branch getInput context clock octokit c st :
  snd (tryCatch (body getInput context clock octokit c) handler initialState) = st ->
  String.eqb (eventName context) "workflow_dispatch" = false ->
  String.eqb (eventName context) "schedule" = false ->
  outputDeletedBranches st = [] /\ forallb idle (trace st) = true.
Proof.
  intros H Hd Hs.
  assert (exists r, tryCatch (body getInput context clock octokit c) handler initialState
                    = (r, st)) as (r & E).
  { rewrite <- H. eexists. apply surjective_pairing. }
  destruct (unsupported_quiet _ _ _ _ Hd Hs _ _ _ _ E) as (? & _ & _ & O & _).
  destruct (unsupported_idle _ _ _ _ Hd Hs _ _ _ _ E) as (ev & T & I).
  split; [exact O|]. by rewrite T.
Qed.

Lemma unsupported_event_touches_no_branch_witness :
  exists st,
    main (inputsWith defaultSkipBranches "0" "false") (mkContext "octo" "demo" "push")
         Demo.clock Demo.world = Some st
    /\ outputDeletedBranches st = [] /\ forallb idle (trace st) = true.
Proof.
  eexists. split; [vm_compute; reflexivity|].
  eapply (unsupported_event_touches_no_branch
            (inputsWith defaultSkipBranches "0" "false") (mkContext "octo" "demo" "push")
            Demo.clock Demo.world (inr Demo.defaultRules)).
  - vm_compute. reflexivity.
  - reflexivity.
  - reflexivity.
Defined.

(** ** The pass inside the run *)

Lemma validated_inv {A} v ok msg (k : Z -> M A) st r st' :
  validated v ok msg k st = (r, st') ->
  (exists n, v = Some n /\ ok n = true /\ k n st = (r, st'))
  \/ (r = Throw (Error msg) /\ st' = st).
Proof.
  unfold validated. destruct v as [n|]; [destruct (ok n) eqn:E|]; intros H.
  - left. eauto.
  - right. by injection H as <- <-.
  - right. by injection H as <- <-.
Qed.

Lemma bind_quiet_inv {A B} (c : M A) (k : A -> M B) st r st' :
  quiet c -> bind c k st = (r, st') ->
  (exists a st1, c st = (Normal a, st1) /\ Quiet st st1 /\ k a st1 = (r, st'))
  \/ Quiet st st'.
Proof.
  intros Qc H. apply bind_inv in H as [(a & st1 & E & H)|[[E _]|[[E _]|(e & E & _)]]].
  - left. exists a, st1. split_and!; try done. by eapply Qc.
  - right. by eapply Qc.
  - right. by eapply Qc.
  - right. by eapply Qc.
Qed.

Lemma await_normal {A} rq (answer : History -> Response A) st a st' :
  await rq answer st = (Normal a, st') -> answer (trace st) = Resolved a.
Proof. unfold await. destruct (answer (trace st)); [by intros [= <- _]|done]. Qed.

Lemma processBranches_inv octokit cfg branches st r st' :
  processBranches octokit cfg branches st = (r, st') ->
  exists r1, iterate octokit cfg branches st = (r1, st').
Proof.
  unfold processBranches. destruct (iterate octokit cfg branches st) as [[[]| | |e] st1];
    intros [= <- <-]; eauto.
Qed.

(** Peel the first command of a sequence when it is quiet. *)
Ltac peel H Q0 :=
  let Qn := fresh "Qn" in let E := fresh "E" in
  let a := fresh "a" in let s := fresh "s" in
  apply bind_quiet_inv in H as [(a & s & E & Qn & H)|Qn];
  [ let Qt := fresh "Qt" in
    pose proof (Quiet_trans _ _ _ Q0 Qn) as Qt; clear Q0 Qn; rename Qt into Q0
  | left; exact (Quiet_trans _ _ _ Q0 Qn)
  | solve_quiet_run ].

(** The same inside a stretch that is followed by a quiet one. *)
Ltac peel_before H Q0 Qc :=
  let Qn := fresh "Qn" in let E := fresh "E" in
  let a := fresh "a" in let s := fresh "s" in
  apply bind_quiet_inv in H as [(a & s & E & Qn & H)|Qn];
  [ let Qt := fresh "Qt" in
    pose proof (Quiet_trans _ _ _ Q0 Qn) as Qt; clear Q0 Qn; rename Qt into Q0
  | left; exact (Quiet_trans _ _ _ (Quiet_trans _ _ _ Q0 Qn) Qc)
  | solve_quiet_run ].

Section RunInversion.

Variable getInput : string -> string.
Variable context : Context.
Variable clock : Z.
Variable octokit : Octokit.

Lemma body_pass c r st :
  body getInput context clock octokit c initialState = (r, st) ->
  Quiet initialState st
  \/ exists rules repo branches sd mx th rl pre r1 st2,
       c = inr rules
       /\ Js.parseInt (getInput "max-branches-to-delete") = Some mx /\ 0 < mx
       /\ (exists h, on_repos_get octokit h (repo_owner context) (repo_repo context)
                     = Resolved repo)
       /\ (exists h, on_repos_listBranches octokit h (repo_owner context) (repo_repo context)
                     = Resolved branches)
       /\ supported context
       /\ forallb neutral pre = true
       /\ iterate octokit (configOf getInput context clock rules repo sd mx th rl) branches
            (mkState pre [] 0 0) = (r1, st2)
       /\ Quiet st2 st.
Proof.
  intros H. unfold body in H. cbv zeta in H.
  apply validated_inv in H as [(sd & Esd & Hsd & H)|[-> ->]]; [|left; apply Quiet_refl].
  apply validated_inv in H as [(mx & Emx & Hmx & H)|[-> ->]]; [|left; apply Quiet_refl].
  apply validated_inv in H as [(th & Eth & Hth & H)|[-> ->]]; [|left; apply Quiet_refl].
  apply validated_inv in H as [(rl & Erl & Hrl & H)|[-> ->]]; [|left; apply Quiet_refl].
  pose proof (Quiet_refl initialState) as Q0.
  peel H Q0.
  destruct c as [e|rules].
  { left. injection H as _ <-. done. }
  do 8 (peel H Q0).
  clear E E0 E1 E2 E3 E4 E5 E6 E7.
  apply bind_quiet_inv in H as [(repo & sRepo & Erepo%await_normal & Qn & H)|Qn];
    [|left; exact (Quiet_trans _ _ _ Q0 Qn)|solve_quiet_run].
  pose proof (Quiet_trans _ _ _ Q0 Qn) as Q8. clear Q0 Qn.
  do 5 (peel H Q8).
  match type of H with
  | bind ?c _ ?s = _ =>
      assert (exists rc sc, c s = (rc, sc) /\ Quiet sc st) as (rc & sc & Hc & Qc)
  end.
  { apply bind_inv in H as [(a' & s' & E' & H)|[[E' _]|[[E' _]|(e & E' & _)]]];
      eauto using Quiet_refl.
    eexists _, _. split; [exact E'|]. exact (quiet_setOutputs _ _ _ H). }
  clear H.
  destruct (String.eqb (eventName context) "workflow_dispatch"
            || String.eqb (eventName context) "schedule") eqn:Ev.
  2:{ left. eapply Quiet_trans; [|exact Qc]. eapply Quiet_trans; [exact Q8|].
      exact (quiet_info (EventNotSupported (eventName context)) eq_refl _ _ _ Hc). }
  assert (supported context) as Hsup.
  { apply orb_true_iff in Ev as [Ev|Ev]; apply String.eqb_eq in Ev; [by left|by right]. }
  peel_before Hc Q8 Qc.
  apply bind_quiet_inv in Hc as [(branches & sList & Ebr%await_normal & Qn & Hc)|Qn];
    [|left; exact (Quiet_trans _ _ _ (Quiet_trans _ _ _ Q8 Qn) Qc)|solve_quiet_run].
  pose proof (Quiet_trans _ _ _ Q8 Qn) as Q9. clear Q8 Qn.
  do 2 (peel_before Hc Q9 Qc).
  unfold bind at 1, resetProcessed in Hc.
  match type of Hc with
  | bind _ _ (mkState (trace ?s) _ _ _) = _ => rename s into sPre
  end.
  assert (exists r1 st2,
            iterate octokit (configOf getInput context clock rules repo sd mx th rl) branches
              (mkState (trace sPre) [] 0 0) = (r1, st2)
            /\ Quiet st2 sc) as (r1 & st2 & Hit & Q2).
  { destruct Q9 as (? & _ & _ & O & D & _). cbn in O, D. rewrite O, D in Hc.
    apply bind_inv in Hc as [(a' & s' & E' & Hc)|[[E' _]|[[E' _]|(e & E' & _)]]];
      apply processBranches_inv in E' as (r1 & E'); exists r1; eexists;
      (split; [exact E'|]); try apply Quiet_refl.
    exact (quiet_info CleanupComplete eq_refl _ _ _ Hc). }
  right. exists rules, repo, branches, sd, mx, th, rl, (trace sPre), r1, st2.
  split_and!; eauto.
  - apply negb_true_iff, Z.leb_gt in Hmx. lia.
  - destruct Q9 as (ev & T & N & _). cbn in T. by rewrite T.
  - by eapply Quiet_trans.
Qed.

(** The same for the script: the [try] block under the handler of lines
    300 to 306. *)
Lemma run_pass c st :
  snd (tryCatch (body getInput context clock octokit c) handler initialState) = st ->
  Quiet initialState st
  \/ exists rules repo branches sd mx th rl pre r1 st2,
       c = inr rules
       /\ Js.parseInt (getInput "max-branches-to-delete") = Some mx /\ 0 < mx
       /\ (exists h, on_repos_get octokit h (repo_owner context) (repo_repo context)
                     = Resolved repo)
       /\ (exists h, on_repos_listBranches octokit h (repo_owner context) (repo_repo context)
                     = Resolved branches)
       /\ supported context
       /\ forallb neutral pre = true
       /\ iterate octokit (configOf getInput context clock rules repo sd mx th rl) branches
            (mkState pre [] 0 0) = (r1, st2)
       /\ Quiet st2 st.
Proof.
  intros H.
  assert (exists rb sb, body getInput context clock octokit c initialState = (rb, sb)
                        /\ Quiet sb st) as (rb & sb & Eb & Qb).
  { rewrite <- H. unfold tryCatch.
    destruct (body getInput context clock octokit c initialState) as [rb sb] eqn:Eb.
    exists rb, sb. split; [done|].
    destruct rb as [[]| | |e]; try apply Quiet_refl.
    assert (quiet (handler e)) as Qh by (unfold handler; solve_quiet_run).
    eapply Qh, surjective_pairing. }
  destruct (body_pass _ _ _ Eb)
    as [Q|(rules & repo & branches & sd & mx & th & rl & pre & r1 & st2 &
           Ec & Emx & Hmx & Hrepo & Hbr & Hsup & Npre & Hit & Q2)].
  - left. by eapply Quiet_trans.
  - right. exists rules, repo, branches, sd, mx, th, rl, pre, r1, st2.
    split_and!; try done. by eapply Quiet_trans.
Qed.

End RunInversion.

(** X17: at the end of a run, whatever compiling the exclusion list gave,
    the list of deleted branches holds no more names than
    [max-branches-to-delete] allows; when that input is not a number the
    list is empty. *)
Theorem run_deletes_no_more_than_the_cap getInput context clock octokit c st :
  snd (tryCatch (body getInput context clock octokit c) handler initialState) = st ->
  match Js.parseInt (getInput "max-branches-to-delete") with
  | Some cap => Z.of_nat (length (outputDeletedBranches st)) <= Z.max 0 cap
  | None => outputDeletedBranches st = []
  end.
Proof.
  intros H.
  destruct (run_pass _ _ _ _ _ _ H)
    as [Q|(rules & repo & branches & sd & mx & th & rl & pre & r1 & st2 &
           Ec & Emx & Hmx & _ & _ & _ & _ & Hit & Q2)].
  - destruct Q as (? & _ & _ & O & _). rewrite O. cbn.
    destruct (Js.parseInt (getInput "max-branches-to-delete")); [lia|done].
  - rewrite Emx. destruct Q2 as (? & _ & _ & -> & _).
    destruct (iterate_effect _ _ _ _ _ _ Hit)
      as (ev & added & [_ O _ _ P] & _ & _ & _ & _ & C).
    cbn in O, P, C. rewrite O.
    pose proof (C ltac:(lia)) as C'.
    assert (0 <= countWouldDelete ev) by (unfold countWouldDelete; lia).
    lia.
Qed.

Lemma run_deletes_no_more_than_the_cap_witness :
  exists st,
    main (inputsWith defaultSkipBranches "0" "false") Demo.context Demo.clock Demo.world
    = Some st
    /\ Z.of_nat (length (outputDeletedBranches st)) <= Z.max 0 500.
Proof.
  eexists. split; [vm_compute; reflexivity|].
  apply (run_deletes_no_more_than_the_cap
           (inputsWith defaultSkipBranches "0" "false") Demo.context Demo.clock Demo.world
           (inr Demo.defaultRules)).
  vm_compute. reflexivity.
Defined.

(** X18: whatever the client answers and whatever compiling the exclusion
    list gave, a run calls delete-ref only when the list compiled to a rule
    set, and only for a branch of the listing it was given, in the
    repository of the run, that is not the default branch of the repository
    as [repos.get] gave it, not protected and not excluded by that rule
    set; and never when [dry-run] is [true] or the event is not one of the
    two the script acts on. *)
Theorem run_deletes_only_unprotected_listed_branches
    getInput context clock octokit c st o rp ref :
  snd (tryCatch (body getInput context clock octokit c) handler initialState) = st ->
  In (Api (git_deleteRef o rp ref)) (trace st) ->
  exists rules repo branches b,
    c = inr rules
    /\ (exists h, on_repos_get octokit h (repo_owner context) (repo_repo context)
                  = Resolved repo)
    /\ (exists h, on_repos_listBranches octokit h (repo_owner context) (repo_repo context)
                  = Resolved branches)
    /\ In b branches
    /\ o = repo_owner context /\ rp = repo_repo context
    /\ ref = "heads/" +:+ name b
    /\ name b <> default_branch repo
    /\ protected b = false
    /\ isExcluded rules (name b) = false
    /\ getInput "dry-run" <> "true"
    /\ supported context.
Proof.
  intros H Hin.
  destruct (run_pass _ _ _ _ _ _ H)
    as [Q|(rules & repo & branches & sd & mx & th & rl & pre & r1 & st2 &
           Ec & Emx & Hmx & Hrepo & Hbr & Hsup & Npre & Hit & Q2)].
  - exfalso. destruct Q as (ev & T & N & _). cbn in T. rewrite T in Hin.
    destruct (neutral_facts _ N) as (_ & _ & _ & F).
    rewrite forallb_forall in F. by specialize (F _ Hin).
  - destruct Q2 as (post & T2 & N2 & _).
    destruct (iterate_effect _ _ _ _ _ _ Hit) as (ev & added & [T _ _ _ _] & _).
    cbn in T. rewrite T2, T in Hin.
    assert (In (Api (git_deleteRef o rp ref)) ev) as Hev.
    { apply in_app_or in Hin as [Hin|Hin]; [apply in_app_or in Hin as [Hin|Hin]|]; [|done|].
      - exfalso. destruct (neutral_facts _ Npre) as (_ & _ & _ & F).
        rewrite forallb_forall in F. by specialize (F _ Hin).
      - exfalso. destruct (neutral_facts _ N2) as (_ & _ & _ & F).
        rewrite forallb_forall in F. by specialize (F _ Hin). }
    destruct (iterate_justified _ _ _ _ _ _ _ _ _ _ Hit T Hev)
      as (b & Hb & -> & -> & -> & Hdry & (Hd & Hp & He) & _).
    exists rules, repo, branches, b. cbn in *.
    split_and!; try done.
    + by apply String.eqb_neq.
    + by apply String.eqb_neq.
Qed.

(** *** Concrete runs *)

Lemma guard_stops_only_on_low_quota_witness :
  fst (iterate Demo.tightWorld (Demo.config 0 false) Demo.branches initialState)
  = Throw rateLimitError
  /\ Answered initialState
       (snd (iterate Demo.tightWorld (Demo.config 0 false) Demo.branches initialState))
       rateLimit_get (on_rateLimit_get Demo.tightWorld)
       (fun remaining => remaining < rateLimitThreshold (Demo.config 0 false)).
Proof.
  apply (guard_stops_only_on_low_quota Demo.tightWorld (Demo.config 0 false) Demo.branches
           initialState
           (fst (iterate Demo.tightWorld (Demo.config 0 false) Demo.branches initialState))
           (snd (iterate Demo.tightWorld (Demo.config 0 false) Demo.branches initialState))
           (trace (snd (iterate Demo.tightWorld (Demo.config 0 false) Demo.branches
                          initialState)))).
  - apply surjective_pairing.
  - reflexivity.
  - vm_compute. reflexivity.
Defined.

Lemma every_deletion_is_justified_witness :
  exists b,
    In b Demo.branches
    /\ "octo" = owner (Demo.config 0 false) /\ "demo" = repo (Demo.config 0 false)
    /\ "heads/old" = refOf b
    /\ dryRun (Demo.config 0 false) = false
    /\ Justified Demo.world (Demo.config 0 false) b initialState
         (snd (iterate Demo.world (Demo.config 0 false) Demo.branches initialState)).
Proof.
  apply (every_deletion_is_justified Demo.world (Demo.config 0 false) Demo.branches
           initialState
           (fst (iterate Demo.world (Demo.config 0 false) Demo.branches initialState))
           (snd (iterate Demo.world (Demo.config 0 false) Demo.branches initialState))
           (trace (snd (iterate Demo.world (Demo.config 0 false) Demo.branches
                          initialState)))).
  - apply surjective_pairing.
  - reflexivity.
  - vm_compute. tauto.
Defined.

Lemma branches_are_visited_in_listing_order_witness :
  exists ev,
    trace (snd (iterate Demo.world (Demo.config 0 false) Demo.branches initialState))
    = trace initialState ++ ev
    /\ reached ev `prefix_of` map name Demo.branches
    /\ (fst (iterate Demo.world (Demo.config 0 false) Demo.branches initialState) = Normal tt ->
        reached ev = map name Demo.branches).
Proof.
  apply (branches_are_visited_in_listing_order Demo.world (Demo.config 0 false)
           Demo.branches initialState).
  apply surjective_pairing.
Defined.

Lemma pass_ends_by_cap_guard_or_error_witness :
  PassEnd (Demo.config 0 false)
    (fst (iterate Demo.tightWorld (Demo.config 0 false) Demo.branches initialState))
    (snd (iterate Demo.tightWorld (Demo.config 0 false) Demo.branches initialState)).
Proof.
  apply (pass_ends_by_cap_guard_or_error Demo.tightWorld (Demo.config 0 false)
           Demo.branches initialState).
  apply surjective_pairing.
Defined.

Lemma pauses_are_as_configured_witness :
  exists ev,
    trace (snd (iterate Demo.world (Demo.config 250 false) Demo.branches initialState))
    = trace initialState ++ ev
    /\ forallb (pauseAsConfigured (Demo.config 250 false)) ev = true
    /\ (processThrottleMs (Demo.config 250 false) <= 0 -> existsb isSleep ev = false).
Proof.
  apply (pauses_are_as_configured Demo.world (Demo.config 250 false) Demo.branches
           initialState
           (fst (iterate Demo.world (Demo.config 250 false) Demo.branches initialState))).
  apply surjective_pairing.
Defined.

Lemma pass_calls_within_budget_witness :
  exists ev,
    trace (snd (iterate Demo.world (Demo.config 0 false) Demo.branches initialState))
    = trace initialState ++ ev
    /\ (countedCalls ev
        <= 5 * length (List.filter (examined (Demo.config 0 false)) Demo.branches))%nat.
Proof.
  apply (pass_calls_within_budget Demo.world (Demo.config 0 false) Demo.branches
           initialState
           (fst (iterate Demo.world (Demo.config 0 false) Demo.branches initialState))).
  apply surjective_pairing.
Defined.

Lemma run_deletes_only_unprotected_listed_branches_witness :
  exists rules repo branches b,
    @inr Exn RuleSet Demo.defaultRules = inr rules
    /\ (exists h, on_repos_get Demo.world h (repo_owner Demo.context) (repo_repo Demo.context)
                  = Resolved repo)
    /\ (exists h, on_repos_listBranches Demo.world h (repo_owner Demo.context)
                    (repo_repo Demo.context) = Resolved branches)
    /\ In b branches
    /\ "octo" = repo_owner Demo.context /\ "demo" = repo_repo Demo.context
    /\ "heads/old" = "heads/" +:+ name b
    /\ name b <> default_branch repo
    /\ protected b = false
    /\ isExcluded rules (name b) = false
    /\ inputsWith defaultSkipBranches "0" "false" "dry-run" <> "true"
    /\ supported Demo.context.
Proof.
  eapply (run_deletes_only_unprotected_listed_branches
            (inputsWith defaultSkipBranches "0" "false") Demo.context Demo.clock Demo.world
            (inr Demo.defaultRules)).
  - reflexivity.
  - vm_compute. tauto.
Defined.
